(** * Todo_python: the task store, its JSON persistence and the login gate

    A shallow embedding of [src/todo_python/main.py].  The handlers come
    first without the widgets: what a handler reads from a widget
    ([Entry.get], [StringVar.get], the answer of [messagebox.askyesno]) is
    an argument of the handler, and what it shows with [messagebox] is part
    of its result.  The main window, with its form, its tree and its count
    label, and the program, with its two windows and the events of the
    user, are built on the handlers; what Tk makes of a value that is no
    text, when a task goes into the form, is a parameter there.  The disk
    is a finite map from file names to texts, passed to the handlers and
    returned by them; it is ideal, in that every file can be read and
    written.

    Python values are modelled as far as the program can hold them: a task
    field is either a string read from the form or whatever [json.load]
    produced.  A Python [str] is a [string] whose characters are the code
    points U+0000 to U+00FF; floats and code points above U+00FF are outside
    the model, and the JSON decoder answers [Beyond] where a text needs
    them.  Integers are unbounded: neither the limit that newer Python
    versions put on the conversion between [int] and [str] nor the
    recursion limit of the decoder is modelled.

    The library functions the program calls ([json.dump], [json.load],
    [datetime.strptime], [str.strip], [str.isalnum]) are modelled on the
    text, after the behaviour of CPython 3.11.

    Contents: characters and strings; values; the JSON encoder and decoder;
    [strptime]; the classes [Task], [TaskStorage], [ToDoApp] and
    [LoginWindow]; the notions of the specification; the window and the
    program; then the facts about the JSON functions, the properties C1 to
    C10 of the specification, and the properties X1 to X20 of the code. *)

From Stdlib Require Import ZArith NArith Ascii String List Bool Lia.
From Stdlib Require Import Decimal DecimalFacts DecimalPos DecimalZ DecimalString.
From stdpp Require Import base option list gmap strings.

Local Open Scope Z_scope.

(** ** Characters *)

Module Chr.

Definition code (c : ascii) : N := N_of_ascii c.

Definition between (lo hi : N) (c : ascii) : bool :=
  ((lo <=? code c) && (code c <=? hi))%N.

Definition dquote : ascii := ascii_of_N 34.
Definition backslash : ascii := ascii_of_N 92.
Definition newline : ascii := ascii_of_N 10.

(** [str.isspace] on one character of the range U+0000..U+00FF. *)
Definition isspace (c : ascii) : bool :=
  between 9 13 c || between 28 32 c || (code c =? 133)%N || (code c =? 160)%N.

(** ASCII decimal digits: the only characters of the range that the
    regular expression class [\d] matches. *)
Definition isdigit (c : ascii) : bool := between 48 57 c.

(** [str.isalnum] on one character of the range U+0000..U+00FF: letters,
    and the characters that have a numeric value. *)
Definition isalnum (c : ascii) : bool :=
  between 48 57 c || between 65 90 c || between 97 122 c
  || (code c =? 170)%N || between 178 179 c || (code c =? 181)%N
  || between 185 186 c || between 188 190 c
  || between 192 214 c || between 216 246 c || between 248 255 c.

Definition digit_val (c : ascii) : Z := Z.of_N (code c) - 48.

End Chr.

(** ** Python strings *)

Module Str.

(** Truth value of a string: [if not s] takes the branch on the empty
    string only. *)
Definition truthy (s : string) : bool :=
  match s with EmptyString => false | String _ _ => true end.

Fixpoint lstrip (s : string) : string :=
  match s with
  | EmptyString => EmptyString
  | String c r => if Chr.isspace c then lstrip r else s
  end.

Fixpoint rstrip (s : string) : string :=
  match s with
  | EmptyString => EmptyString
  | String c r =>
      match rstrip r with
      | EmptyString => if Chr.isspace c then EmptyString else String c EmptyString
      | r' => String c r'
      end
  end.

(** [s.strip()] *)
Definition strip (s : string) : string := rstrip (lstrip s).

Fixpoint all_chars (p : ascii -> bool) (s : string) : bool :=
  match s with
  | EmptyString => true
  | String c r => p c && all_chars p r
  end.

(** [s.isalnum()]: at least one character, and all alphanumeric. *)
Definition isalnum (s : string) : bool :=
  truthy s && all_chars Chr.isalnum s.

End Str.

(** ** Python values *)

(** The values a task field or a decoded JSON text can be.  A [dict] keeps
    its insertion order, which [json.dump] writes and which nothing else
    observes; its keys are strings and pairwise different (see [wf]). *)
#[warnings="-register-all"]
Inductive pyval : Type :=
  | VNone
  | VBool (b : bool)
  | VInt (z : Z)
  | VStr (s : string)
  | VList (l : list pyval)
  | VDict (d : list (string * pyval)).

(** The exceptions that the program raises by itself or catches.  What
    the library and the system raise at their limits (the [ValueError] of
    an integer of more than 4300 digits, the [RecursionError] of a deep
    nesting, the [UnicodeDecodeError] of a file that is no text, the
    [OSError] of a file that cannot be opened) is not modelled. *)
Inductive exn : Type :=
  | JSONDecodeError
  | KeyError (k : string)
  | TypeError
  | IndexError.

(** What a call does: return, raise, or leave the model ([Beyond]). *)
Inductive outcome (A : Type) : Type :=
  | Ret (a : A)
  | Raise (e : exn)
  | Beyond.
Arguments Ret {A} a.
Arguments Raise {A} e.
Arguments Beyond {A}.

Definition bind {A B} (m : outcome A) (k : A -> outcome B) : outcome B :=
  match m with
  | Ret a => k a
  | Raise e => Raise e
  | Beyond => Beyond
  end.

Notation "'do' x <- m ; k" := (bind m (fun x => k))
  (at level 10, x name, m at level 100, k at level 200).

Module Dict.

Definition t := list (string * pyval).

Fixpoint get (k : string) (d : t) : option pyval :=
  match d with
  | [] => None
  | (k', v) :: d' => if String.eqb k k' then Some v else get k d'
  end.

(** [d[k] = v]: an existing key keeps its place. *)
Fixpoint set (k : string) (v : pyval) (d : t) : t :=
  match d with
  | [] => [(k, v)]
  | (k', v') :: d' =>
      if String.eqb k k' then (k, v) :: d' else (k', v') :: set k v d'
  end.

(** [dict(pairs)] *)
Definition of_pairs (pairs : list (string * pyval)) : t :=
  fold_left (fun d kv => set (fst kv) (snd kv) d) pairs [].

Definition keys (d : t) : list string := map fst d.

End Dict.

(** Well-formed values: the keys of every dict are pairwise different, as
    they are in every Python dict. *)
Fixpoint distinct (ks : list string) : bool :=
  match ks with
  | [] => true
  | k :: r => negb (existsb (String.eqb k) r) && distinct r
  end.

Fixpoint wf (v : pyval) : bool :=
  match v with
  | VList l => forallb wf l
  | VDict d => distinct (Dict.keys d) && forallb (fun kv => wf (snd kv)) d
  | _ => true
  end.

(** ** The JSON encoder: [json.dump(data, f, indent=2)] *)

Module Json.

Definition hexdigit (n : N) : ascii :=
  if (n <? 10)%N then ascii_of_N (48 + n) else ascii_of_N (87 + n).

(** One character of a string, as [ensure_ascii] writes it: the short
    escapes, the character itself from space to tilde, and a four digit
    unicode escape for the rest. *)
Definition escape_char (c : ascii) : string :=
  let n := Chr.code c in
  if (n =? 34)%N then String Chr.backslash (String Chr.dquote EmptyString)
  else if (n =? 92)%N then String Chr.backslash (String Chr.backslash EmptyString)
  else if (n =? 10)%N then String Chr.backslash "n"
  else if (n =? 13)%N then String Chr.backslash "r"
  else if (n =? 9)%N then String Chr.backslash "t"
  else if (n =? 8)%N then String Chr.backslash "b"
  else if (n =? 12)%N then String Chr.backslash "f"
  else if Chr.between 32 126 c then String c EmptyString
  else String Chr.backslash
         (String "u" (String "0" (String "0"
            (String (hexdigit (n / 16)) (String (hexdigit (n mod 16)) EmptyString))))).

Fixpoint escape (s : string) : string :=
  match s with
  | EmptyString => EmptyString
  | String c r => escape_char c +:+ escape r
  end.

Definition encode_str (s : string) : string :=
  String Chr.dquote (escape s +:+ String Chr.dquote EmptyString).

(** [str(z)] for an int *)
Definition encode_int (z : Z) : string := NilZero.string_of_int (Z.to_int z).

Fixpoint spaces (n : nat) : string :=
  match n with
  | O => EmptyString
  | S n => String " " (spaces n)
  end.

(** A line break and the indentation of nesting depth [level]. *)
Definition newline_indent (level : nat) : string :=
  String Chr.newline (spaces (2 * level)).

Section Sequence.
Context {A : Type} (enc : A -> string) (sep close : string).

(** The items after the first one, each behind a comma and a line
    break, and then the closing line. *)
Fixpoint encode_rest (xs : list A) : string :=
  match xs with
  | [] => close
  | y :: ys => "," +:+ sep +:+ enc y +:+ encode_rest ys
  end.

Definition encode_seq (opening empty : string) (xs : list A) : string :=
  match xs with
  | [] => empty
  | x :: xs => opening +:+ sep +:+ enc x +:+ encode_rest xs
  end.
End Sequence.

Definition encode_member (enc : pyval -> string) (kx : string * pyval) : string :=
  encode_str (fst kx) +:+ ": " +:+ enc (snd kx).

Fixpoint encode (level : nat) (v : pyval) : string :=
  match v with
  | VNone => "null"
  | VBool true => "true"
  | VBool false => "false"
  | VInt z => encode_int z
  | VStr s => encode_str s
  | VList xs =>
      encode_seq (encode (S level))
        (newline_indent (S level)) (newline_indent level +:+ "]") "[" "[]" xs
  | VDict kxs =>
      encode_seq (encode_member (encode (S level)))
        (newline_indent (S level)) (newline_indent level +:+ "}") "{" "{}" kxs
  end.

Definition dumps (v : pyval) : string := encode 0 v.

(** ** The JSON decoder: [json.load(f)] *)

(** What scanning a prefix of the text gives: a value and the text after
    it, a [JSONDecodeError], or a text that needs a float or a code point
    above U+00FF. *)
Inductive scan (A : Type) : Type :=
  | Scanned (a : A) (rest : string)
  | Malformed
  | Outside.
Arguments Scanned {A} a rest.
Arguments Malformed {A}.
Arguments Outside {A}.

Definition scan_map {A B} (f : A -> B) (r : scan A) : scan B :=
  match r with
  | Scanned a rest => Scanned (f a) rest
  | Malformed => Malformed
  | Outside => Outside
  end.

Definition is_ws (c : ascii) : bool :=
  let n := Chr.code c in
  ((n =? 32) || (n =? 9) || (n =? 10) || (n =? 13))%N.

Fixpoint skip_ws (s : string) : string :=
  match s with
  | EmptyString => EmptyString
  | String c r => if is_ws c then skip_ws r else s
  end.

Definition hexval (c : ascii) : option N :=
  let n := Chr.code c in
  if Chr.between 48 57 c then Some (n - 48)%N
  else if Chr.between 97 102 c then Some (n - 87)%N
  else if Chr.between 65 70 c then Some (n - 55)%N
  else None.

(** The character a one-letter escape stands for. *)
Definition unescape (e : ascii) : option ascii :=
  let n := Chr.code e in
  if (n =? 34)%N then Some Chr.dquote
  else if (n =? 92)%N then Some Chr.backslash
  else if (n =? 47)%N then Some "/"%char
  else if (n =? 98)%N then Some (ascii_of_N 8)
  else if (n =? 102)%N then Some (ascii_of_N 12)
  else if (n =? 110)%N then Some (ascii_of_N 10)
  else if (n =? 114)%N then Some (ascii_of_N 13)
  else if (n =? 116)%N then Some (ascii_of_N 9)
  else None.

(** The body of a string literal, after its opening quote (strict mode:
    a raw control character is an error). *)
Fixpoint scanstring (s : string) : scan string :=
  match s with
  | EmptyString => Malformed
  | String c r =>
      if (Chr.code c =? 34)%N then Scanned EmptyString r
      else if (Chr.code c =? 92)%N then
        match r with
        | EmptyString => Malformed
        | String e r1 =>
            if (Chr.code e =? 117)%N then
              match r1 with
              | String h1 (String h2 (String h3 (String h4 r2))) =>
                  match hexval h1, hexval h2, hexval h3, hexval h4 with
                  | Some a, Some b, Some c', Some d =>
                      let n := (((a * 16 + b) * 16 + c') * 16 + d)%N in
                      if (n <? 256)%N
                      then scan_map (String (ascii_of_N n)) (scanstring r2)
                      else Outside
                  | _, _, _, _ => Malformed
                  end
              | _ => Malformed
              end
            else
              match unescape e with
              | Some ch => scan_map (String ch) (scanstring r1)
              | None => Malformed
              end
        end
      else if (Chr.code c <? 32)%N then Malformed
      else scan_map (String c) (scanstring r)
  end.

(** The longest run of decimal digits at the head of the text. *)
Fixpoint span_digits (s : string) : string * string :=
  match s with
  | EmptyString => (EmptyString, EmptyString)
  | String c r =>
      if Chr.isdigit c
      then let (ds, rest) := span_digits r in (String c ds, rest)
      else (EmptyString, s)
  end.

Definition starts_with_digit (s : string) : bool :=
  match s with
  | String c _ => Chr.isdigit c
  | EmptyString => false
  end.

(** Does a fraction or an exponent follow the integer part?  Then the
    number is a float. *)
Definition float_tail (s : string) : bool :=
  match s with
  | String c r =>
      if (Chr.code c =? 46)%N then starts_with_digit r
      else if ((Chr.code c =? 101) || (Chr.code c =? 69))%N then
        match r with
        | String g r' =>
            if ((Chr.code g =? 43) || (Chr.code g =? 45))%N
            then starts_with_digit r'
            else Chr.isdigit g
        | EmptyString => false
        end
      else false
  | EmptyString => false
  end.

(** [int(lit)] for a literal the number pattern matched *)
Definition int_of_literal (lit : string) : Z :=
  match NilZero.int_of_string lit with
  | Some d => Z.of_int d
  | None => 0
  end.

(** The integer part at the head of the text: an optional minus sign,
    then a single zero or a run of digits that starts with a non-zero one. *)
Definition match_integer (s : string) : option (string * string) :=
  let unsigned (s : string) : option (string * string) :=
    match s with
    | String c r =>
        if (Chr.code c =? 48)%N then Some ("0", r)
        else if Chr.between 49 57 c
             then let (ds, rest) := span_digits r in Some (String c ds, rest)
             else None
    | EmptyString => None
    end in
  match s with
  | String c r =>
      if (Chr.code c =? 45)%N
      then match unsigned r with
           | Some (lit, rest) => Some (String c lit, rest)
           | None => None
           end
      else unsigned s
  | EmptyString => None
  end.

Fixpoint strip_prefix (p s : string) : option string :=
  match p, s with
  | EmptyString, _ => Some s
  | String a p', String b s' => if Ascii.eqb a b then strip_prefix p' s' else None
  | String _ _, EmptyString => None
  end.

Definition scan_number (s : string) : scan pyval :=
  match match_integer s with
  | Some (lit, rest) =>
      if float_tail rest then Outside else Scanned (VInt (int_of_literal lit)) rest
  | None =>
      match strip_prefix "NaN" s, strip_prefix "Infinity" s, strip_prefix "-Infinity" s with
      | None, None, None => Malformed
      | _, _, _ => Outside
      end
  end.

Definition scan_constant (s : string) : scan pyval :=
  match strip_prefix "null" s with
  | Some rest => Scanned VNone rest
  | None =>
      match strip_prefix "true" s with
      | Some rest => Scanned (VBool true) rest
      | None =>
          match strip_prefix "false" s with
          | Some rest => Scanned (VBool false) rest
          | None => scan_number s
          end
      end
  end.

(** One JSON value at the head of the text.  [fuel] bounds the number of
    nested calls; [loads] gives enough of it for the whole text. *)
Fixpoint scan_once (fuel : nat) (s : string) {struct fuel} : scan pyval :=
  match fuel with
  | O => Malformed
  | S fuel =>
      match s with
      | EmptyString => Malformed
      | String c r =>
          if (Chr.code c =? 34)%N then scan_map VStr (scanstring r)
          else if (Chr.code c =? 123)%N then
            match skip_ws r with
            | String c1 r1 =>
                if (Chr.code c1 =? 125)%N then Scanned (VDict []) r1
                else if (Chr.code c1 =? 34)%N then scan_members fuel r1 []
                else Malformed
            | EmptyString => Malformed
            end
          else if (Chr.code c =? 91)%N then
            match skip_ws r with
            | String c1 r1 =>
                if (Chr.code c1 =? 93)%N then Scanned (VList []) r1
                else scan_items fuel (String c1 r1) []
            | EmptyString => Malformed
            end
          else scan_constant s
      end
  end

(** The items of an array, from the head of an item on. *)
with scan_items (fuel : nat) (s : string) (acc : list pyval) {struct fuel} : scan pyval :=
  match fuel with
  | O => Malformed
  | S fuel =>
      match scan_once fuel s with
      | Scanned v r =>
          match skip_ws r with
          | String c r1 =>
              if (Chr.code c =? 93)%N then Scanned (VList (acc ++ [v])) r1
              else if (Chr.code c =? 44)%N then scan_items fuel (skip_ws r1) (acc ++ [v])
              else Malformed
          | EmptyString => Malformed
          end
      | Malformed => Malformed
      | Outside => Outside
      end
  end

(** The members of an object, from after the opening quote of a key on. *)
with scan_members (fuel : nat) (s : string) (acc : list (string * pyval))
     {struct fuel} : scan pyval :=
  match fuel with
  | O => Malformed
  | S fuel =>
      match scanstring s with
      | Scanned k r =>
          match skip_ws r with
          | String c r1 =>
              if (Chr.code c =? 58)%N then
                match scan_once fuel (skip_ws r1) with
                | Scanned v r2 =>
                    match skip_ws r2 with
                    | String c2 r3 =>
                        if (Chr.code c2 =? 125)%N
                        then Scanned (VDict (Dict.of_pairs (acc ++ [(k, v)]))) r3
                        else if (Chr.code c2 =? 44)%N then
                          match skip_ws r3 with
                          | String q r4 =>
                              if (Chr.code q =? 34)%N
                              then scan_members fuel r4 (acc ++ [(k, v)])
                              else Malformed
                          | EmptyString => Malformed
                          end
                        else Malformed
                    | EmptyString => Malformed
                    end
                | Malformed => Malformed
                | Outside => Outside
                end
              else Malformed
          | EmptyString => Malformed
          end
      | Malformed => Malformed
      | Outside => Outside
      end
  end.

(** [json.loads(s)]: one value, white space around it, nothing else. *)
Definition loads (s : string) : outcome pyval :=
  match scan_once (2 * String.length s + 1) (skip_ws s) with
  | Scanned v rest =>
      match skip_ws rest with
      | EmptyString => Ret v
      | String _ _ => Raise JSONDecodeError
      end
  | Malformed => Raise JSONDecodeError
  | Outside => Beyond
  end.

End Json.

(** ** [datetime.strptime(date_str, "%Y-%m-%d")] *)

Module Strptime.

(** One alternative of a directive's pattern: the number it reads at the
    head of the text, and the text after it. *)
Definition alt : Type := string -> option (Z * string).

Definition one (p : ascii -> bool) : alt := fun s =>
  match s with
  | String a r => if p a then Some (Chr.digit_val a, r) else None
  | EmptyString => None
  end.

Definition two (p1 p2 : ascii -> bool) : alt := fun s =>
  match s with
  | String a (String b r) =>
      if p1 a && p2 b then Some (10 * Chr.digit_val a + Chr.digit_val b, r) else None
  | _ => None
  end.

Definition space_then (p : ascii -> bool) : alt := fun s =>
  match s with
  | String a (String b r) =>
      if (Chr.code a =? 32)%N && p b then Some (Chr.digit_val b, r) else None
  | _ => None
  end.

(** [%Y]: four digits. *)
Definition pat_Y : alt := fun s =>
  match s with
  | String a (String b (String c (String d r))) =>
      if Chr.isdigit a && Chr.isdigit b && Chr.isdigit c && Chr.isdigit d
      then Some (1000 * Chr.digit_val a + 100 * Chr.digit_val b
                 + 10 * Chr.digit_val c + Chr.digit_val d, r)
      else None
  | _ => None
  end.

(** [%m]: 10 to 12, or 01 to 09, or a single 1 to 9. *)
Definition pat_m : list alt :=
  [ two (Chr.between 49 49) (Chr.between 48 50);
    two (Chr.between 48 48) (Chr.between 49 57);
    one (Chr.between 49 57) ].

(** [%d]: 30 or 31, or 10 to 29, or 01 to 09, or a single 1 to 9, or a
    space and a single 1 to 9. *)
Definition pat_d : list alt :=
  [ two (Chr.between 51 51) (Chr.between 48 49);
    two (Chr.between 49 50) Chr.isdigit;
    two (Chr.between 48 48) (Chr.between 49 57);
    one (Chr.between 49 57);
    space_then (Chr.between 49 57) ].

(** The alternatives in order: the first one after which the rest of the
    pattern [k] matches. *)
Fixpoint alternatives {A} (alts : list alt) (k : Z -> string -> option A)
         (s : string) : option A :=
  match alts with
  | [] => None
  | a :: more =>
      match a s with
      | Some (v, r) =>
          match k v r with
          | Some x => Some x
          | None => alternatives more k s
          end
      | None => alternatives more k s
      end
  end.

Definition literal {A} (n : N) (k : string -> option A) (s : string) : option A :=
  match s with
  | String c r => if (Chr.code c =? n)%N then k r else None
  | EmptyString => None
  end.

(** The match of the compiled format at the head of the text: year, month,
    day and the text left over. *)
Definition regex_match (s : string) : option (Z * Z * Z * string) :=
  match pat_Y s with
  | Some (y, r) =>
      literal 45
        (alternatives pat_m (fun m =>
           literal 45 (alternatives pat_d (fun d r' => Some (y, m, d, r'))))) r
  | None => None
  end.

Definition is_leap (y : Z) : bool :=
  (y mod 4 =? 0) && (negb (y mod 100 =? 0) || (y mod 400 =? 0)).

Definition days_in_month (y m : Z) : Z :=
  if m =? 2 then (if is_leap y then 29 else 28)
  else if (m =? 4) || (m =? 6) || (m =? 9) || (m =? 11) then 30
  else 31.

(** The check of the [date] constructor. *)
Definition valid_date (y m d : Z) : bool :=
  (1 <=? y) && (y <=? 9999) && (1 <=? m) && (m <=? 12)
  && (1 <=? d) && (d <=? days_in_month y m).

(** [None] stands for [ValueError]: no match, text left over after the
    match, or no such day. *)
Definition strptime (s : string) : option (Z * Z * Z) :=
  match regex_match s with
  | Some (y, m, d, EmptyString) => if valid_date y m d then Some (y, m, d) else None
  | _ => None
  end.

End Strptime.

(** ** [class Task] *)

Record Task : Type := mkTask {
  name : pyval;
  priority : pyval;
  due_date : pyval;
  category : pyval;
  status : pyval
}.

Definition to_dict (self : Task) : pyval :=
  VDict [ ("name", name self);
          ("priority", priority self);
          ("due_date", due_date self);
          ("category", category self);
          ("status", status self) ].

(** [data[k]] with a string [k]: only a dict can be subscripted with it. *)
Definition getitem (data : pyval) (k : string) : outcome pyval :=
  match data with
  | VDict d =>
      match Dict.get k d with
      | Some v => Ret v
      | None => Raise (KeyError k)
      end
  | _ => Raise TypeError
  end.

Definition from_dict (data : pyval) : outcome Task :=
  do n <- getitem data "name";
  do p <- getitem data "priority";
  do d <- getitem data "due_date";
  do c <- getitem data "category";
  do s <- getitem data "status";
  Ret (mkTask n p d c s).

(** ** [class TaskStorage] *)

(** The files of the working directory, by name; a file is the text read
    from it. *)
Abbreviation files := (gmap string string).

Definition filename (username : string) : string := username +:+ "_tasks.json".

(** The disk is ideal: the file can always be written. *)
Definition save_tasks (username : string) (tasks : list Task) (disk : files) : files :=
  let data := VList (map to_dict tasks) in
  <[filename username := Json.dumps data]> disk.

Fixpoint chars (s : string) : list pyval :=
  match s with
  | EmptyString => []
  | String c r => VStr (String c EmptyString) :: chars r
  end.

(** [for item in data]: the items of a list, the keys of a dict, the
    characters of a string; nothing else can be iterated. *)
Definition iterate (data : pyval) : outcome (list pyval) :=
  match data with
  | VList l => Ret l
  | VDict d => Ret (map VStr (Dict.keys d))
  | VStr s => Ret (chars s)
  | _ => Raise TypeError
  end.

(** [[f(item) for item in items]]: the first exception ends it. *)
Fixpoint comprehension {A B} (f : A -> outcome B) (items : list A) : outcome (list B) :=
  match items with
  | [] => Ret []
  | x :: r =>
      do y <- f x;
      do ys <- comprehension f r;
      Ret (y :: ys)
  end.

Definition load_tasks (username : string) (disk : files) : outcome (list Task) :=
  match disk !! filename username with
  | None => Ret []
  | Some text =>
      match (do data <- Json.loads text;
             do items <- iterate data;
             comprehension from_dict items) with
      | Raise JSONDecodeError => Ret []
      | Raise (KeyError _) => Ret []
      | r => r
      end
  end.

(** ** [class ToDoApp] *)

Inductive message : Type :=
  | showerror (text : string)
  | showinfo (text : string).

(** The state of the application that the handlers read and write.  Every
    position of [tasks] holds a [Task] object of its own: [load_tasks]
    makes one per item and [add_task] one per call, and no object is put
    into the list twice; so a write to the fields of the task at a
    position is the replacement of the record at that position. *)
Record ToDoApp : Type := mkApp {
  username : string;
  tasks : list Task;
  selected_index : option nat
}.

(** What the form holds when a handler runs. *)
Record Form : Type := mkForm {
  task_name_entry : string;
  priority_var : string;
  due_date_entry : string;
  category_var : string
}.

(** [ToDoApp(root, username)] *)
Definition init (user : string) (disk : files) : outcome ToDoApp :=
  do ts <- load_tasks user disk;
  Ret (mkApp user ts None).

(** [on_task_select]: [selection] is the row of the tree that is selected,
    if any. *)
Definition on_task_select (selection : option nat) (self : ToDoApp) : outcome ToDoApp :=
  match selection with
  | Some i =>
      match tasks self !! i with
      | Some _ => Ret (mkApp (username self) (tasks self) (Some i))
      | None => Raise IndexError
      end
  | None => Ret self
  end.

Definition validate_date (date_str : string) : bool :=
  if negb (Str.truthy date_str) then true
  else match Strptime.strptime date_str with
       | Some _ => true
       | None => false
       end.

Definition get_form_data (form : Form) : string * string * string * string :=
  (Str.strip (task_name_entry form), priority_var form,
   Str.strip (due_date_entry form), category_var form).

(** [clear_form], as far as the application state goes. *)
Definition clear_form (self : ToDoApp) : ToDoApp :=
  mkApp (username self) (tasks self) None.

(** A handler leaves the application, the disk and a dialog (if any). *)
Definition after : Type := ToDoApp * files * option message.

Definition add_task (form : Form) (self : ToDoApp) (disk : files) : outcome after :=
  let '(name, priority, due_date, category) := get_form_data form in
  if negb (Str.truthy name)
  then Ret (self, disk, Some (showerror "Task name is required"))
  else if negb (validate_date due_date)
  then Ret (self, disk, Some (showerror "Invalid date format. Use YYYY-MM-DD"))
  else
    let task := mkTask (VStr name) (VStr priority) (VStr due_date) (VStr category)
                       (VStr "Pending") in
    let tasks' := tasks self ++ [task] in
    let disk' := save_tasks (username self) tasks' disk in
    Ret (clear_form (mkApp (username self) tasks' (selected_index self)), disk',
         Some (showinfo "Task added successfully!")).

Definition update_task (form : Form) (self : ToDoApp) (disk : files) : outcome after :=
  match selected_index self with
  | None => Ret (self, disk, Some (showerror "Please select a task to update"))
  | Some i =>
      let '(name, priority, due_date, category) := get_form_data form in
      if negb (Str.truthy name)
      then Ret (self, disk, Some (showerror "Task name is required"))
      else if negb (validate_date due_date)
      then Ret (self, disk, Some (showerror "Invalid date format. Use YYYY-MM-DD"))
      else
        match tasks self !! i with
        | None => Raise IndexError
        | Some task =>
            let task' := mkTask (VStr name) (VStr priority) (VStr due_date)
                                (VStr category) (status task) in
            let tasks' := <[i := task']> (tasks self) in
            let disk' := save_tasks (username self) tasks' disk in
            Ret (mkApp (username self) tasks' (selected_index self), disk',
                 Some (showinfo "Task updated successfully!"))
        end
  end.

(** [confirm] is the answer to the question [askyesno] asks. *)
Definition delete_task (confirm : bool) (self : ToDoApp) (disk : files) : outcome after :=
  match selected_index self with
  | None => Ret (self, disk, Some (showerror "Please select a task to delete"))
  | Some i =>
      match tasks self !! i with
      | None => Raise IndexError
      | Some task =>
          if confirm then
            let tasks' := delete i (tasks self) in
            let disk' := save_tasks (username self) tasks' disk in
            Ret (mkApp (username self) tasks' None, disk', None)
          else Ret (self, disk, None)
      end
  end.

(** [task.status == "Completed"] *)
Definition is_completed (task : Task) : bool :=
  match status task with
  | VStr s => String.eqb s "Completed"
  | _ => false
  end.

Definition mark_completed (self : ToDoApp) (disk : files) : outcome after :=
  match selected_index self with
  | None => Ret (self, disk, Some (showerror "Please select a task to mark as completed"))
  | Some i =>
      match tasks self !! i with
      | None => Raise IndexError
      | Some task =>
          if is_completed task
          then Ret (self, disk, Some (showinfo "This task is already completed"))
          else
            let task' := mkTask (name task) (priority task) (due_date task)
                                (category task) (VStr "Completed") in
            let tasks' := <[i := task']> (tasks self) in
            let disk' := save_tasks (username self) tasks' disk in
            Ret (mkApp (username self) tasks' (selected_index self), disk',
                 Some (showinfo "Task marked as completed!"))
      end
  end.

(** ** [class LoginWindow] *)

(** [login]: [entry] is the text of the username field.  A rejection shows
    an error and returns; otherwise [on_login_success] gets the username,
    and the application starts for it. *)
Inductive login_result : Type :=
  | Rejected (shown : message)
  | LoggedIn (user : string) (session : outcome ToDoApp).

Definition login (entry : string) (disk : files) : login_result :=
  let username := Str.strip entry in
  if negb (Str.truthy username)
  then Rejected (showerror "Please enter a username")
  else if negb (Str.isalnum username)
  then Rejected (showerror "Username must contain only letters and numbers")
  else LoggedIn username (init username disk).

(** ** The events of a session *)

(** What the user does in the main window: select a row (or nothing), and
    press one of the buttons, with the form as it is at that moment. *)
Inductive action : Type :=
  | Select (selection : option nat)
  | Add (form : Form)
  | Update (form : Form)
  | Delete (confirm : bool)
  | MarkCompleted
  | ClearForm.

Definition handle (a : action) (self : ToDoApp) (disk : files) : outcome after :=
  match a with
  | Select selection =>
      do self' <- on_task_select selection self;
      Ret (self', disk, None)
  | Add form => add_task form self disk
  | Update form => update_task form self disk
  | Delete confirm => delete_task confirm self disk
  | MarkCompleted => mark_completed self disk
  | ClearForm => Ret (clear_form self, disk, None)
  end.

(** A session: the events one after the other, as long as none raises. *)
Fixpoint run (actions : list action) (self : ToDoApp) (disk : files)
  : outcome (ToDoApp * files) :=
  match actions with
  | [] => Ret (self, disk)
  | a :: rest =>
      do r <- handle a self disk;
      run rest (fst (fst r)) (snd (fst r))
  end.

(** * The notions of the specification *)

(** A task whose fields can be written and read back: see [wf]. *)
Definition wf_task (t : Task) : bool :=
  wf (name t) && wf (priority t) && wf (due_date t) && wf (category t) && wf (status t).

(** The fixed format of a due date, in the words of the specification: a
    year of four digits, a hyphen, a month of two digits, a hyphen, a day
    of two digits, which together name a day of the calendar. *)
Definition fixed_format (s : string) : bool :=
  match s with
  | String cy1 (String cy2 (String cy3 (String cy4 (String ch1
      (String cm1 (String cm2 (String ch2 (String cd1 (String cd2 EmptyString))))))))) =>
      Chr.isdigit cy1 && Chr.isdigit cy2 && Chr.isdigit cy3 && Chr.isdigit cy4
      && (Chr.code ch1 =? 45)%N
      && Chr.isdigit cm1 && Chr.isdigit cm2
      && (Chr.code ch2 =? 45)%N
      && Chr.isdigit cd1 && Chr.isdigit cd2
      && Strptime.valid_date
           (1000 * Chr.digit_val cy1 + 100 * Chr.digit_val cy2
            + 10 * Chr.digit_val cy3 + Chr.digit_val cy4)
           (10 * Chr.digit_val cm1 + Chr.digit_val cm2)
           (10 * Chr.digit_val cd1 + Chr.digit_val cd2)
  | _ => false
  end.

(** The form is rejected: the name is empty once trimmed, or the due date
    is not valid. *)
Definition input_rejected (form : Form) : bool :=
  let '(name, _, due_date, _) := get_form_data form in
  negb (Str.truthy name) || negb (validate_date due_date).

(** The calls that the specification lists as errors or as a notice: add
    or update with a rejected form; update, delete or mark-completed with
    nothing selected; mark-completed on a task that is completed. *)
Definition refused (a : action) (self : ToDoApp) : bool :=
  match a with
  | Add form => input_rejected form
  | Update form =>
      match selected_index self with
      | None => true
      | Some _ => input_rejected form
      end
  | Delete _ =>
      match selected_index self with
      | None => true
      | Some _ => false
      end
  | MarkCompleted =>
      match selected_index self with
      | None => true
      | Some i =>
          match tasks self !! i with
          | Some task => is_completed task
          | None => false
          end
      end
  | Select _ | ClearForm => false
  end.


Definition is_record (v : pyval) : bool :=
  match v with
  | VDict _ => true
  | _ => false
  end.





Definition non_null (v : pyval) : bool :=
  match v with
  | VNone => false
  | _ => true
  end.

(** The due date is empty or parses as a day of the calendar. *)
Definition date_ok (v : pyval) : bool :=
  match v with
  | VStr d => validate_date d
  | _ => false
  end.

(** The invariant of a task as the specification has it: the five fields
    are there and not null, and the due date is empty or parses. *)
Definition task_invariant (t : Task) : bool :=
  non_null (name t) && non_null (priority t) && non_null (due_date t)
  && non_null (category t) && non_null (status t) && date_ok (due_date t).

(** The name is a text that is not empty. *)
Definition named (t : Task) : bool :=
  match name t with
  | VStr n => Str.truthy n
  | _ => false
  end.

(** The selection, if there is one, is a position of the sequence: the
    rows of the tree are the positions, and [refresh_task_list] fills the
    tree anew after every change of the sequence. *)
Definition selection_valid (self : ToDoApp) : bool :=
  match selected_index self with
  | None => true
  | Some i => bool_decide (i < length (tasks self))%nat
  end.

(** * Notions for the proofs about the decoder *)

(** After a value comes the end of the text, a comma or a line break. *)
Definition value_end (rest : string) : bool :=
  match rest with
  | EmptyString => true
  | String c _ => ((Chr.code c =? 44) || (Chr.code c =? 10))%N
  end.

(** The characters an encoded value can start with. *)
Definition value_start (c : ascii) : bool :=
  Chr.isdigit c
  || ((Chr.code c =? 45) || (Chr.code c =? 34) || (Chr.code c =? 123)
      || (Chr.code c =? 91) || (Chr.code c =? 110) || (Chr.code c =? 116)
      || (Chr.code c =? 102))%N.

(** The fuel that scanning the encoding of a value takes. *)
Fixpoint need (v : pyval) : nat :=
  match v with
  | VList l => S (list_sum (map (fun x => S (need x)) l))
  | VDict d => S (list_sum (map (fun kx => S (need (snd kx))) d))
  | _ => 1
  end.

(** Scanning the encoding of the value gives the value back, whatever the
    nesting depth, with enough fuel, and before the end of the text, a
    comma or a line break. *)
Definition roundtrips (v : pyval) : Prop :=
  forall (level fuel : nat) (rest : string),
    value_end rest = true -> (need v <= fuel)%nat ->
    Json.scan_once fuel (Json.encode level v +:+ rest) = Json.Scanned v rest.


(** * Sample data *)

(** A JSON text is written below with an apostrophe in the place of each
    double quote. *)
Fixpoint json_text (s : string) : string :=
  match s with
  | EmptyString => EmptyString
  | String c r => String (if (Chr.code c =? 39)%N then Chr.dquote else c) (json_text r)
  end.

Definition two_tasks : list Task :=
  [ mkTask (VStr "Buy milk") (VStr "Low") (VStr "2024-02-29") (VStr "Shopping") (VStr "Pending");
    mkTask (VStr (String Chr.dquote "quoted")) (VStr "High") (VStr EmptyString) (VStr "Work")
           (VStr "Completed") ].

Definition milk_form : Form := mkForm "  Buy milk " "High" " 2024-02-29" "Shopping".

Definition one_task : ToDoApp :=
  mkApp "alice"
        [mkTask (VStr "Call Bob") (VStr "Low") (VStr EmptyString) (VStr "Personal")
                (VStr "Completed")]
        (Some 0%nat).

Definition one_task_disk : files := save_tasks "alice" (tasks one_task) ∅.

Definition three_tasks : list Task :=
  [ mkTask (VStr "Call Bob") (VStr "Low") (VStr EmptyString) (VStr "Personal")
           (VStr "Completed");
    mkTask (VStr "Write report") (VStr "High") (VStr "2024-03-01") (VStr "Work")
           (VStr "Pending");
    mkTask (VStr "Buy bread") (VStr "Low") (VStr EmptyString) (VStr "Shopping")
           (VStr "Pending") ].

(** Three tasks, the one in the middle selected. *)
Definition middle_selected : ToDoApp := mkApp "alice" three_tasks (Some 1%nat).






(** One record, as a hand may have left it: the name empty, the priority
    null, the due date no date. *)
Definition edited_file : string :=
  json_text
    ("[{'name': '', 'priority': null, 'due_date': 'tomorrow', "
     +:+ "'category': 'Work', 'status': 'Pending'}]").

(** * The rest of the program *)

(** ** [ToDoApp]: the tree, the counts and the form *)

Definition CATEGORIES : list string :=
  ["Work"; "Personal"; "Study"; "Shopping"; "Health"; "Other"].

Definition PRIORITIES : list string := ["High"; "Low"].

(** [v == s] for a string [s]: a value that is no string is not equal to
    one. *)
Definition eq_text (v : pyval) (s : string) : bool :=
  match v with
  | VStr t => String.eqb t s
  | _ => false
  end.

(** A row of the tree, as [task_tree.insert] gets it. *)
Record Row : Type := mkRow {
  iid : nat;
  values : pyval * pyval * pyval * pyval * pyval;
  tags : list string
}.

(** The tag of a row: by status first, then by priority. *)
Definition tag_of (task : Task) : string :=
  if eq_text (status task) "Completed" then "completed"
  else if eq_text (priority task) "High" then "pending_high"
  else "pending_low".

(** [enumerate(l)], counting from [start] *)
Fixpoint enumerate {A} (start : nat) (l : list A) : list (nat * A) :=
  match l with
  | [] => []
  | x :: r => (start, x) :: enumerate (S start) r
  end.

(** The row of a task, by its position. *)
Definition row_of (it : nat * Task) : Row :=
  let task := snd it in
  mkRow (fst it)
        (name task, priority task, due_date task, category task, status task)
        [tag_of task].

(** [sum(1 for t in tasks if t.status == s)] *)
Fixpoint count_status (s : string) (tasks : list Task) : nat :=
  match tasks with
  | [] => O
  | t :: r => if eq_text (status t) s then S (count_status s r) else count_status s r
  end.

(** [str(n)] for a count *)
Definition str_nat (n : nat) : string := Json.encode_int (Z.of_nat n).

(** What [refresh_task_list] leaves on the screen: the rows of the tree,
    one per task and named by its position, and the text of the count
    label. *)
Definition refresh_task_list (self : ToDoApp) : list Row * string :=
  let rows := map row_of (enumerate 0 (tasks self)) in
  let pending := count_status "Pending" (tasks self) in
  let completed := count_status "Completed" (tasks self) in
  (rows,
   "Total: " +:+ str_nat (length (tasks self))
   +:+ " | Pending: " +:+ str_nat pending
   +:+ " | Completed: " +:+ str_nat completed).

(** The main window: the application, what the form holds, the rows of
    the tree and the text of the count label.  (The status bar, the title
    and the layout are left out.) *)
Record Main : Type := mkMain {
  todo : ToDoApp;
  form : Form;
  task_tree : list Row;
  task_count_label : string
}.

(** The window once [refresh_task_list] has run for [self], with [f] in
    the form. *)
Definition refreshed (self : ToDoApp) (f : Form) : Main :=
  mkMain self f (fst (refresh_task_list self)) (snd (refresh_task_list self)).

(** The window where only the application and the form have changed. *)
Definition unrefreshed (w : Main) (self : ToDoApp) (f : Form) : Main :=
  mkMain self f (task_tree w) (task_count_label w).

(** The form as [create_widgets] makes it and [clear_form] leaves it. *)
Definition cleared : Form := mkForm EmptyString "Low" EmptyString "Personal".

(** The two ways in which [on_task_select] puts a field of a task into the
    form: [Entry.insert] for the name and the due date, [StringVar.set]
    for the priority and the category. *)
Inductive widget : Type :=
  | EntryInsert
  | VarSet.

(** What Tk makes of a value that is no text (a number, null, a list, as a
    file not written by the program can bring them) is not written in the
    program: it is a parameter of the model.  It gives the text that the
    widget holds afterwards, and [None] where the call fails. *)
Definition tk_text : Type := widget -> pyval -> option string.

(** What a field of a task puts into a widget: the text, for a text. *)
Definition text_of (tk : tk_text) (how : widget) (v : pyval) : outcome string :=
  match v with
  | VStr s => Ret s
  | _ =>
      match tk how v with
      | Some s => Ret s
      | None => Beyond
      end
  end.

(** [on_task_select], with the form: the fields of the selected task go
    into the form. *)
Definition select_row (tk : tk_text) (selection : option nat) (w : Main) : outcome Main :=
  match selection with
  | None => Ret w
  | Some i =>
      do self' <- on_task_select selection (todo w);
      match tasks self' !! i with
      | None => Raise IndexError
      | Some task =>
          do n <- text_of tk EntryInsert (name task);
          do p <- text_of tk VarSet (priority task);
          do d <- text_of tk EntryInsert (due_date task);
          do c <- text_of tk VarSet (category task);
          Ret (unrefreshed w self' (mkForm n p d c))
      end
  end.

(** A handler leaves the window, the disk and a dialog (if any). *)
Definition shown_after : Type := Main * files * option message.

(** [add_task], with the window: [refresh_task_list] and [clear_form] run
    where the task is added. *)
Definition press_add (w : Main) (disk : files) : outcome shown_after :=
  do r <- add_task (form w) (todo w) disk;
  let '(self', disk', shown) := r in
  if input_rejected (form w)
  then Ret (unrefreshed w self' (form w), disk', shown)
  else Ret (refreshed self' cleared, disk', shown).

(** [update_task], with the window: [refresh_task_list] runs where the
    task is updated; the form stays. *)
Definition press_update (w : Main) (disk : files) : outcome shown_after :=
  do r <- update_task (form w) (todo w) disk;
  let '(self', disk', shown) := r in
  match selected_index (todo w) with
  | None => Ret (unrefreshed w self' (form w), disk', shown)
  | Some _ =>
      if input_rejected (form w)
      then Ret (unrefreshed w self' (form w), disk', shown)
      else Ret (refreshed self' (form w), disk', shown)
  end.

(** [delete_task], with the window: [refresh_task_list] and [clear_form]
    run where the task is deleted. *)
Definition press_delete (confirm : bool) (w : Main) (disk : files) : outcome shown_after :=
  do r <- delete_task confirm (todo w) disk;
  let '(self', disk', shown) := r in
  match selected_index (todo w) with
  | None => Ret (unrefreshed w self' (form w), disk', shown)
  | Some _ =>
      if confirm
      then Ret (refreshed self' cleared, disk', shown)
      else Ret (unrefreshed w self' (form w), disk', shown)
  end.

(** [mark_completed], with the window: [refresh_task_list] runs where the
    status changes; the form stays. *)
Definition press_mark (w : Main) (disk : files) : outcome shown_after :=
  do r <- mark_completed (todo w) disk;
  let '(self', disk', shown) := r in
  match selected_index (todo w) with
  | None => Ret (unrefreshed w self' (form w), disk', shown)
  | Some i =>
      match tasks (todo w) !! i with
      | None => Raise IndexError
      | Some task =>
          if is_completed task
          then Ret (unrefreshed w self' (form w), disk', shown)
          else Ret (refreshed self' (form w), disk', shown)
      end
  end.

(** ** The program: [main], [LoginWindow] and [logout] *)

(** What the root window shows. *)
Inductive screen : Type :=
  | LoginScreen
  | MainScreen (w : Main).

(** What the user does: at the login window, press Login with a text in
    the field; at the main window, type into the two entries, choose in the
    two read-only boxes, select a row of the tree, and press the buttons
    (the answer to a question comes with the button that asks it). *)
Inductive event : Type :=
  | PressLogin (entry : string)
  | TypeName (text : string)
  | TypeDueDate (text : string)
  | ChoosePriority (choice : string)
  | ChooseCategory (choice : string)
  | SelectRow (selection : option nat)
  | PressAdd
  | PressUpdate
  | PressDelete (confirm : bool)
  | PressMarkComplete
  | PressClearForm
  | PressLogout (confirm : bool).

(** [s in l] *)
Definition member (s : string) (l : list string) : bool := existsb (String.eqb s) l.

(** The events that the screen offers: the login window its button, the
    boxes of the main window their lists, the tree the rows that are in
    it. *)
Definition possible (e : event) (s : screen) : bool :=
  match s, e with
  | LoginScreen, PressLogin _ => true
  | LoginScreen, _ => false
  | MainScreen _, PressLogin _ => false
  | MainScreen _, ChoosePriority choice => member choice PRIORITIES
  | MainScreen _, ChooseCategory choice => member choice CATEGORIES
  | MainScreen w, SelectRow (Some i) =>
      existsb (fun row => Nat.eqb (iid row) i) (task_tree w)
  | MainScreen _, _ => true
  end.

(** [ToDoApp(root, username)], with the window: [create_widgets] makes
    the form, [refresh_task_list] fills the tree. *)
Definition open_main (session : outcome ToDoApp) : outcome Main :=
  do self <- session;
  Ret (refreshed self cleared).

(** One event: what the handler bound to it does to the screen and the
    disk, and the dialog that it shows.  An event of the other window
    changes nothing. *)
Definition step (tk : tk_text) (e : event) (s : screen) (disk : files)
  : outcome (screen * files * option message) :=
  match s with
  | LoginScreen =>
      match e with
      | PressLogin entry =>
          match login entry disk with
          | Rejected shown => Ret (LoginScreen, disk, Some shown)
          | LoggedIn user session =>
              do w <- open_main session;
              Ret (MainScreen w, disk, None)
          end
      | _ => Ret (s, disk, None)
      end
  | MainScreen w =>
      let wrap (r : outcome shown_after) :=
        do x <- r;
        Ret (MainScreen (fst (fst x)), snd (fst x), snd x) in
      let f := form w in
      match e with
      | PressLogin _ => Ret (s, disk, None)
      | TypeName text =>
          Ret (MainScreen (unrefreshed w (todo w)
                 (mkForm text (priority_var f) (due_date_entry f) (category_var f))),
               disk, None)
      | TypeDueDate text =>
          Ret (MainScreen (unrefreshed w (todo w)
                 (mkForm (task_name_entry f) (priority_var f) text (category_var f))),
               disk, None)
      | ChoosePriority choice =>
          Ret (MainScreen (unrefreshed w (todo w)
                 (mkForm (task_name_entry f) choice (due_date_entry f) (category_var f))),
               disk, None)
      | ChooseCategory choice =>
          Ret (MainScreen (unrefreshed w (todo w)
                 (mkForm (task_name_entry f) (priority_var f) (due_date_entry f) choice)),
               disk, None)
      | SelectRow selection =>
          do w' <- select_row tk selection w;
          Ret (MainScreen w', disk, None)
      | PressAdd => wrap (press_add w disk)
      | PressUpdate => wrap (press_update w disk)
      | PressDelete confirm => wrap (press_delete confirm w disk)
      | PressMarkComplete => wrap (press_mark w disk)
      | PressClearForm =>
          Ret (MainScreen (unrefreshed w (clear_form (todo w)) cleared), disk, None)
      | PressLogout confirm =>
          Ret (if confirm then LoginScreen else s, disk, None)
      end
  end.

(** [main]: the login window first, then the events as they come, up to
    the first handler that does not return (in the program Tk reports the
    exception of a handler and goes on with the next event); an event that
    the screen does not offer does not come. *)
Fixpoint play (tk : tk_text) (events : list event) (s : screen) (disk : files)
  : outcome (screen * files) :=
  match events with
  | [] => Ret (s, disk)
  | e :: rest =>
      if possible e s
      then do r <- step tk e s disk; play tk rest (fst (fst r)) (snd (fst r))
      else play tk rest s disk
  end.

Definition main (tk : tk_text) (events : list event) (disk : files)
  : outcome (screen * files) :=
  play tk events LoginScreen disk.

(** The handler of the application that an event of the main window runs,
    with the form as it is at that moment. *)
Definition action_of (e : event) (f : Form) : option action :=
  match e with
  | SelectRow selection => Some (Select selection)
  | PressAdd => Some (Add f)
  | PressUpdate => Some (Update f)
  | PressDelete confirm => Some (Delete confirm)
  | PressMarkComplete => Some MarkCompleted
  | PressClearForm => Some ClearForm
  | _ => None
  end.

(** [center_window]: the corner of a window of 400 by 250 on a screen of
    the given width and height. *)
Definition center_window (screenwidth screenheight : Z) : Z * Z :=
  (screenwidth / 2 - 400 / 2, screenheight / 2 - 250 / 2).

(** ** Notions for the properties of the code *)

(** The three numbers of the count label. *)
Definition counts (ts : list Task) : nat * nat * nat :=
  (length ts, count_status "Pending" ts, count_status "Completed" ts).

(** The status is one of the two that the label counts. *)
Definition counted (t : Task) : bool :=
  eq_text (status t) "Pending" || eq_text (status t) "Completed".

(** A task as the program itself makes it: the name a trimmed text that is
    not empty, the due date a trimmed text that is empty or valid, the
    priority and the category from their lists, the status Pending or
    Completed. *)
Definition kept (t : Task) : bool :=
  match name t, priority t, due_date t, category t, status t with
  | VStr n, VStr p, VStr d, VStr c, VStr s =>
      Str.truthy n && String.eqb (Str.strip n) n
      && member p PRIORITIES
      && validate_date d && String.eqb (Str.strip d) d
      && member c CATEGORIES
      && member s ["Pending"; "Completed"]
  | _, _, _, _, _ => false
  end.

(** Every user finds a store of such tasks on the disk (an empty one where
    there is no file). *)
Definition disk_kept (disk : files) : Prop :=
  forall user : string,
    exists ts : list Task, load_tasks user disk = Ret ts /\ forallb kept ts = true.

(** The window and the disk agree: the user has a name of letters and
    digits, the selection (if any) is a position of the sequence, the file
    of the user loads as the sequence, and the tree and the count label
    are what [refresh_task_list] makes of the sequence. *)
Definition synced (s : screen) (disk : files) : Prop :=
  match s with
  | LoginScreen => True
  | MainScreen w =>
      Str.isalnum (username (todo w)) = true
      /\ selection_valid (todo w) = true
      /\ load_tasks (username (todo w)) disk = Ret (tasks (todo w))
      /\ task_tree w = fst (refresh_task_list (todo w))
      /\ task_count_label w = snd (refresh_task_list (todo w))
  end.

(** What holds of the screen and the disk all along, from a disk that
    holds stores of tasks as the program makes them: the window and the
    disk agree, every task is as the program makes it, and the boxes hold
    a priority and a category of their lists. *)
Definition steady (s : screen) (disk : files) : Prop :=
  disk_kept disk
  /\ synced s disk
  /\ match s with
     | LoginScreen => True
     | MainScreen w =>
         forallb kept (tasks (todo w)) = true
         /\ member (priority_var (form w)) PRIORITIES = true
         /\ member (category_var (form w)) CATEGORIES = true
     end.




(** The item of the file is a record that has the five fields of the
    task, with its values (and maybe more fields). *)
Definition holds_task (item : pyval) (t : Task) : Prop :=
  exists d : Dict.t,
    item = VDict d
    /\ Dict.get "name" d = Some (name t)
    /\ Dict.get "priority" d = Some (priority t)
    /\ Dict.get "due_date" d = Some (due_date t)
    /\ Dict.get "category" d = Some (category t)
    /\ Dict.get "status" d = Some (status t).

(** ** The texts that are dates *)

(** A year: four digits. *)
Definition year_text (s : string) : option Z :=
  match s with
  | String a (String b (String c (String d EmptyString))) =>
      if Chr.isdigit a && Chr.isdigit b && Chr.isdigit c && Chr.isdigit d
      then Some (1000 * Chr.digit_val a + 100 * Chr.digit_val b
                 + 10 * Chr.digit_val c + Chr.digit_val d)
      else None
  | _ => None
  end.

(** A number of one digit that is not zero, or of two digits, from 1 up to
    [most]. *)
Definition short_number (most : Z) (s : string) : option Z :=
  match s with
  | String a EmptyString =>
      if Chr.between 49 57 a then Some (Chr.digit_val a) else None
  | String a (String b EmptyString) =>
      let v := 10 * Chr.digit_val a + Chr.digit_val b in
      if Chr.isdigit a && Chr.isdigit b && (1 <=? v) && (v <=? most) then Some v else None
  | _ => None
  end.

(** A month: 1 to 12, with or without a zero before a single digit. *)
Definition month_text (s : string) : option Z := short_number 12 s.

(** A day: 1 to 31, with or without a zero before a single digit, or with
    a space before it. *)
Definition day_text (s : string) : option Z :=
  match s with
  | String a (String b EmptyString) =>
      if (Chr.code a =? 32)%N && Chr.between 49 57 b then Some (Chr.digit_val b)
      else short_number 31 s
  | _ => short_number 31 s
  end.

(** A year, a month and a day with hyphens between them that name a day of
    the calendar. *)
Definition date_text (s : string) : Prop :=
  exists (ys ms ds : string) (y m d : Z),
    s = ys +:+ "-" +:+ ms +:+ "-" +:+ ds
    /\ year_text ys = Some y
    /\ month_text ms = Some m
    /\ day_text ds = Some d
    /\ Strptime.valid_date y m d = true.

(** ** More sample data *)

(** One record with a field more than the five, after one as the
    application writes it. *)
Definition file_with_more : string :=
  json_text
    ("[{'name': 'a', 'priority': 'Low', 'due_date': '', 'category': 'Work', "
     +:+ "'status': 'Pending'}, "
     +:+ "{'id': 7, 'name': 'b', 'priority': 'High', 'due_date': '', 'category': 'Work', "
     +:+ "'status': 'Completed'}]").

(** The task of [edited_file], and the window that shows it. *)
Definition edited_task : Task :=
  mkTask (VStr EmptyString) VNone (VStr "tomorrow") (VStr "Work") (VStr "Pending").

Definition edited_window : Main := refreshed (mkApp "alice" [edited_task] None) cleared.

(** A Tk that takes no value but a text. *)
Definition texts_only : tk_text := fun _ _ => None.

(** A Tk that shows null as the word None and a number in decimal, and
    takes no list and no record. *)
Definition plain_values : tk_text := fun _ v =>
  match v with
  | VNone => Some "None"
  | VInt z => Some (Json.encode_int z)
  | _ => None
  end.


(** * Facts about the JSON encoder and decoder *)

(** A property of every character, by running through the 256 of them. *)
Ltac each_char c :=
  destruct c as [[|] [|] [|] [|] [|] [|] [|] [|]].

(** A fact about a character that follows from the hypothesis [H] about
    it: in each of the 256 cases the hypothesis is absurd or the fact
    holds by computation. *)
Ltac by_char c H :=
  revert H; clear; each_char c; intros H; (discriminate H || reflexivity).

(** Case analysis on what a [match] of the hypothesis looks at, the
    innermost first. *)
Ltac split_match H :=
  match type of H with
  | context [match ?x with _ => _ end] =>
      lazymatch x with
      | context [match _ with _ => _ end] => fail
      | _ => destruct x eqn:?; try discriminate H
      end
  end.


(** The layout of [indent=2]. *)
Example dumps_layout :
  Json.dumps (VList [VDict [("name", VStr "a"); ("tags", VList [VInt 1; VNone]);
                       ("more", VDict [])]])
  = json_text "[
  {
    'name': 'a',
    'tags': [
      1,
      null
    ],
    'more': {}
  }
]".
Proof. reflexivity. Qed.

(** Escapes on the way out and on the way in. *)
Example dumps_escapes :
  Json.dumps (VStr (String Chr.dquote (String Chr.newline (String (ascii_of_N 233) "/"))))
  = String Chr.dquote
      (String Chr.backslash (String Chr.dquote
         (String Chr.backslash ("n" +:+ String Chr.backslash "u00e9/"
            +:+ String Chr.dquote EmptyString)))).
Proof. reflexivity. Qed.

(** The last of two equal keys wins, at the place of the first. *)
Example loads_equal_keys :
  Json.loads (json_text "{'a': 1, 'b': true, 'a': [-20, null]}")
  = Ret (VDict [("a", VList [VInt (-20); VNone]); ("b", VBool true)]).
Proof. reflexivity. Qed.

Example loads_errors :
  Json.loads "[1,]" = Raise JSONDecodeError
  /\ Json.loads "01" = Raise JSONDecodeError
  /\ Json.loads (json_text "{'a' 1}") = Raise JSONDecodeError
  /\ Json.loads (json_text "'abc") = Raise JSONDecodeError
  /\ Json.loads "[1] 2" = Raise JSONDecodeError
  /\ Json.loads EmptyString = Raise JSONDecodeError.
Proof. repeat split. Qed.

(** Numbers with a fraction or an exponent are floats. *)
Example loads_floats :
  Json.loads "1.5" = Beyond /\ Json.loads "[2e3]" = Beyond /\ Json.loads "NaN" = Beyond.
Proof. repeat split. Qed.

Module JsonFacts.
Import Json.

Lemma append_cons (x : ascii) (a b : string) : String x a +:+ b = String x (a +:+ b).
Proof. reflexivity. Qed.

Lemma append_nil_l (b : string) : EmptyString +:+ b = b.
Proof. reflexivity. Qed.

Lemma append_assoc (a b c : string) : (a +:+ b) +:+ c = a +:+ (b +:+ c).
Proof.
  induction a as [|x a IH]; [reflexivity|].
  now rewrite !append_cons, IH.
Qed.

Lemma append_nil_r (a : string) : a +:+ EmptyString = a.
Proof. induction a as [|x a IH]; [reflexivity|]. now rewrite append_cons, IH. Qed.

Lemma length_append (a b : string) :
  String.length (a +:+ b) = (String.length a + String.length b)%nat.
Proof.
  induction a as [|x a IH]; [reflexivity|].
  rewrite append_cons. simpl. now rewrite IH.
Qed.

(** *** Strings *)

Lemma scanstring_escape_char (c : ascii) (r : string) :
  scanstring (escape_char c +:+ r) = scan_map (String c) (scanstring r).
Proof. each_char c; reflexivity. Qed.

Lemma scanstring_escape (s rest : string) :
  scanstring (escape s +:+ String Chr.dquote rest) = Scanned s rest.
Proof.
  induction s as [|c s IH].
  - reflexivity.
  - cbn [escape]. rewrite append_assoc, scanstring_escape_char, IH. reflexivity.
Qed.

Lemma encode_str_cons (s rest : string) :
  encode_str s +:+ rest = String Chr.dquote (escape s +:+ String Chr.dquote rest).
Proof. unfold encode_str. now rewrite append_cons, append_assoc, append_cons. Qed.

(** *** White space *)

Lemma skip_ws_spaces (n : nat) (s : string) : skip_ws (spaces n +:+ s) = skip_ws s.
Proof. induction n as [|n IH]; [reflexivity|]. cbn [spaces]. now rewrite append_cons. Qed.

Lemma skip_ws_newline_indent (level : nat) (s : string) :
  skip_ws (newline_indent level +:+ s) = skip_ws s.
Proof. unfold newline_indent. rewrite append_cons. cbn. apply skip_ws_spaces. Qed.

(** *** Numbers *)

Lemma span_digits_uint (d : uint) (rest : string) :
  starts_with_digit rest = false ->
  span_digits (NilEmpty.string_of_uint d +:+ rest) = (NilEmpty.string_of_uint d, rest).
Proof.
  intros Hrest. induction d as [|d IH|d IH|d IH|d IH|d IH|d IH|d IH|d IH|d IH|d IH];
    cbn [NilEmpty.string_of_uint]; rewrite ?append_cons;
    try (cbn [span_digits]; rewrite IH; reflexivity).
  rewrite append_nil_l. destruct rest as [|c r]; [reflexivity|].
  cbn in Hrest |- *. now rewrite Hrest.
Qed.

Lemma to_uint_head (p : positive) :
  exists c r, NilEmpty.string_of_uint (Pos.to_uint p) = String c r
              /\ Chr.between 49 57 c = true.
Proof.
  pose proof (DecimalPos.Unsigned.to_uint_nonzero p) as Hnz.
  pose proof (DecimalPos.Unsigned.to_uint_nonnil p) as Hnn.
  pose proof (DecimalPos.Unsigned.to_of (Pos.to_uint p)) as Hnorm.
  rewrite DecimalPos.Unsigned.of_to in Hnorm. cbn [N.to_uint] in Hnorm.
  destruct (Pos.to_uint p) as [|u|u|u|u|u|u|u|u|u|u] eqn:E;
    try (eexists _, _; split; [reflexivity | reflexivity]).
  - congruence.
  - exfalso. rewrite unorm_D0 in Hnorm. unfold unorm in Hnorm.
    destruct (nzhead u) eqn:Eh; try congruence.
    now apply nzhead_nonzero in Eh.
Qed.

Lemma value_end_no_digit rest : value_end rest = true -> starts_with_digit rest = false.
Proof.
  destruct rest as [|c r]; [reflexivity|].
  each_char c; intros H; (discriminate H || reflexivity).
Qed.

Lemma value_end_no_float rest : value_end rest = true -> float_tail rest = false.
Proof.
  destruct rest as [|c r]; [reflexivity|].
  each_char c; intros H; (discriminate H || reflexivity).
Qed.

Lemma match_unsigned_pos (p : positive) (rest : string) :
  starts_with_digit rest = false ->
  match_integer (NilEmpty.string_of_uint (Pos.to_uint p) +:+ rest)
  = Some (NilEmpty.string_of_uint (Pos.to_uint p), rest).
Proof.
  intros Hrest.
  pose proof (span_digits_uint (Pos.to_uint p) rest Hrest) as Hspan.
  destruct (to_uint_head p) as (c & r & E & Hc). rewrite E in *.
  rewrite append_cons in *. cbn [span_digits] in Hspan.
  assert (Hd : Chr.isdigit c = true) by (by_char c Hc).
  rewrite Hd in Hspan. destruct (span_digits (r +:+ rest)) as [ds rest'] eqn:Es.
  injection Hspan as -> ->.
  unfold match_integer.
  assert (H45 : (Chr.code c =? 45)%N = false) by (by_char c Hc).
  assert (H48 : (Chr.code c =? 48)%N = false) by (by_char c Hc).
  rewrite H45, H48, Hc, Es. reflexivity.
Qed.

Lemma nilzero_pos (p : positive) :
  NilZero.string_of_uint (Pos.to_uint p) = NilEmpty.string_of_uint (Pos.to_uint p).
Proof.
  pose proof (DecimalPos.Unsigned.to_uint_nonnil p).
  now destruct (Pos.to_uint p).
Qed.

Lemma match_integer_encode (z : Z) (rest : string) :
  starts_with_digit rest = false ->
  match_integer (encode_int z +:+ rest) = Some (encode_int z, rest).
Proof.
  intros Hrest. unfold encode_int. destruct z as [|p|p].
  - reflexivity.
  - cbn [Z.to_int NilZero.string_of_int]. rewrite nilzero_pos.
    now apply match_unsigned_pos.
  - cbn [Z.to_int NilZero.string_of_int]. rewrite nilzero_pos, append_cons.
    pose proof (match_unsigned_pos p rest Hrest) as H.
    destruct (to_uint_head p) as (c & r & E & Hc). rewrite E in *.
    rewrite append_cons in *.
    unfold match_integer in *.
    assert (H45 : (Chr.code c =? 45)%N = false) by (by_char c Hc).
    rewrite H45 in H.
    change (Chr.code "-" =? 45)%N with true. cbv iota. rewrite H. reflexivity.
Qed.

Lemma int_of_literal_encode (z : Z) : int_of_literal (encode_int z) = z.
Proof.
  unfold int_of_literal, encode_int.
  rewrite NilZero.isi.
  - apply DecimalZ.of_to.
  - destruct z; cbn; try discriminate.
    intros [= H]. now apply (DecimalPos.Unsigned.to_uint_nonnil p).
  - destruct z; cbn; try discriminate.
    intros [= H]. now apply (DecimalPos.Unsigned.to_uint_nonnil p).
Qed.

Lemma encode_int_head (z : Z) :
  exists c r, encode_int z = String c r
              /\ (Chr.isdigit c || (Chr.code c =? 45)%N) = true.
Proof.
  unfold encode_int. destruct z as [|p|p].
  - eexists _, _; split; reflexivity.
  - cbn [Z.to_int NilZero.string_of_int]. rewrite nilzero_pos.
    destruct (to_uint_head p) as (c & r & E & Hc). exists c, r. split; [assumption|].
    by_char c Hc.
  - eexists _, _; split; reflexivity.
Qed.

Lemma scan_once_number (fuel : nat) (c : ascii) (r : string) :
  (Chr.isdigit c || (Chr.code c =? 45)%N) = true ->
  scan_once (S fuel) (String c r) = scan_number (String c r).
Proof. each_char c; intros H; (discriminate H || reflexivity). Qed.

Lemma scan_once_int (fuel : nat) (z : Z) (rest : string) :
  value_end rest = true ->
  scan_once (S fuel) (encode_int z +:+ rest) = Scanned (VInt z) rest.
Proof.
  intros Hrest.
  destruct (encode_int_head z) as (c & r & E & Hc).
  pose proof (match_integer_encode z rest (value_end_no_digit _ Hrest)) as Hm.
  rewrite E in Hm |- *. rewrite append_cons in Hm |- *.
  rewrite scan_once_number by assumption.
  unfold scan_number. rewrite Hm, (value_end_no_float _ Hrest), <- E.
  now rewrite int_of_literal_encode.
Qed.

(** *** Dicts *)

Lemma existsb_eqb_elem (k : string) (l : list string) :
  existsb (String.eqb k) l = true <-> k ∈ l.
Proof.
  rewrite existsb_exists, list_elem_of_In. split.
  - intros (x & Hin & Heq). apply String.eqb_eq in Heq. now subst.
  - intros Hin. exists k. split; [assumption | apply String.eqb_refl].
Qed.

Lemma distinct_NoDup (l : list string) : distinct l = true <-> NoDup l.
Proof.
  induction l as [|k l IH]; cbn [distinct].
  - split; [constructor | reflexivity].
  - rewrite andb_true_iff, negb_true_iff, NoDup_cons, IH, <- existsb_eqb_elem.
    now rewrite not_true_iff_false.
Qed.

Lemma set_fresh (k : string) (v : pyval) (d : Dict.t) :
  k ∉ Dict.keys d -> Dict.set k v d = d ++ [(k, v)].
Proof.
  induction d as [|[k' v'] d IH]; intros Hk; cbn [Dict.set app]; [reflexivity|].
  cbn in Hk. apply not_elem_of_cons in Hk as [Hne Hk].
  apply String.eqb_neq in Hne. rewrite Hne, IH by assumption. reflexivity.
Qed.

Lemma fold_set_distinct (d acc : Dict.t) :
  NoDup (Dict.keys (acc ++ d)) ->
  fold_left (fun d kv => Dict.set (fst kv) (snd kv) d) d acc = acc ++ d.
Proof.
  revert acc. induction d as [|[k v] d IH]; intros acc Hnd; cbn [fold_left].
  - now rewrite app_nil_r.
  - cbn [fst snd]. rewrite set_fresh.
    + rewrite IH; rewrite <- app_assoc; [reflexivity | assumption].
    + unfold Dict.keys in Hnd. rewrite map_app in Hnd. cbn in Hnd.
      apply NoDup_app in Hnd as (_ & Hdisj & _).
      intros Hin. apply (Hdisj k Hin). left.
Qed.

Lemma of_pairs_distinct (d : Dict.t) :
  distinct (Dict.keys d) = true -> Dict.of_pairs d = d.
Proof. intros H. apply distinct_NoDup in H. now apply (fold_set_distinct d []). Qed.

(** *** Values *)

Lemma pyval_ind' (P : pyval -> Prop) :
  P VNone -> (forall b, P (VBool b)) -> (forall z, P (VInt z)) ->
  (forall s, P (VStr s)) ->
  (forall l, Forall P l -> P (VList l)) ->
  (forall d, Forall (fun kx => P (snd kx)) d -> P (VDict d)) ->
  forall v, P v.
Proof.
  intros HNone HBool HInt HStr HList HDict.
  fix IH 1. intros [|b|z|s|l|d].
  - exact HNone.
  - apply HBool.
  - apply HInt.
  - apply HStr.
  - apply HList. induction l as [|x l IHl]; constructor; [apply IH | exact IHl].
  - apply HDict. induction d as [|[k x] d IHd]; constructor; [apply IH | exact IHd].
Qed.

Lemma encode_head (level : nat) (v : pyval) :
  exists c r, encode level v = String c r /\ value_start c = true.
Proof.
  destruct v as [|[|]|z|s|[|x l]|[|kx d]];
    try (eexists _, _; split; reflexivity).
  destruct (encode_int_head z) as (c & r & E & Hc). exists c, r. split; [exact E|].
  by_char c Hc.
Qed.

Lemma skip_ws_value_start (c : ascii) (r : string) :
  value_start c = true -> skip_ws (String c r) = String c r.
Proof. each_char c; intros H; (discriminate H || reflexivity). Qed.

Lemma skip_ws_encode (level : nat) (v : pyval) (rest : string) :
  skip_ws (encode level v +:+ rest) = encode level v +:+ rest.
Proof.
  destruct (encode_head level v) as (c & r & -> & Hc).
  rewrite append_cons. now apply skip_ws_value_start.
Qed.

Lemma list_sum_cons (a : nat) (l : list nat) : list_sum (a :: l) = (a + list_sum l)%nat.
Proof. reflexivity. Qed.

Lemma list_sum_nil : list_sum [] = 0%nat.
Proof. reflexivity. Qed.

Lemma scan_items_S fuel s acc :
  scan_items (S fuel) s acc =
  match scan_once fuel s with
  | Scanned v r =>
      match skip_ws r with
      | String c r1 =>
          if (Chr.code c =? 93)%N then Scanned (VList (acc ++ [v])) r1
          else if (Chr.code c =? 44)%N then scan_items fuel (skip_ws r1) (acc ++ [v])
          else Malformed
      | EmptyString => Malformed
      end
  | Malformed => Malformed
  | Outside => Outside
  end.
Proof. reflexivity. Qed.

Lemma scan_items_encode (level : nat) (rest : string) (xs : list pyval) :
  value_end rest = true ->
  Forall roundtrips xs ->
  forall (x : pyval) (acc : list pyval) (fuel : nat),
    roundtrips x ->
    (S (need x) + list_sum (map (fun y => S (need y)) xs) <= fuel)%nat ->
    scan_items fuel
      (encode (S level) x +:+
       encode_rest (encode (S level)) (newline_indent (S level))
                   (newline_indent level +:+ "]") xs +:+ rest) acc
    = Scanned (VList (acc ++ x :: xs)) rest.
Proof.
  intros Hrest Hxs. induction Hxs as [|y ys Hy Hys IH]; intros x acc fuel Hx Hfuel;
    cbn [map] in Hfuel; rewrite ?list_sum_cons, ?list_sum_nil in Hfuel.
  - destruct fuel as [|fuel]; [lia|].
    rewrite scan_items_S. cbn [encode_rest].
    rewrite Hx; [| reflexivity | lia].
    rewrite append_assoc, skip_ws_newline_indent. reflexivity.
  - destruct fuel as [|fuel]; [lia|].
    rewrite scan_items_S. cbn [encode_rest].
    rewrite Hx; [| reflexivity | lia].
    rewrite !append_assoc.
    change ("," +:+ ?t) with (String "," t).
    change (skip_ws (String "," ?t)) with (String "," t).
    cbv iota beta.
    change (Chr.code "," =? 93)%N with false.
    change (Chr.code "," =? 44)%N with true. cbv iota.
    rewrite skip_ws_newline_indent, skip_ws_encode.
    rewrite <- !append_assoc. rewrite (append_assoc (encode (S level) y)).
    rewrite IH; [| exact Hy | lia].
    now rewrite <- app_assoc.
Qed.

Lemma scan_members_S fuel s acc :
  scan_members (S fuel) s acc =
  match scanstring s with
  | Scanned k r =>
      match skip_ws r with
      | String c r1 =>
          if (Chr.code c =? 58)%N then
            match scan_once fuel (skip_ws r1) with
            | Scanned v r2 =>
                match skip_ws r2 with
                | String c2 r3 =>
                    if (Chr.code c2 =? 125)%N
                    then Scanned (VDict (Dict.of_pairs (acc ++ [(k, v)]))) r3
                    else if (Chr.code c2 =? 44)%N then
                      match skip_ws r3 with
                      | String q r4 =>
                          if (Chr.code q =? 34)%N
                          then scan_members fuel r4 (acc ++ [(k, v)])
                          else Malformed
                      | EmptyString => Malformed
                      end
                    else Malformed
                | EmptyString => Malformed
                end
            | Malformed => Malformed
            | Outside => Outside
            end
          else Malformed
      | EmptyString => Malformed
      end
  | Malformed => Malformed
  | Outside => Outside
  end.
Proof. reflexivity. Qed.

Lemma scan_members_encode (level : nat) (rest : string) (kxs : list (string * pyval)) :
  value_end rest = true ->
  Forall (fun kx => roundtrips (snd kx)) kxs ->
  forall (k : string) (x : pyval) (acc : list (string * pyval)) (fuel : nat),
    roundtrips x ->
    (S (need x) + list_sum (map (fun ky => S (need (snd ky))) kxs) <= fuel)%nat ->
    scan_members fuel
      (escape k +:+ String Chr.dquote
         (": " +:+ encode (S level) x +:+
          encode_rest (encode_member (encode (S level))) (newline_indent (S level))
                      (newline_indent level +:+ "}") kxs +:+ rest)) acc
    = Scanned (VDict (Dict.of_pairs (acc ++ (k, x) :: kxs))) rest.
Proof.
  intros Hrest Hxs.
  induction Hxs as [|[k' y] kys Hy Hys IH]; intros k x acc fuel Hx Hfuel;
    cbn [map snd] in Hfuel; rewrite ?list_sum_cons, ?list_sum_nil in Hfuel;
    (destruct fuel as [|fuel]; [lia|]);
    rewrite scan_members_S, scanstring_escape;
    change (": " +:+ ?t) with (String ":" (String " " t));
    change (skip_ws (String ":" ?t)) with (String ":" t); cbv iota beta;
    change (Chr.code ":" =? 58)%N with true; cbv iota;
    change (skip_ws (String " " ?t)) with (skip_ws t);
    rewrite skip_ws_encode; cbn [encode_rest].
  - rewrite Hx; [| reflexivity | lia].
    rewrite append_assoc, skip_ws_newline_indent. reflexivity.
  - rewrite Hx; [| reflexivity | lia].
    rewrite !append_assoc.
    change ("," +:+ ?t) with (String "," t).
    change (skip_ws (String "," ?t)) with (String "," t).
    cbv iota beta.
    change (Chr.code "," =? 125)%N with false.
    change (Chr.code "," =? 44)%N with true. cbv iota.
    rewrite skip_ws_newline_indent.
    unfold encode_member at 1. cbn [fst snd].
    rewrite !append_assoc, encode_str_cons.
    change (skip_ws (String Chr.dquote ?t)) with (String Chr.dquote t).
    cbv iota beta.
    change (Chr.code Chr.dquote =? 34)%N with true. cbv iota.
    rewrite <- !append_assoc.
    rewrite (append_assoc (": ")), (append_assoc (": ")).
    rewrite (append_assoc (encode (S level) y)).
    rewrite IH; [| exact Hy | lia].
    now rewrite <- app_assoc.
Qed.

Lemma wf_list (l : list pyval) : wf (VList l) = true -> Forall (fun x => wf x = true) l.
Proof. cbn [wf]. rewrite forallb_forall. intros H. apply List.Forall_forall, H. Qed.

Lemma wf_dict (d : list (string * pyval)) :
  wf (VDict d) = true ->
  distinct (Dict.keys d) = true /\ Forall (fun kx => wf (snd kx) = true) d.
Proof.
  cbn [wf]. rewrite andb_true_iff, forallb_forall. intros [Hk H]. split; [exact Hk|].
  apply List.Forall_forall, H.
Qed.

Lemma encode_head_append (level : nat) (v : pyval) (t : string) :
  exists c r, encode level v +:+ t = String c r /\ value_start c = true.
Proof.
  destruct (encode_head level v) as (c & r & E & Hc).
  exists c, (r +:+ t). split; [now rewrite E, append_cons | exact Hc].
Qed.

Lemma scan_once_list fuel t :
  scan_once (S fuel) (String "[" t) =
  match skip_ws t with
  | String c1 r1 =>
      if (Chr.code c1 =? 93)%N then Scanned (VList []) r1
      else scan_items fuel (String c1 r1) []
  | EmptyString => Malformed
  end.
Proof. reflexivity. Qed.

Lemma scan_once_dict fuel t :
  scan_once (S fuel) (String "{" t) =
  match skip_ws t with
  | String c1 r1 =>
      if (Chr.code c1 =? 125)%N then Scanned (VDict []) r1
      else if (Chr.code c1 =? 34)%N then scan_members fuel r1 []
      else Malformed
  | EmptyString => Malformed
  end.
Proof. reflexivity. Qed.

(** Scanning the encoding of a well-formed value gives the value back,
    and the text after it. *)
Lemma scan_once_encode (v : pyval) : wf v = true -> roundtrips v.
Proof.
  induction v as [|b|z|s|l IHl|d IHd] using pyval_ind';
    intros Hwf level fuel rest Hrest Hfuel;
    (destruct fuel as [|fuel]; [cbn in Hfuel; lia|]).
  - reflexivity.
  - destruct b; reflexivity.
  - now apply scan_once_int.
  - cbn [encode]. rewrite encode_str_cons.
    change (scan_once (S fuel) (String Chr.dquote ?t)) with (scan_map VStr (scanstring t)).
    now rewrite scanstring_escape.
  - destruct l as [|x xs]; [reflexivity|].
    apply wf_list in Hwf. inversion Hwf as [|? ? Hwx Hwxs]; subst.
    inversion IHl as [|? ? Hx Hxs]; subst.
    cbn [need map] in Hfuel. rewrite list_sum_cons in Hfuel.
    cbn [encode encode_seq]. rewrite !append_assoc.
    change ("[" +:+ ?t) with (String "[" t).
    rewrite scan_once_list, skip_ws_newline_indent, skip_ws_encode.
    match goal with |- context [encode ?lv x +:+ ?t] =>
      destruct (encode_head_append lv x t) as (c & r & E & Hc) end.
    assert (H93 : (Chr.code c =? 93)%N = false)
      by (by_char c Hc).
    rewrite E, H93, <- E.
    apply (scan_items_encode level rest xs Hrest).
    + clear -Hxs Hwxs. induction Hxs; inversion Hwxs; subst; constructor; auto.
    + auto.
    + lia.
  - destruct d as [|[k x] kxs]; [reflexivity|].
    apply wf_dict in Hwf as [Hkeys Hwf]. inversion Hwf as [|? ? Hwx Hwxs]; subst.
    inversion IHd as [|? ? Hx Hxs]; subst. cbn [snd] in *.
    cbn [need map snd] in Hfuel. rewrite list_sum_cons in Hfuel.
    cbn [encode encode_seq]. rewrite !append_assoc.
    change ("{" +:+ ?t) with (String "{" t).
    rewrite scan_once_dict, skip_ws_newline_indent.
    unfold encode_member at 1. cbn [fst snd].
    rewrite !append_assoc, encode_str_cons.
    change (skip_ws (String Chr.dquote ?t)) with (String Chr.dquote t).
    cbv iota beta.
    change (Chr.code Chr.dquote =? 125)%N with false.
    change (Chr.code Chr.dquote =? 34)%N with true. cbv iota.
    rewrite <- (of_pairs_distinct ((k, x) :: kxs) Hkeys) at 1.
    rewrite <- !append_assoc.
    rewrite (append_assoc (": ")), (append_assoc (": ")).
    rewrite (append_assoc (encode (S level) x)).
    apply (scan_members_encode level rest kxs Hrest).
    + clear -Hxs Hwxs. induction Hxs; inversion Hwxs; subst; constructor; auto.
    + auto.
    + lia.
Qed.

Lemma length_encode_rest {A} (enc : A -> string) (m : A -> nat) (sep close : string)
      (xs : list A) :
  Forall (fun x => (m x <= String.length (enc x))%nat) xs ->
  (list_sum (map (fun x => S (m x)) xs)
   <= String.length (encode_rest enc sep close xs))%nat.
Proof.
  induction 1 as [|x xs Hx Hxs IH]; cbn [map encode_rest].
  - rewrite list_sum_nil. lia.
  - rewrite list_sum_cons, !length_append. cbn [String.length]. lia.
Qed.

Lemma length_encode_seq {A} (enc : A -> string) (m : A -> nat) (level : nat)
      (close opening empty : string) (xs : list A) :
  (1 <= String.length empty)%nat ->
  (1 <= String.length opening)%nat ->
  Forall (fun x => (m x <= String.length (enc x))%nat) xs ->
  (S (list_sum (map (fun x => S (m x)) xs))
   <= String.length (encode_seq enc (newline_indent level) close opening empty xs))%nat.
Proof.
  intros Hempty Hopen Hxs. destruct xs as [|x xs]; cbn [encode_seq map].
  - rewrite list_sum_nil. lia.
  - inversion Hxs as [|? ? Hx Hxs']; subst.
    pose proof (length_encode_rest enc m (newline_indent level) close xs Hxs').
    rewrite list_sum_cons, !length_append.
    unfold newline_indent at 1. cbn [String.length]. lia.
Qed.

Lemma need_le_length (v : pyval) :
  forall level, (need v <= String.length (encode level v))%nat.
Proof.
  induction v as [|b|z|s|l IHl|d IHd] using pyval_ind'; intros level.
  - cbn. lia.
  - destruct b; cbn; lia.
  - cbn [need encode]. destruct (encode_int_head z) as (c & r & -> & _).
    cbn [String.length]. lia.
  - cbn [need encode]. unfold encode_str. cbn [String.length]. lia.
  - cbn [need encode]. apply length_encode_seq; [cbn; lia | cbn; lia |].
    eapply Forall_impl; [exact IHl|]. intros x Hx. apply Hx.
  - cbn [need encode].
    apply (length_encode_seq _ (fun kx => need (snd kx))); [cbn; lia | cbn; lia |].
    eapply Forall_impl; [exact IHd|]. intros [k x] Hx. cbn [snd] in *.
    unfold encode_member. cbn [fst snd]. rewrite !length_append.
    specialize (Hx (S level)). lia.
Qed.

(** Decoding what was encoded: every well-formed value comes back. *)
Lemma loads_dumps (v : pyval) : wf v = true -> loads (dumps v) = Ret v.
Proof.
  intros Hwf. unfold loads, dumps.
  rewrite <- (append_nil_r (encode 0%nat v)) at 2.
  rewrite skip_ws_encode.
  rewrite (scan_once_encode v Hwf 0%nat); [reflexivity | reflexivity |].
  pose proof (need_le_length v 0%nat). lia.
Qed.

(** *** What the decoder returns is well formed *)

Lemma keys_set (k : string) (v : pyval) (d : Dict.t) :
  NoDup (Dict.keys d) -> NoDup (Dict.keys (Dict.set k v d))
  /\ (forall k', k' ∈ Dict.keys (Dict.set k v d) -> k' = k \/ k' ∈ Dict.keys d).
Proof.
  induction d as [|[k1 v1] d IH]; intros Hnd; cbn [Dict.set].
  - split.
    + cbn. apply NoDup_singleton.
    + cbn. intros k' Hk'. apply list_elem_of_singleton in Hk'. now left.
  - cbn in Hnd. apply NoDup_cons in Hnd as [Hk1 Hnd].
    destruct (String.eqb_spec k k1) as [->|Hne].
    + split.
      * cbn. apply NoDup_cons. split; assumption.
      * cbn. intros k' Hk'. now right.
    + destruct (IH Hnd) as [IH1 IH2]. split.
      * cbn. apply NoDup_cons. split; [|assumption].
        intros Hin. apply IH2 in Hin as [->|Hin]; [now apply Hne | now apply Hk1].
      * cbn. intros k' Hk'. apply elem_of_cons in Hk' as [->|Hk'].
        -- right. left.
        -- apply IH2 in Hk' as [->|Hk']; [now left | right; now right].
Qed.

Lemma wf_values_set (k : string) (v : pyval) (d : Dict.t) :
  wf v = true -> forallb (fun kx => wf (snd kx)) d = true ->
  forallb (fun kx => wf (snd kx)) (Dict.set k v d) = true.
Proof.
  intros Hv. induction d as [|[k1 v1] d IH]; cbn [Dict.set forallb snd].
  - now rewrite Hv.
  - rewrite andb_true_iff. intros [H1 Hd].
    destruct (String.eqb k k1); cbn [forallb snd].
    + now rewrite Hv, Hd.
    + now rewrite H1, IH.
Qed.

Lemma wf_of_pairs (pairs : list (string * pyval)) :
  forallb (fun kx => wf (snd kx)) pairs = true -> wf (VDict (Dict.of_pairs pairs)) = true.
Proof.
  unfold Dict.of_pairs.
  assert (Hgen : forall acc,
    NoDup (Dict.keys acc) -> forallb (fun kx => wf (snd kx)) acc = true ->
    forallb (fun kx => wf (snd kx)) pairs = true ->
    wf (VDict (fold_left (fun d kv => Dict.set (fst kv) (snd kv) d) pairs acc)) = true).
  { induction pairs as [|[k v] pairs IH]; intros acc Hnd Hacc Hp; cbn [fold_left].
    - cbn [wf]. rewrite Hacc, andb_true_r. now apply distinct_NoDup.
    - cbn [forallb snd] in Hp. apply andb_true_iff in Hp as [Hv Hp].
      apply IH; [now apply keys_set | now apply wf_values_set | assumption]. }
  intros Hp. apply Hgen; [constructor | reflexivity | assumption].
Qed.

Lemma forallb_snoc {A} (p : A -> bool) (l : list A) (x : A) :
  forallb p l = true -> p x = true -> forallb p (l ++ [x]) = true.
Proof. intros Hl Hx. rewrite forallb_app, Hl. cbn. now rewrite Hx. Qed.

Lemma scan_constant_wf (s : string) (v : pyval) (r : string) :
  scan_constant s = Scanned v r -> wf v = true.
Proof.
  unfold scan_constant, scan_number. intros H.
  repeat split_match H; injection H as <- <-; reflexivity.
Qed.

Lemma scan_wf (fuel : nat) :
  (forall s v r, scan_once fuel s = Scanned v r -> wf v = true)
  /\ (forall s acc v r, forallb wf acc = true ->
        scan_items fuel s acc = Scanned v r -> wf v = true)
  /\ (forall s acc v r, forallb (fun kx => wf (snd kx)) acc = true ->
        scan_members fuel s acc = Scanned v r -> wf v = true).
Proof.
  induction fuel as [|fuel (IHonce & IHitems & IHmembers)].
  - repeat split; intros; discriminate.
  - split; [|split].
    + intros s v r H. destruct s as [|c t]; [discriminate|].
      cbn [scan_once] in H.
      destruct (Chr.code c =? 34)%N.
      { destruct (scanstring t); try discriminate. injection H as <- <-. reflexivity. }
      destruct (Chr.code c =? 123)%N.
      { destruct (skip_ws t) as [|c1 r1]; [discriminate|].
        destruct (Chr.code c1 =? 125)%N; [injection H as <- <-; reflexivity|].
        destruct (Chr.code c1 =? 34)%N; [|discriminate].
        eapply IHmembers; [|exact H]. reflexivity. }
      destruct (Chr.code c =? 91)%N.
      { destruct (skip_ws t) as [|c1 r1]; [discriminate|].
        destruct (Chr.code c1 =? 93)%N; [injection H as <- <-; reflexivity|].
        eapply IHitems; [|exact H]. reflexivity. }
      eapply scan_constant_wf, H.
    + intros s acc v r Hacc H. rewrite scan_items_S in H.
      destruct (scan_once fuel s) as [x r0| |] eqn:Hx; try discriminate.
      apply IHonce in Hx.
      destruct (skip_ws r0) as [|c r1]; [discriminate|].
      destruct (Chr.code c =? 93)%N.
      { injection H as <- <-. cbn [wf]. now apply forallb_snoc. }
      destruct (Chr.code c =? 44)%N; [|discriminate].
      eapply IHitems; [|exact H]. now apply forallb_snoc.
    + intros s acc v r Hacc H. rewrite scan_members_S in H.
      destruct (scanstring s) as [k r0| |]; try discriminate.
      destruct (skip_ws r0) as [|c r1]; [discriminate|].
      destruct (Chr.code c =? 58)%N; [|discriminate].
      destruct (scan_once fuel (skip_ws r1)) as [x r2| |] eqn:Hx; try discriminate.
      apply IHonce in Hx.
      destruct (skip_ws r2) as [|c2 r3]; [discriminate|].
      destruct (Chr.code c2 =? 125)%N.
      { injection H as <- <-. apply wf_of_pairs. now apply forallb_snoc. }
      destruct (Chr.code c2 =? 44)%N; [|discriminate].
      destruct (skip_ws r3) as [|q r4]; [discriminate|].
      destruct (Chr.code q =? 34)%N; [|discriminate].
      eapply IHmembers; [|exact H]. now apply forallb_snoc.
Qed.

Lemma loads_wf (s : string) (v : pyval) : loads s = Ret v -> wf v = true.
Proof.
  unfold loads. intros H.
  destruct (scan_once _ _) as [x r| |] eqn:Hx; try discriminate.
  destruct (skip_ws r); try discriminate. injection H as <-.
  eapply (proj1 (scan_wf _)), Hx.
Qed.

(** What was decoded once is decoded again from its encoding. *)
Lemma loads_stable (s : string) (v : pyval) :
  loads s = Ret v -> loads (dumps v) = Ret v.
Proof. intros H. apply loads_dumps. eapply loads_wf, H. Qed.


(** *** The fuel of [loads] is enough *)

Lemma length_skip_ws (s : string) : (String.length (skip_ws s) <= String.length s)%nat.
Proof.
  induction s as [|c s IH]; [reflexivity|]. cbn [skip_ws].
  destruct (is_ws c); cbn [String.length]; lia.
Qed.

Lemma skip_ws_cons (s : string) (c : ascii) (r : string) :
  skip_ws s = String c r -> (S (String.length r) <= String.length s)%nat.
Proof.
  intros H. pose proof (length_skip_ws s) as Hl. rewrite H in Hl. exact Hl.
Qed.

Lemma scan_map_shorter {A B} (f : A -> B) (n : nat) (x : scan A) :
  (forall a r, x = Scanned a r -> (String.length r <= n)%nat) ->
  forall b r, scan_map f x = Scanned b r -> (String.length r <= n)%nat.
Proof. destruct x; cbn; intros H b r' [= <- <-] || discriminate. now eapply H. Qed.

Lemma scanstring_shorter_upto (n : nat) :
  forall s k r, (String.length s <= n)%nat -> scanstring s = Scanned k r ->
                (String.length r < String.length s)%nat.
Proof.
  induction n as [|n IH]; intros s k r Hle H;
    (destruct s as [|c t]; [discriminate|]); cbn [String.length] in Hle; [lia|].
  cbn [scanstring] in H. cbn [String.length].
  destruct (Chr.code c =? 34)%N; [injection H as <- <-; lia|].
  destruct (Chr.code c =? 92)%N.
  - destruct t as [|e t1]; [discriminate|].
    destruct (Chr.code e =? 117)%N.
    + destruct t1 as [|h1 [|h2 [|h3 [|h4 t2]]]]; try discriminate.
      destruct (hexval h1), (hexval h2), (hexval h3), (hexval h4); try discriminate.
      match type of H with (if ?b then _ else _) = _ => destruct b; [|discriminate] end.
      destruct (scanstring t2) as [k' r'| |] eqn:E; try discriminate.
      injection H as <- <-. cbn [String.length] in *. apply IH in E; lia.
    + destruct (unescape e); [|discriminate].
      destruct (scanstring t1) as [k' r'| |] eqn:E; try discriminate.
      injection H as <- <-. cbn [String.length] in *. apply IH in E; lia.
  - destruct (Chr.code c <? 32)%N; [discriminate|].
    destruct (scanstring t) as [k' r'| |] eqn:E; try discriminate.
    injection H as <- <-. apply IH in E; lia.
Qed.

Lemma scanstring_shorter (s k r : string) :
  scanstring s = Scanned k r -> (String.length r < String.length s)%nat.
Proof. apply (scanstring_shorter_upto (String.length s)). reflexivity. Qed.

Lemma span_digits_length (s ds r : string) :
  span_digits s = (ds, r) -> (String.length r <= String.length s)%nat.
Proof.
  revert ds r. induction s as [|c s IH]; intros ds r; cbn [span_digits].
  - intros [= <- <-]. reflexivity.
  - destruct (Chr.isdigit c).
    + destruct (span_digits s) as [ds' r'] eqn:E. intros [= <- <-].
      specialize (IH _ _ eq_refl). cbn [String.length]. lia.
    + intros [= <- <-]. reflexivity.
Qed.

Lemma strip_prefix_length (p s r : string) :
  strip_prefix p s = Some r ->
  (String.length r + String.length p = String.length s)%nat.
Proof.
  revert s. induction p as [|a p IH]; intros s; cbn [strip_prefix].
  - intros [= <-]. cbn. lia.
  - destruct s as [|b s]; [discriminate|].
    destruct (Ascii.eqb a b); [|discriminate].
    intros H. apply IH in H. cbn [String.length]. lia.
Qed.

Lemma match_integer_shorter (s lit r : string) :
  match_integer s = Some (lit, r) -> (String.length r < String.length s)%nat.
Proof.
  unfold match_integer. intros H.
  assert (Hun : forall t lit' r',
    match t with
    | String c r0 =>
        if (Chr.code c =? 48)%N then Some ("0", r0)
        else if Chr.between 49 57 c
             then let (ds, rest) := span_digits r0 in Some (String c ds, rest)
             else None
    | EmptyString => None
    end = Some (lit', r') -> (String.length r' < String.length t)%nat).
  { intros t lit' r' Ht. destruct t as [|c r0]; [discriminate|].
    cbn [String.length].
    destruct (Chr.code c =? 48)%N; [injection Ht as <- <-; lia|].
    destruct (Chr.between 49 57 c); [|discriminate].
    destruct (span_digits r0) as [ds rest] eqn:E. injection Ht as <- <-.
    apply span_digits_length in E. lia. }
  destruct s as [|c t]; [discriminate|].
  destruct (Chr.code c =? 45)%N.
  - match type of H with match ?x with _ => _ end = _ => destruct x as [[l r0]|] eqn:E end;
      [|discriminate].
    injection H as <- <-. apply Hun in E. cbn [String.length]. lia.
  - now apply (Hun (String c t)) in H.
Qed.

Lemma scan_constant_shorter (s : string) (v : pyval) (r : string) :
  scan_constant s = Scanned v r -> (String.length r < String.length s)%nat.
Proof.
  unfold scan_constant, scan_number. intros H.
  destruct (strip_prefix "null" s) eqn:E1;
    [injection H as <- <-; apply strip_prefix_length in E1; cbn in E1; lia|].
  destruct (strip_prefix "true" s) eqn:E2;
    [injection H as <- <-; apply strip_prefix_length in E2; cbn in E2; lia|].
  destruct (strip_prefix "false" s) eqn:E3;
    [injection H as <- <-; apply strip_prefix_length in E3; cbn in E3; lia|].
  destruct (match_integer s) as [[lit r0]|] eqn:E4.
  - destruct (float_tail r0); [discriminate|]. injection H as <- <-.
    now apply match_integer_shorter in E4.
  - repeat split_match H.
Qed.

(** Scanning takes at least one character. *)
Lemma scan_shorter (fuel : nat) :
  (forall s v r, scan_once fuel s = Scanned v r ->
                 (String.length r < String.length s)%nat)
  /\ (forall s acc v r, scan_items fuel s acc = Scanned v r ->
                        (String.length r < String.length s)%nat)
  /\ (forall s acc v r, scan_members fuel s acc = Scanned v r ->
                        (String.length r < String.length s)%nat).
Proof.
  induction fuel as [|fuel (IHonce & IHitems & IHmembers)].
  - repeat split; intros; discriminate.
  - split; [|split].
    + intros s v r H. destruct s as [|c t]; [discriminate|].
      cbn [scan_once] in H. cbn [String.length].
      destruct (Chr.code c =? 34)%N.
      { destruct (scanstring t) as [k r0| |] eqn:E; try discriminate.
        injection H as <- <-. apply scanstring_shorter in E. lia. }
      destruct (Chr.code c =? 123)%N.
      { destruct (skip_ws t) as [|c1 r1] eqn:E; [discriminate|].
        apply skip_ws_cons in E.
        destruct (Chr.code c1 =? 125)%N; [injection H as <- <-; lia|].
        destruct (Chr.code c1 =? 34)%N; [|discriminate].
        apply IHmembers in H. lia. }
      destruct (Chr.code c =? 91)%N.
      { destruct (skip_ws t) as [|c1 r1] eqn:E; [discriminate|].
        apply skip_ws_cons in E.
        destruct (Chr.code c1 =? 93)%N; [injection H as <- <-; lia|].
        apply IHitems in H. cbn [String.length] in H. lia. }
      apply scan_constant_shorter in H. cbn [String.length] in H. lia.
    + intros s acc v r H. rewrite scan_items_S in H.
      destruct (scan_once fuel s) as [x r0| |] eqn:Hx; try discriminate.
      apply IHonce in Hx.
      destruct (skip_ws r0) as [|c r1] eqn:E; [discriminate|].
      apply skip_ws_cons in E.
      destruct (Chr.code c =? 93)%N; [injection H as <- <-; lia|].
      destruct (Chr.code c =? 44)%N; [|discriminate].
      apply IHitems in H. pose proof (length_skip_ws r1). lia.
    + intros s acc v r H. rewrite scan_members_S in H.
      destruct (scanstring s) as [k r0| |] eqn:Ek; try discriminate.
      apply scanstring_shorter in Ek.
      destruct (skip_ws r0) as [|c r1] eqn:E; [discriminate|].
      apply skip_ws_cons in E.
      destruct (Chr.code c =? 58)%N; [|discriminate].
      destruct (scan_once fuel (skip_ws r1)) as [x r2| |] eqn:Hx; try discriminate.
      apply IHonce in Hx. pose proof (length_skip_ws r1).
      destruct (skip_ws r2) as [|c2 r3] eqn:E2; [discriminate|].
      apply skip_ws_cons in E2.
      destruct (Chr.code c2 =? 125)%N; [injection H as <- <-; lia|].
      destruct (Chr.code c2 =? 44)%N; [|discriminate].
      destruct (skip_ws r3) as [|q r4] eqn:E3; [discriminate|].
      apply skip_ws_cons in E3.
      destruct (Chr.code q =? 34)%N; [|discriminate].
      apply IHmembers in H. lia.
Qed.

(** With fuel for twice the length of the text, one more makes no
    difference. *)
Lemma scan_fuel_step (fuel : nat) :
  (forall s, (2 * String.length s + 1 <= fuel)%nat ->
             scan_once (S fuel) s = scan_once fuel s)
  /\ (forall s acc, (2 * String.length s + 2 <= fuel)%nat ->
                    scan_items (S fuel) s acc = scan_items fuel s acc)
  /\ (forall s acc, (2 * String.length s + 2 <= fuel)%nat ->
                    scan_members (S fuel) s acc = scan_members fuel s acc).
Proof.
  induction fuel as [|fuel (IHonce & IHitems & IHmembers)].
  - repeat split; intros; lia.
  - split; [|split].
    + intros s Hf. destruct s as [|c t]; [reflexivity|].
      cbn [String.length] in Hf. cbn [scan_once].
      destruct (Chr.code c =? 34)%N; [reflexivity|].
      destruct (Chr.code c =? 123)%N.
      { destruct (skip_ws t) as [|c1 r1] eqn:E; [reflexivity|].
        apply skip_ws_cons in E.
        destruct (Chr.code c1 =? 125)%N; [reflexivity|].
        destruct (Chr.code c1 =? 34)%N; [|reflexivity].
        apply IHmembers. lia. }
      destruct (Chr.code c =? 91)%N; [|reflexivity].
      destruct (skip_ws t) as [|c1 r1] eqn:E; [reflexivity|].
      apply skip_ws_cons in E.
      destruct (Chr.code c1 =? 93)%N; [reflexivity|].
      apply IHitems. cbn [String.length]. lia.
    + intros s acc Hf. rewrite !scan_items_S.
      rewrite IHonce by lia.
      destruct (scan_once fuel s) as [x r0| |] eqn:Hx; try reflexivity.
      apply (proj1 (scan_shorter fuel)) in Hx.
      destruct (skip_ws r0) as [|c r1] eqn:E; [reflexivity|].
      apply skip_ws_cons in E.
      destruct (Chr.code c =? 93)%N; [reflexivity|].
      destruct (Chr.code c =? 44)%N; [|reflexivity].
      apply IHitems. pose proof (length_skip_ws r1). lia.
    + intros s acc Hf. rewrite !scan_members_S.
      destruct (scanstring s) as [k r0| |] eqn:Ek; try reflexivity.
      apply scanstring_shorter in Ek.
      destruct (skip_ws r0) as [|c r1] eqn:E; [reflexivity|].
      apply skip_ws_cons in E.
      destruct (Chr.code c =? 58)%N; [|reflexivity].
      pose proof (length_skip_ws r1).
      rewrite IHonce by lia.
      destruct (scan_once fuel (skip_ws r1)) as [x r2| |] eqn:Hx; try reflexivity.
      apply (proj1 (scan_shorter fuel)) in Hx.
      destruct (skip_ws r2) as [|c2 r3] eqn:E2; [reflexivity|].
      apply skip_ws_cons in E2.
      destruct (Chr.code c2 =? 125)%N; [reflexivity|].
      destruct (Chr.code c2 =? 44)%N; [|reflexivity].
      destruct (skip_ws r3) as [|q r4] eqn:E3; [reflexivity|].
      apply skip_ws_cons in E3.
      destruct (Chr.code q =? 34)%N; [|reflexivity].
      apply IHmembers. lia.
Qed.

(** [loads] does not depend on its fuel: any more of it gives the same. *)
Lemma scan_once_fuel (s : string) (extra : nat) :
  scan_once (2 * String.length s + 1 + extra) (skip_ws s)
  = scan_once (2 * String.length s + 1) (skip_ws s).
Proof.
  induction extra as [|extra IH].
  - now rewrite Nat.add_0_r.
  - rewrite Nat.add_succ_r. rewrite (proj1 (scan_fuel_step _)); [exact IH|].
    pose proof (length_skip_ws s). lia.
Qed.

End JsonFacts.

(** * The persistence adapter *)

Section Storage.
Import JsonFacts.

Lemma from_dict_to_dict (t : Task) : from_dict (to_dict t) = Ret t.
Proof. destruct t. reflexivity. Qed.

Lemma comprehension_to_dict (ts : list Task) :
  comprehension from_dict (map to_dict ts) = Ret ts.
Proof.
  induction ts as [|t ts IH]; [reflexivity|].
  cbn [map comprehension]. now rewrite from_dict_to_dict, IH.
Qed.

Lemma wf_to_dict (t : Task) : wf (to_dict t) = wf_task t.
Proof.
  unfold wf_task. destruct t as [n p d c s]. cbn.
  rewrite andb_true_r. now rewrite !andb_assoc.
Qed.

Lemma wf_data (ts : list Task) :
  forallb wf_task ts = true -> wf (VList (map to_dict ts)) = true.
Proof.
  intros H. cbn [wf]. rewrite forallb_forall in *.
  intros v Hv. apply in_map_iff in Hv as (t & <- & Ht).
  rewrite wf_to_dict. now apply H.
Qed.

Lemma load_saved (user : string) (ts : list Task) (disk : files) :
  forallb wf_task ts = true ->
  load_tasks user (save_tasks user ts disk) = Ret ts.
Proof.
  intros Hwf. unfold load_tasks, save_tasks.
  rewrite lookup_insert_eq.
  rewrite (loads_dumps _ (wf_data ts Hwf)).
  cbn [bind iterate]. rewrite comprehension_to_dict. reflexivity.
Qed.

(** Tasks whose five fields are texts, as the form and the specification
    have them, need no side condition. *)
Lemma load_saved_texts (user : string) (disk : files)
      (rows : list (string * string * string * string * string)) :
  let ts := map (fun '(n, p, d, c, s) =>
                   mkTask (VStr n) (VStr p) (VStr d) (VStr c) (VStr s)) rows in
  load_tasks user (save_tasks user ts disk) = Ret ts.
Proof.
  intros ts. apply load_saved. subst ts.
  induction rows as [|[[[[n p] d] c] s] rows IH]; [reflexivity | exact IH].
Qed.

End Storage.

(** C1.  Saving a sequence of tasks and loading it back gives the same
    sequence: the same tasks, field for field, in the same order; for a
    sequence of any length, the empty one included.  (The fields are any
    values whose dicts have pairwise different keys.) *)
Theorem save_then_load (user : string) (ts : list Task) (disk : files) :
  forallb wf_task ts = true ->
  load_tasks user (save_tasks user ts disk) = Ret ts.
Proof. apply load_saved. Qed.

Lemma save_then_load_witness :
  forallb wf_task two_tasks = true /\
  load_tasks "alice" (save_tasks "alice" two_tasks ∅) = Ret two_tasks.
Proof. split; [reflexivity | apply (save_then_load "alice" two_tasks ∅); reflexivity]. Defined.

(** * The task store *)

Local Open Scope nat_scope.

(** C2.  With a name that is not empty once trimmed and a due date that is
    empty or valid, whatever priority and category, [add] appends exactly
    one task, with status Pending, at the end of the sequence and leaves
    the tasks before it as they were; and a session started afterwards
    loads that sequence, its last task being the input with status
    Pending. *)
Theorem add_task_appends (form : Form) (self : ToDoApp) (disk : files)
        (name priority due_date category : string) :
  get_form_data form = (name, priority, due_date, category) ->
  Str.truthy name = true ->
  validate_date due_date = true ->
  forallb wf_task (tasks self) = true ->
  let task := mkTask (VStr name) (VStr priority) (VStr due_date) (VStr category)
                     (VStr "Pending") in
  exists (self' : ToDoApp) (disk' : files) (shown : option message),
    add_task form self disk = Ret (self', disk', shown)
    /\ tasks self' = tasks self ++ [task]
    /\ length (tasks self') = S (length (tasks self))
    /\ (forall i t, tasks self !! i = Some t -> tasks self' !! i = Some t)
    /\ tasks self' !! length (tasks self) = Some task
    /\ init (username self) disk' = Ret (mkApp (username self) (tasks self ++ [task]) None).
Proof.
  intros Hform Hname Hdate Hwf task.
  unfold add_task. rewrite Hform, Hname, Hdate. cbn [negb].
  eexists _, _, _. split; [reflexivity|]. cbn [tasks clear_form username].
  split; [reflexivity|]. split; [rewrite length_app; cbn; lia|].
  split; [intros i t Hi; now apply lookup_app_l_Some|].
  split; [rewrite lookup_app_r, Nat.sub_diag by lia; reflexivity|].
  unfold init. rewrite load_saved; [reflexivity|].
  rewrite forallb_app, Hwf. reflexivity.
Qed.

Lemma add_task_appends_witness :
  exists (self' : ToDoApp) (disk' : files) (shown : option message),
    add_task milk_form one_task ∅ = Ret (self', disk', shown)
    /\ tasks self' = tasks one_task ++
         [mkTask (VStr "Buy milk") (VStr "High") (VStr "2024-02-29") (VStr "Shopping")
                 (VStr "Pending")]
    /\ length (tasks self') = S (length (tasks one_task))
    /\ (forall i t, tasks one_task !! i = Some t -> tasks self' !! i = Some t)
    /\ tasks self' !! length (tasks one_task) =
         Some (mkTask (VStr "Buy milk") (VStr "High") (VStr "2024-02-29") (VStr "Shopping")
                      (VStr "Pending"))
    /\ init (username one_task) disk' =
         Ret (mkApp (username one_task)
                (tasks one_task ++
                 [mkTask (VStr "Buy milk") (VStr "High") (VStr "2024-02-29") (VStr "Shopping")
                         (VStr "Pending")]) None).
Proof.
  apply (add_task_appends milk_form one_task ∅ "Buy milk" "High" "2024-02-29" "Shopping");
    reflexivity.
Defined.

(** C4.  With a task selected at a valid position [i] and valid input,
    [update] puts the four fields of the form into the task at [i], keeps
    that task's status and its position, and leaves the task at every
    other position as it was. *)
Theorem update_task_frame (form : Form) (self : ToDoApp) (disk : files) (i : nat)
        (old : Task) (name priority due_date category : string) :
  selected_index self = Some i ->
  tasks self !! i = Some old ->
  get_form_data form = (name, priority, due_date, category) ->
  Str.truthy name = true ->
  validate_date due_date = true ->
  exists (self' : ToDoApp) (disk' : files) (shown : option message),
    update_task form self disk = Ret (self', disk', shown)
    /\ tasks self' !! i =
         Some (mkTask (VStr name) (VStr priority) (VStr due_date) (VStr category)
                      (status old))
    /\ length (tasks self') = length (tasks self)
    /\ (forall j, j <> i -> tasks self' !! j = tasks self !! j).
Proof.
  intros Hsel Hold Hform Hname Hdate.
  unfold update_task. rewrite Hsel, Hform, Hname, Hdate, Hold. cbn [negb].
  eexists _, _, _. split; [reflexivity|]. cbn [tasks].
  split; [apply list_lookup_insert_eq; eapply lookup_lt_Some; eassumption|].
  split; [apply length_insert|].
  intros j Hj. now apply list_lookup_insert_ne.
Qed.

Lemma update_task_frame_witness :
  exists (self' : ToDoApp) (disk' : files) (shown : option message),
    update_task milk_form middle_selected ∅ = Ret (self', disk', shown)
    /\ tasks self' !! 1 =
         Some (mkTask (VStr "Buy milk") (VStr "High") (VStr "2024-02-29") (VStr "Shopping")
                      (VStr "Pending"))
    /\ length (tasks self') = length three_tasks
    /\ (forall j, j <> 1 -> tasks self' !! j = three_tasks !! j)
    /\ tasks self' !! 0 =
         Some (mkTask (VStr "Call Bob") (VStr "Low") (VStr EmptyString) (VStr "Personal")
                      (VStr "Completed"))
    /\ tasks self' !! 2 =
         Some (mkTask (VStr "Buy bread") (VStr "Low") (VStr EmptyString) (VStr "Shopping")
                      (VStr "Pending")).
Proof.
  destruct (update_task_frame milk_form middle_selected ∅ 1
              (mkTask (VStr "Write report") (VStr "High") (VStr "2024-03-01") (VStr "Work")
                      (VStr "Pending"))
              "Buy milk" "High" "2024-02-29" "Shopping"
              eq_refl eq_refl eq_refl eq_refl eq_refl)
    as (self' & disk' & shown & Hret & Hnew & Hlen & Hframe).
  exists self', disk', shown.
  split; [exact Hret|]. split; [exact Hnew|]. split; [exact Hlen|].
  split; [exact Hframe|].
  split; [rewrite (Hframe 0) by lia|rewrite (Hframe 2) by lia]; reflexivity.
Defined.

(** C5.  With a task selected at a valid position [i] and the deletion
    confirmed, [delete] makes the sequence one shorter: the task that was
    at [i] is gone, the tasks before [i] stay where they were, each task
    after [i] moves one position down, and nothing is selected
    afterwards. *)
Theorem delete_task_removes (self : ToDoApp) (disk : files) (i : nat) (old : Task) :
  selected_index self = Some i ->
  tasks self !! i = Some old ->
  exists (self' : ToDoApp) (disk' : files),
    delete_task true self disk = Ret (self', disk', None)
    /\ S (length (tasks self')) = length (tasks self)
    /\ tasks self' = take i (tasks self) ++ drop (S i) (tasks self)
    /\ (forall j, j < i -> tasks self' !! j = tasks self !! j)
    /\ (forall j, i <= j -> tasks self' !! j = tasks self !! S j)
    /\ selected_index self' = None.
Proof.
  intros Hsel Hold. unfold delete_task. rewrite Hsel, Hold.
  eexists _, _. split; [reflexivity|]. cbn [tasks selected_index].
  split; [rewrite length_delete by (eexists; eassumption);
          apply lookup_lt_Some in Hold; lia|].
  split; [apply delete_take_drop|].
  split; [intros j Hj; now apply list_lookup_delete_lt|].
  split; [intros j Hj; now apply list_lookup_delete_ge|].
  reflexivity.
Qed.

Lemma delete_task_removes_witness :
  exists (self' : ToDoApp) (disk' : files),
    delete_task true middle_selected ∅ = Ret (self', disk', None)
    /\ S (length (tasks self')) = length three_tasks
    /\ tasks self' = take 1 three_tasks ++ drop 2 three_tasks
    /\ (forall j, j < 1 -> tasks self' !! j = three_tasks !! j)
    /\ (forall j, 1 <= j -> tasks self' !! j = three_tasks !! S j)
    /\ selected_index self' = None
    /\ tasks self' =
         [ mkTask (VStr "Call Bob") (VStr "Low") (VStr EmptyString) (VStr "Personal")
                  (VStr "Completed");
           mkTask (VStr "Buy bread") (VStr "Low") (VStr EmptyString) (VStr "Shopping")
                  (VStr "Pending") ]
    /\ tasks self' !! 0 = three_tasks !! 0
    /\ tasks self' !! 1 = three_tasks !! 2.
Proof.
  destruct (delete_task_removes middle_selected ∅ 1
              (mkTask (VStr "Write report") (VStr "High") (VStr "2024-03-01") (VStr "Work")
                      (VStr "Pending"))
              eq_refl eq_refl)
    as (self' & disk' & Hret & Hlen & Hlist & Hbefore & Hafter & Hsel).
  exists self', disk'.
  split; [exact Hret|]. split; [exact Hlen|]. split; [exact Hlist|].
  split; [exact Hbefore|]. split; [exact Hafter|]. split; [exact Hsel|].
  split; [rewrite Hlist; reflexivity|].
  split; [apply (Hbefore 0); lia|apply (Hafter 1); lia].
Defined.

(** C6.  A call that ends in an error or in the notice that the task is
    already completed changes nothing: the application, and with it the
    sequence of tasks, and the disk are what they were before the call. *)
Theorem refused_changes_nothing (a : action) (self : ToDoApp) (disk : files) :
  refused a self = true ->
  exists shown : message, handle a self disk = Ret (self, disk, Some shown).
Proof.
  destruct a as [sel|form|form|confirm| |]; cbn [refused handle]; try discriminate.
  - unfold input_rejected, add_task.
    destruct (get_form_data form) as [[[n p] d] c].
    destruct (Str.truthy n); cbn [negb orb]; [|eexists; reflexivity].
    intros ->. eexists; reflexivity.
  - unfold input_rejected, update_task.
    destruct (selected_index self) as [i|]; [|eexists; reflexivity].
    destruct (get_form_data form) as [[[n p] d] c].
    destruct (Str.truthy n); cbn [negb orb]; [|eexists; reflexivity].
    intros ->. eexists; reflexivity.
  - unfold delete_task.
    destruct (selected_index self) as [i|]; [discriminate|]. eexists; reflexivity.
  - unfold mark_completed.
    destruct (selected_index self) as [i|]; [|eexists; reflexivity].
    destruct (tasks self !! i) as [task|]; [|discriminate].
    intros ->. eexists; reflexivity.
Qed.

Lemma refused_changes_nothing_witness :
  (exists shown, handle (Add (mkForm "   " "Low" "2024-01-01" "Work")) one_task ∅
                 = Ret (one_task, ∅, Some shown))
  /\ (exists shown, handle (Update (mkForm "x" "Low" "2024-02-30" "Work")) one_task ∅
                    = Ret (one_task, ∅, Some shown))
  /\ (exists shown, handle (Delete true) (clear_form one_task) ∅
                    = Ret (clear_form one_task, ∅, Some shown))
  /\ (exists shown, handle MarkCompleted one_task ∅ = Ret (one_task, ∅, Some shown)).
Proof.
  split; [|split; [|split]].
  - apply (refused_changes_nothing (Add (mkForm "   " "Low" "2024-01-01" "Work"))).
    reflexivity.
  - apply (refused_changes_nothing (Update (mkForm "x" "Low" "2024-02-30" "Work"))).
    reflexivity.
  - apply (refused_changes_nothing (Delete true)). reflexivity.
  - apply (refused_changes_nothing MarkCompleted). reflexivity.
Defined.

(** A handler raises nothing as long as the selection is a position of the
    sequence, and leaves it one. *)
Lemma handle_returns (a : action) (self : ToDoApp) (disk : files) :
  selection_valid self = true ->
  (forall i, a = Select (Some i) -> i < length (tasks self)) ->
  exists (self' : ToDoApp) (disk' : files) (shown : option message),
    handle a self disk = Ret (self', disk', shown) /\ selection_valid self' = true.
Proof.
  unfold selection_valid. intros Hsel Ha.
  destruct a as [sel|form|form|confirm| |]; cbn [handle].
  - unfold on_task_select.
    destruct sel as [i|]; [|eexists _, _, _; split; [reflexivity | exact Hsel]].
    specialize (Ha i eq_refl). destruct (lookup_lt_is_Some_2 _ _ Ha) as [t ->].
    eexists _, _, _. split; [reflexivity|]. cbn. now apply bool_decide_eq_true_2.
  - unfold add_task. destruct (get_form_data form) as [[[n p] d] c].
    destruct (negb (Str.truthy n)); [eexists _, _, _; split; [reflexivity | exact Hsel]|].
    destruct (negb (validate_date d)); eexists _, _, _; (split; [reflexivity|]);
      [exact Hsel | reflexivity].
  - unfold update_task. destruct (selected_index self) as [i|] eqn:Ei;
      [|eexists _, _, _; split; [reflexivity | now rewrite ?Ei]].
    apply bool_decide_eq_true_1 in Hsel.
    destruct (get_form_data form) as [[[n p] d] c].
    destruct (negb (Str.truthy n));
      [eexists _, _, _; split;
         [reflexivity | rewrite ?Ei; now apply bool_decide_eq_true_2]|].
    destruct (negb (validate_date d));
      [eexists _, _, _; split;
         [reflexivity | rewrite ?Ei; now apply bool_decide_eq_true_2]|].
    destruct (lookup_lt_is_Some_2 _ _ Hsel) as [t ->].
    eexists _, _, _. split; [reflexivity|]. cbn [selected_index tasks]. rewrite ?Ei.
    apply bool_decide_eq_true_2. now rewrite length_insert.
  - unfold delete_task. destruct (selected_index self) as [i|] eqn:Ei;
      [|eexists _, _, _; split; [reflexivity | now rewrite ?Ei]].
    apply bool_decide_eq_true_1 in Hsel.
    destruct (lookup_lt_is_Some_2 _ _ Hsel) as [t ->].
    destruct confirm; eexists _, _, _; (split; [reflexivity|]); [reflexivity|].
    rewrite ?Ei. now apply bool_decide_eq_true_2.
  - unfold mark_completed. destruct (selected_index self) as [i|] eqn:Ei;
      [|eexists _, _, _; split; [reflexivity | now rewrite ?Ei]].
    apply bool_decide_eq_true_1 in Hsel.
    destruct (lookup_lt_is_Some_2 _ _ Hsel) as [t ->].
    destruct (is_completed t); eexists _, _, _; (split; [reflexivity|]).
    + rewrite ?Ei. now apply bool_decide_eq_true_2.
    + cbn [selected_index tasks]. rewrite ?Ei.
      apply bool_decide_eq_true_2. now rewrite length_insert.
  - eexists _, _, _. split; reflexivity.
Qed.

(** * Loading *)

Section Loading.



End Loading.




(** C10.  There are files of well-formed JSON on which [load] raises: an
    array that holds a number, or a string, decodes, and [load] ends in a
    [TypeError], which it does not catch. *)
Theorem load_tasks_raises :
  Json.loads "[1]" = Ret (VList [VInt 1])
  /\ load_tasks "alice" {[ "alice_tasks.json" := "[1]" ]} = Raise TypeError
  /\ Json.loads (json_text "['milk']") = Ret (VList [VStr "milk"])
  /\ load_tasks "alice" {[ "alice_tasks.json" := json_text "['milk']" ]} = Raise TypeError
  /\ Json.loads "7" = Ret (VInt 7)
  /\ load_tasks "alice" {[ "alice_tasks.json" := "7" ]} = Raise TypeError.
Proof. repeat split. Qed.

(** * The login gate *)


(** Among the ASCII characters, the alphanumeric ones are the digits and
    the letters. *)
Lemma isalnum_ascii (c : ascii) :
  (Chr.code c < 128)%N ->
  Chr.isalnum c = Chr.between 48 57 c || Chr.between 65 90 c || Chr.between 97 122 c.
Proof. each_char c; intros H; (discriminate H || reflexivity). Qed.



(** * The date validator *)

(** The four dates that the specification lists. *)
Lemma validate_date_vectors :
  validate_date EmptyString = true
  /\ validate_date "2024-02-29" = true
  /\ validate_date "2024-02-30" = false
  /\ validate_date "24-02-01" = false.
Proof. repeat split. Qed.

Lemma isdigit_cases (c : ascii) :
  Chr.isdigit c = true ->
  c = "0"%char \/ c = "1"%char \/ c = "2"%char \/ c = "3"%char \/ c = "4"%char
  \/ c = "5"%char \/ c = "6"%char \/ c = "7"%char \/ c = "8"%char \/ c = "9"%char.
Proof. each_char c; intros H; try discriminate H; tauto. Qed.

Lemma hyphen_case (c : ascii) : (Chr.code c =? 45)%N = true -> c = "-"%char.
Proof. each_char c; intros H; try discriminate H; reflexivity. Qed.

Ltac digit_cases H :=
  apply isdigit_cases in H;
  destruct H as [->|[->|[->|[->|[->|[->|[->|[->|[->| ->]]]]]]]]].

(** A due date of the fixed format is accepted: the validator errs on the
    side of accepting only. *)
Lemma fixed_format_accepted (s : string) :
  fixed_format s = true -> validate_date s = true.
Proof.
  unfold fixed_format.
  destruct s as [|y1 [|y2 [|y3 [|y4 [|h1 [|m1 [|m2 [|h2 [|e1 [|e2 [|]]]]]]]]]]];
    try discriminate.
  rewrite !andb_true_iff.
  intros [[[[[[[[[[Hy1 Hy2] Hy3] Hy4] Hh1] Hm1] Hm2] Hh2] He1] He2] Hvalid].
  apply hyphen_case in Hh1, Hh2. subst h1 h2.
  unfold validate_date, Strptime.strptime, Strptime.regex_match, Strptime.pat_Y.
  cbn [Str.truthy negb]. rewrite Hy1, Hy2, Hy3, Hy4. cbn [andb].
  set (Y := (1000 * Chr.digit_val y1 + 100 * Chr.digit_val y2
             + 10 * Chr.digit_val y3 + Chr.digit_val y4)%Z) in *.
  clearbody Y. clear Hy1 Hy2 Hy3 Hy4.
  pose proof Hvalid as Hv. unfold Strptime.valid_date in Hv.
  rewrite !andb_true_iff in Hv. destruct Hv as [[[[[_ _] HM1] HM2] HD1] HD2].
  digit_cases Hm1; digit_cases Hm2; try discriminate HM1; try discriminate HM2.
  all: (digit_cases He1; digit_cases He2; try discriminate HD1;
        try (exfalso; clear -HD2; revert HD2; unfold Strptime.days_in_month;
             cbn [Z.eqb orb Pos.eqb]; destruct (Strptime.is_leap Y); discriminate)).
  all: (cbv -[Strptime.valid_date] in Hvalid |- *; rewrite Hvalid; reflexivity).
Qed.

(** C3.  The validator does not hold to the fixed format: a month or a day
    of one digit passes, and so does a day written as a space and a digit,
    although the due date is then not of the form year of four digits,
    hyphen, month of two digits, hyphen, day of two digits. *)
Theorem validate_date_beyond_format :
  validate_date "2024-2-9" = true /\ fixed_format "2024-2-9" = false
  /\ validate_date "2024-02- 9" = true /\ fixed_format "2024-02- 9" = false.
Proof. repeat split. Qed.

(** * The invariant of the store *)

Section Invariant.
Import JsonFacts.

Lemma forallb_insert {A} (p : A -> bool) (l : list A) (i : nat) (x : A) :
  forallb p l = true -> p x = true -> forallb p (<[i := x]> l) = true.
Proof.
  revert i. induction l as [|y l IH]; intros i Hl Hx; [reflexivity|].
  cbn [forallb] in Hl. apply andb_true_iff in Hl as [Hy Hl].
  destruct i as [|i]; cbn; [now rewrite Hx, Hl | now rewrite Hy, IH].
Qed.

Lemma forallb_delete {A} (p : A -> bool) (l : list A) (i : nat) :
  forallb p l = true -> forallb p (delete i l) = true.
Proof.
  revert i. induction l as [|y l IH]; intros i Hl; [reflexivity|].
  cbn [forallb] in Hl. apply andb_true_iff in Hl as [Hy Hl].
  destruct i as [|i]; cbn; [exact Hl | now rewrite Hy, IH].
Qed.

Lemma forallb_lookup {A} (p : A -> bool) (l : list A) (i : nat) (x : A) :
  forallb p l = true -> l !! i = Some x -> p x = true.
Proof.
  intros Hl Hi. rewrite forallb_forall in Hl. apply Hl.
  apply list_elem_of_In. eapply list_elem_of_lookup_2, Hi.
Qed.

Lemma wf_get (k : string) (d : Dict.t) (v : pyval) :
  forallb (fun kx => wf (snd kx)) d = true -> Dict.get k d = Some v -> wf v = true.
Proof.
  induction d as [|[k1 v1] d IH]; [discriminate|].
  cbn [forallb snd Dict.get]. rewrite andb_true_iff. intros [H1 Hd].
  destruct (String.eqb k k1); [intros [= <-]; exact H1 | now apply IH].
Qed.

Lemma wf_getitem (data : pyval) (k : string) (v : pyval) :
  wf data = true -> getitem data k = Ret v -> wf v = true.
Proof.
  destruct data as [| | | | |d]; try discriminate. cbn [wf getitem].
  rewrite andb_true_iff. intros [_ Hd].
  destruct (Dict.get k d) as [x|] eqn:E; [|discriminate].
  intros [= <-]. eapply wf_get; eassumption.
Qed.

Lemma wf_from_dict (data : pyval) (t : Task) :
  wf data = true -> from_dict data = Ret t -> wf_task t = true.
Proof.
  intros Hwf. unfold from_dict.
  destruct (getitem data "name") as [n| |] eqn:En; try discriminate.
  destruct (getitem data "priority") as [p| |] eqn:Ep; try discriminate.
  destruct (getitem data "due_date") as [d| |] eqn:Ed; try discriminate.
  destruct (getitem data "category") as [c| |] eqn:Ec; try discriminate.
  destruct (getitem data "status") as [s| |] eqn:Es; try discriminate.
  cbn [bind]. intros [= <-]. unfold wf_task. cbn.
  now rewrite (wf_getitem _ _ _ Hwf En), (wf_getitem _ _ _ Hwf Ep),
    (wf_getitem _ _ _ Hwf Ed), (wf_getitem _ _ _ Hwf Ec), (wf_getitem _ _ _ Hwf Es).
Qed.

Lemma wf_comprehension (items : list pyval) (ts : list Task) :
  forallb wf items = true -> comprehension from_dict items = Ret ts ->
  forallb wf_task ts = true.
Proof.
  revert ts. induction items as [|x items IH]; intros ts Hwf.
  - intros [= <-]. reflexivity.
  - cbn [forallb] in Hwf. apply andb_true_iff in Hwf as [Hx Hitems].
    cbn [comprehension].
    destruct (from_dict x) as [t| |] eqn:Et; try discriminate.
    destruct (comprehension from_dict items) as [ts'| |]; try discriminate.
    cbn [bind]. intros [= <-]. cbn [forallb].
    now rewrite (wf_from_dict x t Hx Et), (IH ts' Hitems eq_refl).
Qed.

Lemma wf_chars (s : string) : forallb wf (chars s) = true.
Proof. induction s as [|c s IH]; [reflexivity | exact IH]. Qed.

Lemma wf_iterate (data : pyval) (items : list pyval) :
  wf data = true -> iterate data = Ret items -> forallb wf items = true.
Proof.
  destruct data as [| | |s|l|d]; try discriminate; cbn [iterate wf]; intros Hwf [= <-].
  - apply wf_chars.
  - exact Hwf.
  - clear Hwf. unfold Dict.keys. induction d as [|[k x] d IH]; [reflexivity | exact IH].
Qed.

(** What [load] returns can be written and read back. *)
Lemma load_tasks_wf (user : string) (disk : files) (ts : list Task) :
  load_tasks user disk = Ret ts -> forallb wf_task ts = true.
Proof.
  unfold load_tasks. destruct (disk !! filename user) as [text|];
    [|intros [= <-]; reflexivity].
  destruct (Json.loads text) as [data|e|] eqn:Eload; cbn [bind].
  - apply loads_wf in Eload.
    destruct (iterate data) as [items|e|] eqn:Eit; cbn [bind];
      [|destruct e; try discriminate; intros [= <-]; reflexivity|discriminate].
    pose proof (wf_iterate data items Eload Eit) as Hitems.
    destruct (comprehension from_dict items) as [ts'|e|] eqn:Ec.
    + intros [= <-]. eapply wf_comprehension; eassumption.
    + destruct e; try discriminate; intros [= <-]; reflexivity.
    + discriminate.
  - destruct e; try discriminate; intros [= <-]; reflexivity.
  - discriminate.
Qed.

Lemma elem_of_insert_inv {A} (l : list A) (i : nat) (x y : A) :
  y ∈ <[i := x]> l -> y = x \/ y ∈ l.
Proof.
  revert i. induction l as [|z l IH]; intros i; [now right|].
  destruct i as [|i]; cbn; intros H; apply elem_of_cons in H as [->|H].
  - now left.
  - right. now right.
  - right. left.
  - apply IH in H as [->|H]; [now left | right; now right].
Qed.

End Invariant.

(** C9, as stated, fails at session start: [load] takes the records of a
    file as they are, so a file edited by hand puts a task with a null
    field, an empty name and a due date that is no date into the store. *)
Lemma load_tasks_takes_any_record :
  init "alice" {[ "alice_tasks.json" := edited_file ]}
  = Ret (mkApp "alice"
           [mkTask (VStr EmptyString) VNone (VStr "tomorrow") (VStr "Work") (VStr "Pending")]
           None)
  /\ task_invariant
       (mkTask (VStr EmptyString) VNone (VStr "tomorrow") (VStr "Work") (VStr "Pending"))
     = false.
Proof. split; reflexivity. Qed.

(** Every handler keeps the invariant of the store and its agreement with
    the file. *)
Lemma handle_keeps_invariant (a : action) (self self' : ToDoApp) (disk disk' : files)
        (shown : option message) :
  forallb task_invariant (tasks self) = true ->
  load_tasks (username self) disk = Ret (tasks self) ->
  handle a self disk = Ret (self', disk', shown) ->
  forallb task_invariant (tasks self') = true
  /\ load_tasks (username self') disk' = Ret (tasks self')
  /\ match a with
     | Add _ | Update _ =>
         forall t, t ∈ tasks self' -> t ∉ tasks self -> named t = true
     | _ => True
     end.
Proof.
  intros Hinv Hsync. pose proof (load_tasks_wf _ _ _ Hsync) as Hwf.
  destruct a as [sel|form|form|confirm| |]; cbn [handle].
  - unfold on_task_select. destruct sel as [i|]; [destruct (tasks self !! i)|];
      cbn [bind]; try discriminate; intros [= <- <- <-]; repeat split; auto.
  - unfold add_task. destruct (get_form_data form) as [[[n p] d] c].
    destruct (Str.truthy n) eqn:Hn; cbn [negb];
      [|intros [= <- <- <-]; repeat split; auto; intros t Hin Hout; contradiction].
    destruct (validate_date d) eqn:Hd; cbn [negb];
      [|intros [= <- <- <-]; repeat split; auto; intros t Hin Hout; contradiction].
    intros [= <- <- <-]. cbn [tasks username clear_form]. repeat split.
    + apply JsonFacts.forallb_snoc; [exact Hinv|]. unfold task_invariant. cbn. now rewrite Hd.
    + apply load_saved. now apply JsonFacts.forallb_snoc.
    + intros t Hin Hout. apply elem_of_app in Hin as [Hin|Hin]; [contradiction|].
      apply list_elem_of_singleton in Hin as ->. exact Hn.
  - unfold update_task. destruct (selected_index self) as [i|];
      [|intros [= <- <- <-]; repeat split; auto; intros t Hin Hout; contradiction].
    destruct (get_form_data form) as [[[n p] d] c].
    destruct (Str.truthy n) eqn:Hn; cbn [negb];
      [|intros [= <- <- <-]; repeat split; auto; intros t Hin Hout; contradiction].
    destruct (validate_date d) eqn:Hd; cbn [negb];
      [|intros [= <- <- <-]; repeat split; auto; intros t Hin Hout; contradiction].
    destruct (tasks self !! i) as [old|] eqn:Hold; [|discriminate].
    intros [= <- <- <-]. cbn [tasks username].
    pose proof (forallb_lookup _ _ _ _ Hinv Hold) as Hoi.
    pose proof (forallb_lookup _ _ _ _ Hwf Hold) as How.
    repeat split.
    + apply forallb_insert; [exact Hinv|].
      unfold task_invariant in *. cbn. rewrite Hd.
      apply andb_true_iff in Hoi as [Hoi _]. apply andb_true_iff in Hoi as [_ ->].
      reflexivity.
    + apply load_saved. apply forallb_insert; [exact Hwf|].
      unfold wf_task in *. cbn. apply andb_true_iff in How as [_ ->]. reflexivity.
    + intros t Hin Hout. apply elem_of_insert_inv in Hin as [->|Hin]; [exact Hn|contradiction].
  - unfold delete_task. destruct (selected_index self) as [i|];
      [|intros [= <- <- <-]; repeat split; auto].
    destruct (tasks self !! i) as [old|] eqn:Hold; [|discriminate].
    destruct confirm; intros [= <- <- <-]; cbn [tasks username]; repeat split; auto.
    + now apply forallb_delete.
    + apply load_saved. now apply forallb_delete.
  - unfold mark_completed. destruct (selected_index self) as [i|];
      [|intros [= <- <- <-]; repeat split; auto].
    destruct (tasks self !! i) as [old|] eqn:Hold; [|discriminate].
    pose proof (forallb_lookup _ _ _ _ Hinv Hold) as Hoi.
    pose proof (forallb_lookup _ _ _ _ Hwf Hold) as How.
    destruct (is_completed old); intros [= <- <- <-]; cbn [tasks username];
      repeat split; auto.
    + apply forallb_insert; [exact Hinv|].
      unfold task_invariant in *. cbn. rewrite andb_true_r.
      rewrite !andb_true_iff in Hoi. destruct Hoi as [[[[[-> ->] ->] ->] _] ->].
      reflexivity.
    + apply load_saved. apply forallb_insert; [exact Hwf|].
      unfold wf_task in *. cbn. rewrite andb_true_r.
      rewrite !andb_true_iff in How. destruct How as [[[[-> ->] ->] ->] _].
      reflexivity.
  - intros [= <- <- <-]. cbn [tasks username clear_form]. auto.
Qed.


Lemma handle_keeps_named (a : action) (self self' : ToDoApp) (disk disk' : files)
      (shown : option message) :
  forallb named (tasks self) = true ->
  handle a self disk = Ret (self', disk', shown) ->
  forallb named (tasks self') = true.
Proof.
  intros Hnamed.
  destruct a as [sel|form|form|confirm| |]; cbn [handle].
  - unfold on_task_select. destruct sel as [i|]; [destruct (tasks self !! i)|];
      cbn [bind]; try discriminate; intros [= <- <- <-]; exact Hnamed.
  - unfold add_task. destruct (get_form_data form) as [[[n p] d] c].
    destruct (Str.truthy n) eqn:Hn; cbn [negb]; [|intros [= <- <- <-]; exact Hnamed].
    destruct (validate_date d); cbn [negb]; intros [= <- <- <-]; [|exact Hnamed].
    cbn [tasks clear_form]. now apply JsonFacts.forallb_snoc.
  - unfold update_task. destruct (selected_index self) as [i|];
      [|intros [= <- <- <-]; exact Hnamed].
    destruct (get_form_data form) as [[[n p] d] c].
    destruct (Str.truthy n) eqn:Hn; cbn [negb]; [|intros [= <- <- <-]; exact Hnamed].
    destruct (validate_date d); cbn [negb]; [|intros [= <- <- <-]; exact Hnamed].
    destruct (tasks self !! i) as [old|]; [|discriminate].
    intros [= <- <- <-]. cbn [tasks]. now apply forallb_insert.
  - unfold delete_task. destruct (selected_index self) as [i|];
      [|intros [= <- <- <-]; exact Hnamed].
    destruct (tasks self !! i) as [old|]; [|discriminate].
    destruct confirm; intros [= <- <- <-]; [|exact Hnamed].
    cbn [tasks]. now apply forallb_delete.
  - unfold mark_completed. destruct (selected_index self) as [i|];
      [|intros [= <- <- <-]; exact Hnamed].
    destruct (tasks self !! i) as [old|] eqn:Hold; [|discriminate].
    destruct (is_completed old); intros [= <- <- <-]; [exact Hnamed|].
    cbn [tasks]. apply forallb_insert; [exact Hnamed|].
    exact (forallb_lookup _ _ _ _ Hnamed Hold).
  - intros [= <- <- <-]. exact Hnamed.
Qed.

Lemma handle_keeps_username (a : action) (self self' : ToDoApp) (disk disk' : files)
      (shown : option message) :
  handle a self disk = Ret (self', disk', shown) -> username self' = username self.
Proof.
  destruct a as [sel|form|form|confirm| |]; cbn [handle].
  - unfold on_task_select. destruct sel as [i|]; [destruct (tasks self !! i)|];
      cbn [bind]; try discriminate; intros [= <- <- <-]; reflexivity.
  - unfold add_task. destruct (get_form_data form) as [[[n p] d] c].
    destruct (negb (Str.truthy n)); [intros [= <- <- <-]; reflexivity|].
    destruct (negb (validate_date d)); intros [= <- <- <-]; reflexivity.
  - unfold update_task. destruct (selected_index self) as [i|];
      [|intros [= <- <- <-]; reflexivity].
    destruct (get_form_data form) as [[[n p] d] c].
    destruct (negb (Str.truthy n)); [intros [= <- <- <-]; reflexivity|].
    destruct (negb (validate_date d)); [intros [= <- <- <-]; reflexivity|].
    destruct (tasks self !! i); [|discriminate]. intros [= <- <- <-]; reflexivity.
  - unfold delete_task. destruct (selected_index self) as [i|];
      [|intros [= <- <- <-]; reflexivity].
    destruct (tasks self !! i); [|discriminate].
    destruct confirm; intros [= <- <- <-]; reflexivity.
  - unfold mark_completed. destruct (selected_index self) as [i|];
      [|intros [= <- <- <-]; reflexivity].
    destruct (tasks self !! i) as [old|]; [|discriminate].
    destruct (is_completed old); intros [= <- <- <-]; reflexivity.
  - intros [= <- <- <-]. reflexivity.
Qed.

(** Every handler leaves a store that can be written and read back. *)
Lemma handle_keeps_wf (a : action) (self self' : ToDoApp) (disk disk' : files)
      (shown : option message) :
  forallb wf_task (tasks self) = true ->
  handle a self disk = Ret (self', disk', shown) ->
  forallb wf_task (tasks self') = true.
Proof.
  intros Hwf.
  destruct a as [sel|form|form|confirm| |]; cbn [handle].
  - unfold on_task_select. destruct sel as [i|]; [destruct (tasks self !! i)|];
      cbn [bind]; try discriminate; intros [= <- <- <-]; exact Hwf.
  - unfold add_task. destruct (get_form_data form) as [[[n p] d] c].
    destruct (negb (Str.truthy n)); [intros [= <- <- <-]; exact Hwf|].
    destruct (negb (validate_date d)); intros [= <- <- <-]; [exact Hwf|].
    cbn [tasks clear_form]. now apply JsonFacts.forallb_snoc.
  - unfold update_task. destruct (selected_index self) as [i|];
      [|intros [= <- <- <-]; exact Hwf].
    destruct (get_form_data form) as [[[n p] d] c].
    destruct (negb (Str.truthy n)); [intros [= <- <- <-]; exact Hwf|].
    destruct (negb (validate_date d)); [intros [= <- <- <-]; exact Hwf|].
    destruct (tasks self !! i) as [old|] eqn:Hold; [|discriminate].
    intros [= <- <- <-]. cbn [tasks]. apply forallb_insert; [exact Hwf|].
    pose proof (forallb_lookup _ _ _ _ Hwf Hold) as How.
    unfold wf_task in *. cbn. apply andb_true_iff in How as [_ ->]. reflexivity.
  - unfold delete_task. destruct (selected_index self) as [i|];
      [|intros [= <- <- <-]; exact Hwf].
    destruct (tasks self !! i) as [old|]; [|discriminate].
    destruct confirm; intros [= <- <- <-]; [|exact Hwf].
    cbn [tasks]. now apply forallb_delete.
  - unfold mark_completed. destruct (selected_index self) as [i|];
      [|intros [= <- <- <-]; exact Hwf].
    destruct (tasks self !! i) as [old|] eqn:Hold; [|discriminate].
    destruct (is_completed old); intros [= <- <- <-]; [exact Hwf|].
    cbn [tasks]. apply forallb_insert; [exact Hwf|].
    pose proof (forallb_lookup _ _ _ _ Hwf Hold) as How.
    unfold wf_task in *. cbn. rewrite andb_true_r.
    rewrite !andb_true_iff in How. destruct How as [[[[-> ->] ->] ->] _].
    reflexivity.
  - intros [= <- <- <-]. exact Hwf.
Qed.

(** The store of a session, started from whatever disk, can always be
    written and read back: the side condition of C1 and C2 holds of every
    store that the application can hold. *)
Lemma session_wf (actions : list action) (user : string) (disk disk' : files)
      (self0 self : ToDoApp) :
  init user disk = Ret self0 ->
  run actions self0 disk = Ret (self, disk') ->
  forallb wf_task (tasks self) = true.
Proof.
  intros Hinit.
  assert (Hwf : forallb wf_task (tasks self0) = true).
  { unfold init in Hinit.
    destruct (load_tasks user disk) as [ts| |] eqn:Hload; try discriminate.
    cbn [bind] in Hinit. injection Hinit as <-. eapply load_tasks_wf, Hload. }
  clear Hinit. revert self0 disk Hwf.
  induction actions as [|a actions IH]; intros self0 disk Hwf; cbn [run].
  - intros [= <- <-]. exact Hwf.
  - destruct (handle a self0 disk) as [[[self1 disk1] shown]| |] eqn:Ha; try discriminate.
    cbn [bind fst snd]. apply IH. eapply handle_keeps_wf; eassumption.
Qed.

(** A session that starts without a file: whatever the user does, every
    task of the store satisfies the invariant and has a name, and a new
    session finds exactly the store on the disk. *)
Lemma session_keeps_invariant (actions : list action) (user : string)
      (disk disk' : files) (self0 self : ToDoApp) :
  disk !! filename user = None ->
  init user disk = Ret self0 ->
  run actions self0 disk = Ret (self, disk') ->
  forallb task_invariant (tasks self) = true
  /\ forallb named (tasks self) = true
  /\ init user disk' = Ret (mkApp user (tasks self) None).
Proof.
  intros Habsent Hinit.
  assert (Hstart : forallb task_invariant (tasks self0) = true
                   /\ forallb named (tasks self0) = true
                   /\ load_tasks (username self0) disk = Ret (tasks self0)
                   /\ username self0 = user).
  { unfold init, load_tasks in *. rewrite Habsent in *. cbn [bind] in Hinit.
    injection Hinit as <-. cbn. rewrite Habsent. auto. }
  clear Habsent Hinit. revert self0 disk Hstart.
  induction actions as [|a actions IH]; intros self0 disk (Hinv & Hnamed & Hsync & Huser);
    cbn [run].
  - intros [= <- <-]. unfold init. rewrite <- Huser, Hsync. auto.
  - destruct (handle a self0 disk) as [[[self1 disk1] shown]| |] eqn:Ha; try discriminate.
    cbn [bind fst snd]. apply IH.
    destruct (handle_keeps_invariant a self0 self1 disk disk1 shown Hinv Hsync Ha)
      as (Hinv1 & Hsync1 & _).
    pose proof (handle_keeps_named _ _ _ _ _ _ Hnamed Ha).
    pose proof (handle_keeps_username _ _ _ _ _ _ Ha) as Hu.
    repeat split; auto. now rewrite Hu.
Qed.

(** C9, amended.  Every operation keeps the invariant: when it holds for
    every task of the store, and the file of the user is what [load] reads
    the store from (as it is after a session start), then after the
    operation it holds for every task of the new store, [load] reads the
    new store from the disk, and a task that add or update has put into
    the store has a name that is not empty. *)
Theorem task_invariant_kept (a : action) (self self' : ToDoApp) (disk disk' : files)
        (shown : option message) :
  forallb task_invariant (tasks self) = true ->
  load_tasks (username self) disk = Ret (tasks self) ->
  handle a self disk = Ret (self', disk', shown) ->
  forallb task_invariant (tasks self') = true
  /\ load_tasks (username self') disk' = Ret (tasks self')
  /\ match a with
     | Add _ | Update _ =>
         forall t, t ∈ tasks self' -> t ∉ tasks self -> named t = true
     | _ => True
     end.
Proof. apply handle_keeps_invariant. Qed.

Lemma task_invariant_kept_witness :
  exists (self' : ToDoApp) (disk' : files) (shown : option message),
    handle (Add milk_form) one_task one_task_disk = Ret (self', disk', shown)
    /\ forallb task_invariant (tasks self') = true
    /\ load_tasks (username self') disk' = Ret (tasks self')
    /\ (forall t, t ∈ tasks self' -> t ∉ tasks one_task -> named t = true).
Proof.
  eexists _, _, _. split; [reflexivity|].
  eapply (task_invariant_kept (Add milk_form) one_task _ one_task_disk);
    reflexivity.
Defined.

(** * The handlers and the file *)

Lemma append_inj_l (a b t : string) : a +:+ t = b +:+ t -> a = b.
Proof.
  revert b. induction a as [|c a IH]; intros [|c' b] H.
  - reflexivity.
  - apply (f_equal String.length) in H.
    change (String c' b +:+ t) with (String c' (b +:+ t)) in H.
    change (EmptyString +:+ t) with t in H.
    cbn [String.length] in H. rewrite JsonFacts.length_append in H. lia.
  - apply (f_equal String.length) in H.
    change (String c a +:+ t) with (String c (a +:+ t)) in H.
    change (EmptyString +:+ t) with t in H.
    cbn [String.length] in H. rewrite JsonFacts.length_append in H. lia.
  - change (String c (a +:+ t) = String c' (b +:+ t)) in H.
    injection H as -> H. f_equal. now apply IH.
Qed.

Lemma filename_inj (u v : string) : filename u = filename v -> u = v.
Proof. apply append_inj_l. Qed.

Lemma save_tasks_twice (user : string) (ts ts' : list Task) (disk : files) :
  save_tasks user ts (save_tasks user ts' disk) = save_tasks user ts disk.
Proof. unfold save_tasks. apply insert_insert_eq. Qed.

Lemma load_tasks_other (user other : string) (ts : list Task) (disk : files) :
  other <> user ->
  load_tasks other (save_tasks user ts disk) = load_tasks other disk.
Proof.
  intros Hne. unfold load_tasks, save_tasks.
  rewrite lookup_insert_ne; [reflexivity|].
  intros H. apply Hne. symmetry. now apply filename_inj.
Qed.

(** What a handler does with the disk: nothing, where it leaves the
    sequence as it is; otherwise it writes the new sequence to the file of
    the user. *)
Lemma handle_saves (a : action) (self self' : ToDoApp) (disk disk' : files)
      (shown : option message) :
  handle a self disk = Ret (self', disk', shown) ->
  username self' = username self
  /\ ((tasks self' = tasks self /\ disk' = disk)
      \/ disk' = save_tasks (username self) (tasks self') disk).
Proof.
  destruct a as [[i|]|f|f|[|]| |]; cbn [handle];
    unfold on_task_select, add_task, update_task, delete_task, mark_completed, clear_form.
  - destruct (tasks self !! i); cbn [bind]; intros H; inversion H; subst; cbn; auto.
  - cbn [bind]. intros H; inversion H; subst; auto.
  - destruct (get_form_data f) as [[[n p] d] c].
    destruct (negb (Str.truthy n)); [intros H; inversion H; subst; auto|].
    destruct (negb (validate_date d)); intros H; inversion H; subst; cbn; auto.
  - destruct (selected_index self) as [i|]; [|intros H; inversion H; subst; auto].
    destruct (get_form_data f) as [[[n p] d] c].
    destruct (negb (Str.truthy n)); [intros H; inversion H; subst; auto|].
    destruct (negb (validate_date d)); [intros H; inversion H; subst; auto|].
    destruct (tasks self !! i); intros H; inversion H; subst; cbn; auto.
  - destruct (selected_index self) as [i|]; [|intros H; inversion H; subst; auto].
    destruct (tasks self !! i); intros H; inversion H; subst; cbn; auto.
  - destruct (selected_index self) as [i|]; [|intros H; inversion H; subst; auto].
    destruct (tasks self !! i); intros H; inversion H; subst; cbn; auto.
  - destruct (selected_index self) as [i|]; [|intros H; inversion H; subst; auto].
    destruct (tasks self !! i) as [t|]; [|discriminate].
    destruct (is_completed t); intros H; inversion H; subst; cbn; auto.
  - intros H; inversion H; subst; cbn; auto.
Qed.

Lemma handle_keeps_loaded (a : action) (self self' : ToDoApp) (disk disk' : files)
      (shown : option message) :
  forallb wf_task (tasks self) = true ->
  load_tasks (username self) disk = Ret (tasks self) ->
  handle a self disk = Ret (self', disk', shown) ->
  load_tasks (username self') disk' = Ret (tasks self').
Proof.
  intros Hwf Hload H.
  pose proof (handle_keeps_wf _ _ _ _ _ _ Hwf H) as Hwf'.
  destruct (handle_saves _ _ _ _ _ _ H) as [-> [[-> ->]| ->]]; [assumption|].
  now apply load_saved.
Qed.

Lemma run_keeps_loaded (actions : list action) (self self' : ToDoApp) (disk disk' : files) :
  forallb wf_task (tasks self) = true ->
  load_tasks (username self) disk = Ret (tasks self) ->
  run actions self disk = Ret (self', disk') ->
  username self' = username self
  /\ forallb wf_task (tasks self') = true
  /\ load_tasks (username self') disk' = Ret (tasks self').
Proof.
  revert self disk. induction actions as [|a rest IH]; intros self disk Hwf Hload H.
  - cbn in H. inversion H; subst. auto.
  - cbn [run] in H. destruct (handle a self disk) as [[[s1 d1] m1]| |] eqn:Ha;
      cbn [bind fst snd] in H; try discriminate.
    destruct (IH s1 d1) as (Hu & Hw & Hl); try assumption.
    + eapply handle_keeps_wf; eassumption.
    + eapply handle_keeps_loaded; eassumption.
    + split; [|auto]. rewrite Hu. eapply handle_keeps_username; eassumption.
Qed.

(** X1.  Whatever file the session started from and whatever the user did
    in it, as long as no handler raised: the next start of the application
    for the same user shows exactly the sequence of tasks that the session
    ended with. *)
Theorem restart_shows_last_session (actions : list action) (user : string)
        (disk disk' : files) (self0 self : ToDoApp) :
  init user disk = Ret self0 ->
  run actions self0 disk = Ret (self, disk') ->
  init user disk' = Ret (mkApp user (tasks self) None).
Proof.
  intros Hinit Hrun. unfold init in Hinit.
  destruct (load_tasks user disk) as [ts| |] eqn:Hload; cbn [bind] in Hinit; try discriminate.
  inversion Hinit; subst self0; clear Hinit.
  destruct (run_keeps_loaded actions (mkApp user ts None) self disk disk'
              (load_tasks_wf _ _ _ Hload) Hload Hrun) as (Hu & _ & Hl).
  cbn [username] in Hu. rewrite Hu in Hl. unfold init. rewrite Hl. reflexivity.
Qed.

Lemma restart_shows_last_session_witness :
  exists (self : ToDoApp) (disk' : files),
    run [Select (Some 0); MarkCompleted; Add milk_form]
        (mkApp "alice"
           [mkTask (VStr EmptyString) VNone (VStr "tomorrow") (VStr "Work") (VStr "Pending")]
           None)
        {[ "alice_tasks.json" := edited_file ]} = Ret (self, disk')
    /\ init "alice" disk' = Ret (mkApp "alice" (tasks self) None).
Proof.
  eexists _, _. split; [reflexivity|].
  eapply (restart_shows_last_session [Select (Some 0); MarkCompleted; Add milk_form]
            "alice" {[ "alice_tasks.json" := edited_file ]});
    reflexivity.
Defined.

(** X2.  With a task selected that is not completed, [mark_completed] sets
    the status of that task to Completed and nothing else: its other four
    fields, the tasks at the other positions, the length and the selection
    stay, and the file of the user then holds the new sequence.  Marking
    the same task once more changes nothing and shows the notice. *)
Theorem mark_completed_marks (self : ToDoApp) (disk : files) (i : nat) (old : Task) :
  selected_index self = Some i ->
  tasks self !! i = Some old ->
  is_completed old = false ->
  forallb wf_task (tasks self) = true ->
  exists (self' : ToDoApp) (disk' : files),
    mark_completed self disk
    = Ret (self', disk', Some (showinfo "Task marked as completed!"))
    /\ tasks self' !! i =
         Some (mkTask (name old) (priority old) (due_date old) (category old)
                      (VStr "Completed"))
    /\ length (tasks self') = length (tasks self)
    /\ (forall j, j <> i -> tasks self' !! j = tasks self !! j)
    /\ selected_index self' = Some i
    /\ username self' = username self
    /\ load_tasks (username self) disk' = Ret (tasks self')
    /\ mark_completed self' disk'
       = Ret (self', disk', Some (showinfo "This task is already completed")).
Proof.
  intros Hsel Hold Hnot Hwf.
  assert (Hi : i < length (tasks self)) by (eapply lookup_lt_Some; eassumption).
  unfold mark_completed at 1. rewrite Hsel, Hold, Hnot.
  eexists _, _. split; [reflexivity|]. cbn [tasks selected_index username].
  split; [now apply list_lookup_insert_eq|].
  split; [apply length_insert|].
  split; [intros j Hj; now apply list_lookup_insert_ne|].
  split; [reflexivity|]. split; [reflexivity|].
  split.
  - apply load_saved. apply forallb_insert; [assumption|].
    pose proof (forallb_lookup _ _ _ _ Hwf Hold) as Hw.
    unfold wf_task in *. cbn [name priority due_date category status wf].
    rewrite !andb_true_iff in Hw. destruct Hw as [[[[-> ->] ->] ->] _]. reflexivity.
  - unfold mark_completed. cbn [tasks selected_index username].
    rewrite list_lookup_insert_eq by assumption. reflexivity.
Qed.

Lemma mark_completed_marks_witness :
  exists (self' : ToDoApp) (disk' : files),
    mark_completed (mkApp "alice" two_tasks (Some 0)) ∅
    = Ret (self', disk', Some (showinfo "Task marked as completed!"))
    /\ tasks self' !! 0 =
         Some (mkTask (VStr "Buy milk") (VStr "Low") (VStr "2024-02-29") (VStr "Shopping")
                      (VStr "Completed"))
    /\ length (tasks self') = length two_tasks
    /\ (forall j, j <> 0 -> tasks self' !! j = two_tasks !! j)
    /\ selected_index self' = Some 0
    /\ username self' = "alice"
    /\ load_tasks "alice" disk' = Ret (tasks self')
    /\ mark_completed self' disk'
       = Ret (self', disk', Some (showinfo "This task is already completed")).
Proof.
  apply (mark_completed_marks (mkApp "alice" two_tasks (Some 0)) ∅ 0
           (mkTask (VStr "Buy milk") (VStr "Low") (VStr "2024-02-29") (VStr "Shopping")
                   (VStr "Pending")));
    reflexivity.
Defined.

(** X3.  Pressing Update a second time with the same form changes
    nothing more: the application and the disk are as the first press left
    them, and the same dialog is shown. *)
Theorem update_task_again (form : Form) (self self' : ToDoApp) (disk disk' : files)
        (shown : option message) :
  update_task form self disk = Ret (self', disk', shown) ->
  update_task form self' disk' = Ret (self', disk', shown).
Proof.
  unfold update_task.
  destruct (selected_index self) as [i|] eqn:Hsel;
    [|intros H; inversion H; subst; rewrite Hsel; reflexivity].
  destruct (get_form_data form) as [[[n p] d] c].
  destruct (negb (Str.truthy n)) eqn:Hn;
    [intros H; inversion H; subst; rewrite Hsel; reflexivity|].
  destruct (negb (validate_date d)) eqn:Hd;
    [intros H; inversion H; subst; rewrite Hsel; reflexivity|].
  destruct (tasks self !! i) as [t|] eqn:Ht; [|discriminate].
  intros H; inversion H; subst; clear H. cbn [selected_index tasks username].
  rewrite ?Hsel, list_lookup_insert_eq by (eapply lookup_lt_Some; eassumption).
  cbn [status]. rewrite list_insert_insert_eq, save_tasks_twice. reflexivity.
Qed.

Lemma update_task_again_witness :
  exists (self' : ToDoApp) (disk' : files) (shown : option message),
    update_task milk_form one_task ∅ = Ret (self', disk', shown)
    /\ update_task milk_form self' disk' = Ret (self', disk', shown).
Proof.
  eexists _, _, _. split; [reflexivity|].
  apply (update_task_again milk_form one_task _ ∅). reflexivity.
Defined.

(** X4.  Adding a task, selecting the row it got and deleting it gives the
    sequence back as it was before, with nothing selected, and leaves that
    sequence in the file of the user. *)
Theorem add_then_delete (form : Form) (self : ToDoApp) (disk : files) :
  input_rejected form = false ->
  run [Add form; Select (Some (length (tasks self))); Delete true] self disk
  = Ret (mkApp (username self) (tasks self) None,
         save_tasks (username self) (tasks self) disk).
Proof.
  unfold input_rejected. intros Hin. cbn [run handle]. unfold add_task.
  destruct (get_form_data form) as [[[n p] d] c].
  apply orb_false_elim in Hin as [-> ->].
  cbn [negb bind fst snd]. unfold on_task_select, clear_form.
  cbn [tasks username].
  rewrite lookup_app_r, Nat.sub_diag by lia. cbn [lookup list_lookup bind fst snd].
  unfold delete_task. cbn [selected_index tasks username].
  rewrite lookup_app_r, Nat.sub_diag by lia. cbn [lookup list_lookup bind fst snd].
  rewrite delete_middle, app_nil_r, save_tasks_twice. reflexivity.
Qed.

Lemma add_then_delete_witness :
  input_rejected milk_form = false
  /\ run [Add milk_form; Select (Some (length (tasks one_task))); Delete true] one_task ∅
     = Ret (mkApp (username one_task) (tasks one_task) None,
            save_tasks (username one_task) (tasks one_task) ∅).
Proof.
  split; [reflexivity|]. apply (add_then_delete milk_form one_task ∅). reflexivity.
Defined.

Lemma handle_own_file (a : action) (self self' : ToDoApp) (disk disk' : files)
      (shown : option message) :
  handle a self disk = Ret (self', disk', shown) ->
  forall f : string, f <> filename (username self) -> disk' !! f = disk !! f.
Proof.
  intros H f Hf. destruct (handle_saves _ _ _ _ _ _ H) as [_ [[_ ->]| ->]]; [reflexivity|].
  unfold save_tasks. now rewrite lookup_insert_ne.
Qed.

(** X5.  A session reads and writes the file of its user only: every
    other file of the disk is after the session what it was before, and so
    is what every other user loads. *)
Theorem session_keeps_other_files (actions : list action) (self self' : ToDoApp)
        (disk disk' : files) :
  run actions self disk = Ret (self', disk') ->
  username self' = username self
  /\ (forall f : string, f <> filename (username self) -> disk' !! f = disk !! f)
  /\ (forall other : string,
        other <> username self -> load_tasks other disk' = load_tasks other disk).
Proof.
  revert self disk. induction actions as [|a rest IH]; intros self disk H.
  - cbn in H. inversion H; subst. auto.
  - cbn [run] in H. destruct (handle a self disk) as [[[s1 d1] m1]| |] eqn:Ha;
      cbn [bind fst snd] in H; try discriminate.
    destruct (IH _ _ H) as (Hu & Hf & Hl).
    pose proof (handle_keeps_username _ _ _ _ _ _ Ha) as Hu1.
    rewrite Hu1 in *.
    assert (Hfiles : forall f, f <> filename (username self) -> disk' !! f = disk !! f).
    { intros f Hne. rewrite Hf by assumption. eapply handle_own_file; eassumption. }
    split; [assumption|]. split; [assumption|].
    intros other Hne. unfold load_tasks. rewrite Hfiles; [reflexivity|].
    intros E. apply Hne. now apply filename_inj.
Qed.

Lemma session_keeps_other_files_witness :
  exists (self' : ToDoApp) (disk' : files),
    run [Add milk_form; Select (Some 0); Delete true] (mkApp "bob" [] None) one_task_disk
    = Ret (self', disk')
    /\ username self' = "bob"
    /\ (forall f : string, f <> "bob_tasks.json" -> disk' !! f = one_task_disk !! f)
    /\ (forall other : string,
          other <> "bob" -> load_tasks other disk' = load_tasks other one_task_disk).
Proof.
  eexists _, _. split; [reflexivity|].
  apply (session_keeps_other_files [Add milk_form; Select (Some 0); Delete true]
           (mkApp "bob" [] None) _ one_task_disk).
  reflexivity.
Defined.

(** * Trimming and the login gate *)

Lemma rstrip_head (c : ascii) (r : string) :
  Chr.isspace c = false -> exists r', Str.rstrip (String c r) = String c r'.
Proof.
  intros Hc. cbn [Str.rstrip]. destruct (Str.rstrip r); rewrite ?Hc; eauto.
Qed.

Lemma rstrip_rstrip (s : string) : Str.rstrip (Str.rstrip s) = Str.rstrip s.
Proof.
  induction s as [|c r IH]; [reflexivity|].
  cbn [Str.rstrip]. destruct (Str.rstrip r) as [|c' r'] eqn:E.
  - destruct (Chr.isspace c) eqn:Hc; [reflexivity|]. cbn [Str.rstrip]. now rewrite Hc.
  - cbn [Str.rstrip]. cbn [Str.rstrip] in IH.
    change (match r' with
            | EmptyString => _
            | String c0 s0 => _
            end) with (Str.rstrip (String c' r')) in *.
    rewrite IH. reflexivity.
Qed.

Lemma lstrip_head (s : string) :
  match Str.lstrip s with
  | EmptyString => True
  | String c _ => Chr.isspace c = false
  end.
Proof.
  induction s as [|c r IH]; [exact I|].
  cbn [Str.lstrip]. destruct (Chr.isspace c) eqn:Hc; [assumption|exact Hc].
Qed.

Lemma strip_head (s : string) :
  match Str.strip s with
  | EmptyString => True
  | String c _ => Chr.isspace c = false
  end.
Proof.
  unfold Str.strip. pose proof (lstrip_head s) as H.
  destruct (Str.lstrip s) as [|c r]; [exact I|].
  destruct (rstrip_head c r H) as [r' ->]. exact H.
Qed.

Lemma strip_strip (s : string) : Str.strip (Str.strip s) = Str.strip s.
Proof.
  pose proof (strip_head s) as H. unfold Str.strip at 1.
  destruct (Str.strip s) as [|c r] eqn:E; [reflexivity|].
  cbn [Str.lstrip]. rewrite H, <- E. unfold Str.strip. apply rstrip_rstrip.
Qed.

Lemma isalnum_not_space (c : ascii) : Chr.isalnum c = true -> Chr.isspace c = false.
Proof. each_char c; intros H; first [reflexivity | discriminate H]. Qed.

Lemma rstrip_no_space (s : string) :
  Str.all_chars (fun c => negb (Chr.isspace c)) s = true -> Str.rstrip s = s.
Proof.
  induction s as [|c r IH]; [reflexivity|].
  cbn [Str.all_chars Str.rstrip]. intros [Hc Hr]%andb_true_iff.
  rewrite (IH Hr). apply negb_true_iff in Hc. rewrite Hc. now destruct r.
Qed.

Lemma all_chars_impl (p q : ascii -> bool) (s : string) :
  (forall c, p c = true -> q c = true) ->
  Str.all_chars p s = true -> Str.all_chars q s = true.
Proof.
  intros Hpq. induction s as [|c r IH]; [reflexivity|].
  cbn [Str.all_chars]. intros [Hc Hr]%andb_true_iff.
  now rewrite (Hpq _ Hc), IH.
Qed.

Lemma strip_alnum (s : string) : Str.all_chars Chr.isalnum s = true -> Str.strip s = s.
Proof.
  intros H.
  assert (Hs : Str.all_chars (fun c => negb (Chr.isspace c)) s = true).
  { revert H. apply all_chars_impl. intros c Hc. now rewrite isalnum_not_space. }
  unfold Str.strip.
  assert (Str.lstrip s = s) as ->; [|now apply rstrip_no_space].
  destruct s as [|c r]; [reflexivity|]. cbn [Str.all_chars] in Hs.
  apply andb_true_iff in Hs as [Hc _]. apply negb_true_iff in Hc.
  cbn [Str.lstrip]. now rewrite Hc.
Qed.





(** * What [load_tasks] answers *)

Lemma from_dict_raises (item : pyval) (e : exn) :
  from_dict item = Raise e ->
  match e with
  | TypeError => is_record item = false
  | KeyError _ => True
  | _ => False
  end.
Proof.
  unfold from_dict, getitem. destruct item as [| | | | |d]; cbn [bind];
    try (intros H; inversion H; reflexivity).
  repeat (match goal with
          | |- context [Dict.get ?k d] => destruct (Dict.get k d); cbn [bind]
          end; [|intros H; inversion H; exact I]).
  discriminate.
Qed.

Lemma from_dict_holds (item : pyval) (t : Task) :
  from_dict item = Ret t -> holds_task item t.
Proof.
  unfold from_dict, getitem. destruct item as [| | | | |d]; cbn [bind]; try discriminate.
  destruct (Dict.get "name" d) eqn:E1; cbn [bind]; [|discriminate].
  destruct (Dict.get "priority" d) eqn:E2; cbn [bind]; [|discriminate].
  destruct (Dict.get "due_date" d) eqn:E3; cbn [bind]; [|discriminate].
  destruct (Dict.get "category" d) eqn:E4; cbn [bind]; [|discriminate].
  destruct (Dict.get "status" d) eqn:E5; cbn [bind]; [|discriminate].
  intros H. inversion H; subst. exists d. cbn. auto 10.
Qed.

Lemma comprehension_raises (items : list pyval) (e : exn) :
  comprehension from_dict items = Raise e ->
  match e with
  | TypeError => forallb is_record items = false
  | KeyError _ => True
  | _ => False
  end.
Proof.
  induction items as [|x r IH]; [discriminate|].
  cbn [comprehension forallb].
  destruct (from_dict x) as [t| e'|] eqn:Ex; cbn [bind].
  - destruct (comprehension from_dict r) as [ts| e''|]; cbn [bind]; try discriminate.
    intros H. inversion H; subst. specialize (IH eq_refl).
    destruct e; try assumption. rewrite IH. apply andb_false_r.
  - intros H. inversion H; subst. apply from_dict_raises in Ex.
    destruct e; try assumption. now rewrite Ex.
  - discriminate.
Qed.

Lemma comprehension_holds (items : list pyval) (ts : list Task) :
  comprehension from_dict items = Ret ts -> Forall2 holds_task items ts.
Proof.
  revert ts. induction items as [|x r IH]; intros ts.
  - cbn. intros H. inversion H. constructor.
  - cbn [comprehension]. destruct (from_dict x) as [t| |] eqn:Ex; cbn [bind]; try discriminate.
    destruct (comprehension from_dict r) as [ts'| |]; cbn [bind]; try discriminate.
    intros H. inversion H; subst. constructor; [now apply from_dict_holds|now apply IH].
Qed.

Lemma comprehension_texts (items : list pyval) (ts : list Task) :
  Forall (fun x => is_record x = false) items ->
  comprehension from_dict items = Ret ts -> items = [] /\ ts = [].
Proof.
  destruct items as [|x r]; [cbn; intros _ H; inversion H; auto|].
  intros Hall. inversion Hall as [|? ? Hx _]; subst.
  cbn [comprehension]. destruct x; try discriminate Hx; discriminate.
Qed.

Lemma chars_no_record (s : string) : Forall (fun x => is_record x = false) (chars s).
Proof. induction s; constructor; [reflexivity|assumption]. Qed.

Lemma keys_no_record (ks : list string) :
  Forall (fun x => is_record x = false) (map VStr ks).
Proof. induction ks; constructor; [reflexivity|assumption]. Qed.

Lemma loads_raises (text : string) (e : exn) :
  Json.loads text = Raise e -> e = JSONDecodeError.
Proof.
  unfold Json.loads. destruct (Json.scan_once _ _) as [v rest| |]; try discriminate.
  - destruct (Json.skip_ws rest); [discriminate|]. intros H. now inversion H.
  - intros H. now inversion H.
Qed.



(** X8.  A file counts as a whole or not at all: where [load_tasks]
    returns tasks, the text of the file is an array, there is one task for
    each item of the array, in the order of the array, and each item is a
    record that has the five fields of its task, with the values of the
    task; what else the record holds is ignored. *)
Theorem load_tasks_all_or_nothing (user : string) (disk : files) (ts : list Task) :
  load_tasks user disk = Ret ts ->
  ts <> [] ->
  exists (text : string) (items : list pyval),
    disk !! filename user = Some text
    /\ Json.loads text = Ret (VList items)
    /\ Forall2 holds_task items ts.
Proof.
  unfold load_tasks. destruct (disk !! filename user) as [text|];
    [|intros H; inversion H; congruence].
  destruct (Json.loads text) as [data| e|] eqn:Hload; cbn [bind]; [| |discriminate].
  - destruct (iterate data) as [items| e|] eqn:Hit; cbn [bind]; [| |discriminate].
    + destruct (comprehension from_dict items) as [ts'| e|] eqn:Hc; [| |discriminate].
      * intros H Hne. inversion H; subst ts'. exists text.
        destruct data; try discriminate Hit; cbn in Hit; inversion Hit; subst.
        -- destruct (comprehension_texts _ _ (chars_no_record _) Hc). congruence.
        -- eexists. split; [reflexivity|]. split; [exact Hload|].
           now apply comprehension_holds.
        -- destruct (comprehension_texts _ _ (keys_no_record _) Hc). congruence.
      * destruct e; try discriminate; intros H; inversion H; congruence.
    + destruct e; try discriminate; intros H; inversion H; congruence.
  - destruct e; try discriminate; intros H; inversion H; congruence.
Qed.

Lemma load_tasks_all_or_nothing_witness :
  exists (text : string) (items : list pyval),
    ({[ "alice_tasks.json" := file_with_more ]} : files) !! filename "alice" = Some text
    /\ Json.loads text = Ret (VList items)
    /\ Forall2 holds_task items
         [mkTask (VStr "a") (VStr "Low") (VStr EmptyString) (VStr "Work") (VStr "Pending");
          mkTask (VStr "b") (VStr "High") (VStr EmptyString) (VStr "Work")
                 (VStr "Completed")].
Proof.
  apply (load_tasks_all_or_nothing "alice" {[ "alice_tasks.json" := file_with_more ]});
    [reflexivity|discriminate].
Defined.

(** * The tree and the counts *)

Lemma enumerate_lookup {A} (l : list A) (start i : nat) :
  enumerate start l !! i = (fun x => (start + i, x)) <$> l !! i.
Proof.
  revert start i. induction l as [|x r IH]; intros start [|i]; cbn; try reflexivity.
  - now rewrite Nat.add_0_r.
  - change (enumerate (S start) r !! i = (fun x => (start + S i, x)) <$> r !! i).
    rewrite IH. now replace (S start + i) with (start + S i) by lia.
Qed.

Lemma enumerate_length {A} (l : list A) (start : nat) :
  length (enumerate start l) = length l.
Proof. revert start. induction l as [|x r IH]; intros start; cbn; [|rewrite IH]; reflexivity. Qed.

Lemma enumerate_fst {A} (l : list A) (start : nat) :
  map fst (enumerate start l) = seq start (length l).
Proof. revert start. induction l as [|x r IH]; intros start; cbn; [|rewrite IH]; reflexivity. Qed.

Lemma map_lookup {A B} (f : A -> B) (l : list A) (i : nat) :
  map f l !! i = f <$> l !! i.
Proof. revert i. induction l as [|x r IH]; intros [|i]; cbn; try reflexivity. apply IH. Qed.

Lemma rows_lookup (self : ToDoApp) (i : nat) :
  fst (refresh_task_list self) !! i = (fun t => row_of (i, t)) <$> tasks self !! i.
Proof.
  unfold refresh_task_list. cbn [fst].
  rewrite map_lookup, enumerate_lookup.
  destruct (tasks self !! i); reflexivity.
Qed.

(** X9.  [refresh_task_list] puts one row into the tree for each task, in
    the order of the sequence; the row of the task at position [i] is
    named [i], names no other row, and shows the five fields of that
    task. *)
Theorem refresh_task_list_rows (self : ToDoApp) :
  let rows := fst (refresh_task_list self) in
  length rows = length (tasks self)
  /\ map iid rows = seq 0 (length (tasks self))
  /\ NoDup (map iid rows)
  /\ (forall (i : nat) (row : Row),
        rows !! i = Some row <->
        exists t : Task,
          tasks self !! i = Some t
          /\ row = mkRow i (name t, priority t, due_date t, category t, status t)
                         [tag_of t]).
Proof.
  cbn zeta.
  assert (Hiid : map iid (fst (refresh_task_list self)) = seq 0 (length (tasks self))).
  { unfold refresh_task_list. cbn [fst]. rewrite <- enumerate_fst, map_map. reflexivity. }
  split; [unfold refresh_task_list; cbn [fst]; now rewrite length_map, enumerate_length|].
  split; [exact Hiid|]. split; [rewrite Hiid; apply NoDup_ListNoDup, seq_NoDup|].
  intros i row. rewrite rows_lookup. split.
  - destruct (tasks self !! i) as [t|]; [|discriminate].
    cbn. intros H. inversion H. eauto.
  - intros (t & -> & ->). reflexivity.
Qed.

Lemma count_status_app (s : string) (l1 l2 : list Task) :
  count_status s (l1 ++ l2) = count_status s l1 + count_status s l2.
Proof.
  induction l1 as [|t r IH]; [reflexivity|].
  change ((t :: r) ++ l2) with (t :: (r ++ l2)).
  cbn [count_status]. rewrite IH. now destruct (eq_text (status t) s).
Qed.

Lemma count_status_insert (s : string) (l : list Task) (i : nat) (old new : Task) :
  l !! i = Some old ->
  count_status s (<[i := new]> l) + (if eq_text (status old) s then 1 else 0)
  = count_status s l + (if eq_text (status new) s then 1 else 0).
Proof.
  revert i. induction l as [|t r IH]; intros [|i] H; try discriminate.
  - cbn in H. inversion H; subst. cbn -[eq_text].
    destruct (eq_text (status old) s), (eq_text (status new) s); lia.
  - specialize (IH i H).
    change (<[S i := new]> (t :: r)) with (t :: <[i := new]> r).
    cbn [count_status].
    destruct (eq_text (status t) s), (eq_text (status old) s), (eq_text (status new) s);
      lia.
Qed.

Lemma count_status_delete (s : string) (l : list Task) (i : nat) (old : Task) :
  l !! i = Some old ->
  count_status s (delete i l) + (if eq_text (status old) s then 1 else 0)
  = count_status s l.
Proof.
  revert i. induction l as [|t r IH]; intros [|i] H; try discriminate.
  - cbn in H. inversion H; subst. cbn -[eq_text].
    destruct (eq_text (status old) s); lia.
  - specialize (IH i H).
    change (delete (S i) (t :: r)) with (t :: delete i r).
    cbn [count_status].
    destruct (eq_text (status t) s), (eq_text (status old) s); lia.
Qed.

(** X10.  Of the numbers of the count label, Pending and Completed
    together never exceed Total, and they add up to Total exactly when
    every task has one of these two statuses. *)
Theorem counts_add_up (ts : list Task) :
  count_status "Pending" ts + count_status "Completed" ts <= length ts
  /\ (count_status "Pending" ts + count_status "Completed" ts = length ts
      <-> forallb counted ts = true).
Proof.
  induction ts as [|t r [IH1 IH2]]; [cbn; intuition lia|].
  cbn [count_status length forallb]. unfold counted at 1.
  destruct (status t) as [| | |s| |]; cbn [eq_text orb andb]; try (split; [lia|]).
  1-3, 5-6: split; [intros; lia|discriminate].
  destruct (String.eqb s "Pending") eqn:E1.
  - apply String.eqb_eq in E1. subst s. cbn [String.eqb Ascii.eqb Bool.eqb orb andb].
    split; [lia|]. rewrite <- IH2. split; lia.
  - destruct (String.eqb s "Completed"); cbn [orb].
    + split; [lia|]. rewrite <- IH2. split; lia.
    + split; [lia|]. split; [intros; lia|discriminate].
Qed.

(** X11.  How the three numbers of the count label move.  A call that is
    refused leaves them as they are; so do selecting, clearing the form,
    declining a deletion and updating a task.  Adding makes Total and
    Pending one more.  Marking makes Completed one more, and Pending one
    less where the task was pending.  A confirmed deletion makes Total one
    less, and takes at most one from Pending and from Completed. *)
Theorem counts_follow (a : action) (self self' : ToDoApp) (disk disk' : files)
        (shown : option message) :
  handle a self disk = Ret (self', disk', shown) ->
  let '(total, pending, completed) := counts (tasks self) in
  let '(total', pending', completed') := counts (tasks self') in
  if refused a self
  then (total', pending', completed') = (total, pending, completed)
  else match a with
       | Add _ => total' = S total /\ pending' = S pending /\ completed' = completed
       | MarkCompleted =>
           total' = total /\ completed' = S completed
           /\ pending' <= pending /\ pending <= S pending'
       | Delete true =>
           S total' = total
           /\ pending' <= pending /\ pending <= S pending'
           /\ completed' <= completed /\ completed <= S completed'
       | _ => (total', pending', completed') = (total, pending, completed)
       end.
Proof.
  unfold counts.
  destruct a as [[i|]|f|f|[|]| |]; cbn [handle refused];
    unfold on_task_select, add_task, update_task, delete_task, mark_completed, clear_form,
      input_rejected.
  - destruct (tasks self !! i); cbn [bind]; intros H; inversion H; subst; reflexivity.
  - cbn [bind]. intros H; inversion H; subst; reflexivity.
  - destruct (get_form_data f) as [[[n p] d] c].
    destruct (negb (Str.truthy n)); [intros H; inversion H; subst; reflexivity|].
    destruct (negb (validate_date d)); intros H; inversion H; subst; [reflexivity|].
    cbn [orb tasks]. rewrite length_app, !count_status_app. cbn. lia.
  - destruct (selected_index self) as [i|]; [|intros H; inversion H; subst; reflexivity].
    destruct (get_form_data f) as [[[n p] d] c].
    destruct (negb (Str.truthy n)); [intros H; inversion H; subst; reflexivity|].
    destruct (negb (validate_date d)); [intros H; inversion H; subst; reflexivity|].
    destruct (tasks self !! i) as [t|] eqn:Ht; [|discriminate].
    intros H; inversion H; subst. cbn [orb tasks]. rewrite length_insert.
    pose proof (count_status_insert "Pending" _ i t
                  (mkTask (VStr n) (VStr p) (VStr d) (VStr c) (status t)) Ht) as H1.
    pose proof (count_status_insert "Completed" _ i t
                  (mkTask (VStr n) (VStr p) (VStr d) (VStr c) (status t)) Ht) as H2.
    cbn [status] in H1, H2.
    apply Nat.add_cancel_r in H1, H2. rewrite H1, H2. reflexivity.
  - destruct (selected_index self) as [i|]; [|intros H; inversion H; subst; reflexivity].
    destruct (tasks self !! i) as [t|] eqn:Ht; [|discriminate].
    intros H; inversion H; subst. cbn [tasks].
    pose proof (count_status_delete "Pending" _ i t Ht) as H1.
    pose proof (count_status_delete "Completed" _ i t Ht) as H2.
    rewrite length_delete by (eexists; eassumption).
    apply lookup_lt_Some in Ht.
    destruct (eq_text (status t) "Pending"), (eq_text (status t) "Completed"); lia.
  - destruct (selected_index self) as [i|]; [|intros H; inversion H; subst; reflexivity].
    destruct (tasks self !! i) as [t|] eqn:Ht; [|discriminate].
    intros H; inversion H; subst. reflexivity.
  - destruct (selected_index self) as [i|]; [|intros H; inversion H; subst; reflexivity].
    destruct (tasks self !! i) as [t|] eqn:Ht; [|discriminate].
    destruct (is_completed t) eqn:Hc; intros H; inversion H; subst; [reflexivity|].
    cbn [tasks]. rewrite length_insert.
    pose proof (count_status_insert "Pending" _ i t
                  (mkTask (name t) (priority t) (due_date t) (category t)
                          (VStr "Completed")) Ht) as H1.
    pose proof (count_status_insert "Completed" _ i t
                  (mkTask (name t) (priority t) (due_date t) (category t)
                          (VStr "Completed")) Ht) as H2.
    cbn [status] in H1, H2.
    change (eq_text (status t) "Completed") with (is_completed t) in H2.
    rewrite Hc in H2. cbn in H1, H2.
    destruct (eq_text (status t) "Pending"); lia.
  - intros H; inversion H; subst; reflexivity.
Qed.

Lemma counts_follow_witness :
  let '(total, pending, completed) := counts two_tasks in
  let '(total', pending', completed') :=
    counts [mkTask (VStr "Buy milk") (VStr "Low") (VStr "2024-02-29") (VStr "Shopping")
                   (VStr "Completed");
            mkTask (VStr (String Chr.dquote "quoted")) (VStr "High") (VStr EmptyString)
                   (VStr "Work") (VStr "Completed")] in
  total' = total /\ completed' = S completed /\ pending' <= pending /\ pending <= S pending'.
Proof.
  exact (counts_follow MarkCompleted (mkApp "alice" two_tasks (Some 0)) _ ∅ _ _ eq_refl).
Defined.

(** * The window *)

Lemma row_listed (self : ToDoApp) (row : Row) :
  row ∈ fst (refresh_task_list self) ->
  exists t : Task, tasks self !! iid row = Some t /\ row = row_of (iid row, t).
Proof.
  intros [i Hi]%list_elem_of_lookup. rewrite rows_lookup in Hi.
  destruct (tasks self !! i) as [t|] eqn:Ht; [|discriminate].
  cbn in Hi. inversion Hi; subst. cbn [iid row_of fst]. eauto.
Qed.

Lemma row_offered (self : ToDoApp) (i : nat) :
  existsb (fun row => Nat.eqb (iid row) i) (fst (refresh_task_list self)) = true
  <-> i < length (tasks self).
Proof.
  rewrite existsb_exists. split.
  - intros (row & Hin & Heq). apply Nat.eqb_eq in Heq. subst i.
    apply list_elem_of_In, row_listed in Hin as (t & Ht & _).
    eapply lookup_lt_Some; eassumption.
  - intros Hi. apply lookup_lt_is_Some in Hi as [t Ht].
    exists (row_of (i, t)). split; [|apply Nat.eqb_refl].
    apply list_elem_of_In, list_elem_of_lookup. exists i.
    rewrite rows_lookup, Ht. reflexivity.
Qed.

Lemma text_of_returns (tk : tk_text) (how : widget) (v : pyval) (ex : exn) :
  text_of tk how v <> Raise ex.
Proof. destruct v; cbn; try destruct (tk how _); discriminate. Qed.

(** X12.  Every row that [refresh_task_list] put into the tree can be
    selected, and selecting it raises no [IndexError], whatever the row
    shows: the name of the row is the position of a task, the row shows
    the five fields of that task, [on_task_select] makes that position the
    selection and leaves the sequence as it is, and the form gets what the
    four widgets make of the first four fields, with the tree and the
    count label as they were.  Where these four fields are texts the form
    holds them, whatever Tk does with other values. *)
Theorem select_row_takes_row (tk : tk_text) (w : Main) (row : Row) :
  task_tree w = fst (refresh_task_list (todo w)) ->
  row ∈ task_tree w ->
  possible (SelectRow (Some (iid row))) (MainScreen w) = true
  /\ exists t : Task,
       tasks (todo w) !! iid row = Some t
       /\ values row = (name t, priority t, due_date t, category t, status t)
       /\ on_task_select (Some (iid row)) (todo w)
          = Ret (mkApp (username (todo w)) (tasks (todo w)) (Some (iid row)))
       /\ select_row tk (Some (iid row)) w
          = (do n <- text_of tk EntryInsert (name t);
             do p <- text_of tk VarSet (priority t);
             do d <- text_of tk EntryInsert (due_date t);
             do c <- text_of tk VarSet (category t);
             Ret (mkMain (mkApp (username (todo w)) (tasks (todo w)) (Some (iid row)))
                         (mkForm n p d c) (task_tree w) (task_count_label w)))
       /\ select_row tk (Some (iid row)) w <> Raise IndexError
       /\ (forall n p d c : string,
             name t = VStr n -> priority t = VStr p ->
             due_date t = VStr d -> category t = VStr c ->
             select_row tk (Some (iid row)) w
             = Ret (mkMain (mkApp (username (todo w)) (tasks (todo w)) (Some (iid row)))
                           (mkForm n p d c) (task_tree w) (task_count_label w))).
Proof.
  intros Htree Hin.
  assert (Hpos : possible (SelectRow (Some (iid row))) (MainScreen w) = true).
  { cbn [possible]. apply existsb_exists. exists row.
    split; [now apply list_elem_of_In|apply Nat.eqb_refl]. }
  split; [exact Hpos|].
  rewrite Htree in Hin. apply row_listed in Hin as (t & Ht & Hrow).
  exists t. split; [exact Ht|].
  split; [rewrite Hrow; reflexivity|].
  assert (Hsel : select_row tk (Some (iid row)) w
                 = (do n <- text_of tk EntryInsert (name t);
                    do p <- text_of tk VarSet (priority t);
                    do d <- text_of tk EntryInsert (due_date t);
                    do c <- text_of tk VarSet (category t);
                    Ret (mkMain (mkApp (username (todo w)) (tasks (todo w))
                                       (Some (iid row)))
                                (mkForm n p d c) (task_tree w) (task_count_label w)))).
  { unfold select_row, on_task_select. rewrite Ht. cbn [bind tasks]. rewrite Ht.
    reflexivity. }
  split; [unfold on_task_select; now rewrite Ht|].
  split; [exact Hsel|]. split.
  - rewrite Hsel.
    destruct (text_of tk EntryInsert (name t)) as [n|ex|] eqn:En; cbn [bind];
      [|now apply text_of_returns in En|discriminate].
    destruct (text_of tk VarSet (priority t)) as [p|ex|] eqn:Ep; cbn [bind];
      [|now apply text_of_returns in Ep|discriminate].
    destruct (text_of tk EntryInsert (due_date t)) as [d|ex|] eqn:Ed; cbn [bind];
      [|now apply text_of_returns in Ed|discriminate].
    destruct (text_of tk VarSet (category t)) as [c|ex|] eqn:Ec; cbn [bind];
      [|now apply text_of_returns in Ec|discriminate].
    discriminate.
  - intros n p d c En Ep Ed Ec. rewrite Hsel, En, Ep, Ed, Ec. reflexivity.
Qed.

Lemma select_row_takes_row_witness :
  possible (SelectRow (Some 0)) (MainScreen edited_window) = true
  /\ exists t : Task,
       tasks (todo edited_window) !! 0 = Some t
       /\ (VStr EmptyString, VNone, VStr "tomorrow", VStr "Work", VStr "Pending")
          = (name t, priority t, due_date t, category t, status t)
       /\ on_task_select (Some 0) (todo edited_window)
          = Ret (mkApp "alice" [edited_task] (Some 0))
       /\ select_row plain_values (Some 0) edited_window
          = (do n <- text_of plain_values EntryInsert (name t);
             do p <- text_of plain_values VarSet (priority t);
             do d <- text_of plain_values EntryInsert (due_date t);
             do c <- text_of plain_values VarSet (category t);
             Ret (mkMain (mkApp "alice" [edited_task] (Some 0))
                         (mkForm n p d c) (task_tree edited_window)
                         (task_count_label edited_window)))
       /\ select_row plain_values (Some 0) edited_window <> Raise IndexError
       /\ (forall n p d c : string,
             name t = VStr n -> priority t = VStr p ->
             due_date t = VStr d -> category t = VStr c ->
             select_row plain_values (Some 0) edited_window
             = Ret (mkMain (mkApp "alice" [edited_task] (Some 0))
                           (mkForm n p d c) (task_tree edited_window)
                           (task_count_label edited_window))).
Proof.
  apply (select_row_takes_row plain_values edited_window
           (mkRow 0 (VStr EmptyString, VNone, VStr "tomorrow", VStr "Work", VStr "Pending")
                  ["pending_low"])).
  - reflexivity.
  - cbn. apply list_elem_of_here.
Defined.

Lemma kept_inv (t : Task) :
  kept t = true ->
  exists n p d c s : string,
    t = mkTask (VStr n) (VStr p) (VStr d) (VStr c) (VStr s)
    /\ Str.truthy n = true /\ Str.strip n = n
    /\ member p PRIORITIES = true
    /\ validate_date d = true /\ Str.strip d = d
    /\ member c CATEGORIES = true
    /\ member s ["Pending"; "Completed"] = true.
Proof.
  destruct t as [[| | |n| |] [| | |p| |] [| | |d| |] [| | |c| |] [| | |s| |]];
    unfold kept; cbn [name priority due_date category status]; try discriminate.
  rewrite !andb_true_iff, !String.eqb_eq.
  intros [[[[[[H1 H2] H3] H4] H5] H6] H7]. exists n, p, d, c, s. auto 10.
Qed.

(** X13.  Selecting a task that the program made and pressing Update
    without a change to the form leaves the sequence as it is: the form
    holds the fields of the task, they pass the checks as they are, and
    the task written back is the task that was there. *)
Theorem select_then_update_keeps (tk : tk_text) (w : Main) (disk : files) (i : nat)
        (t : Task) :
  tasks (todo w) !! i = Some t ->
  kept t = true ->
  exists w1 w2 : Main,
    select_row tk (Some i) w = Ret w1
    /\ press_update w1 disk
       = Ret (w2, save_tasks (username (todo w)) (tasks (todo w)) disk,
              Some (showinfo "Task updated successfully!"))
    /\ tasks (todo w2) = tasks (todo w)
    /\ selected_index (todo w2) = Some i
    /\ form w2 = form w1.
Proof.
  intros Ht Hk. destruct (kept_inv t Hk) as (n & p & d & c & s & -> & Hn & Hsn & _ & Hd & Hsd & _).
  unfold select_row, on_task_select. rewrite Ht. cbn [bind tasks]. rewrite Ht.
  cbn [bind text_of name priority due_date category].
  eexists _, _. split; [reflexivity|].
  unfold press_update, update_task, unrefreshed, input_rejected, get_form_data.
  cbn [todo form selected_index tasks username task_name_entry priority_var due_date_entry
       category_var].
  rewrite Hsn, Hsd, Hn, Hd, Ht. cbn [negb orb bind status].
  rewrite list_insert_id by exact Ht.
  split; [reflexivity|]. cbn. auto.
Qed.

Lemma select_then_update_keeps_witness :
  exists w1 w2 : Main,
    select_row texts_only (Some 0) (refreshed (mkApp "alice" two_tasks None) cleared)
    = Ret w1
    /\ press_update w1 ∅
       = Ret (w2, save_tasks "alice" two_tasks ∅,
              Some (showinfo "Task updated successfully!"))
    /\ tasks (todo w2) = two_tasks
    /\ selected_index (todo w2) = Some 0
    /\ form w2 = form w1.
Proof.
  apply (select_then_update_keeps texts_only
           (refreshed (mkApp "alice" two_tasks None) cleared) ∅ 0
           (mkTask (VStr "Buy milk") (VStr "Low") (VStr "2024-02-29") (VStr "Shopping")
                   (VStr "Pending")));
    reflexivity.
Defined.

(** X14.  Logging out and in again under the same name shows the same
    tasks: with a username of letters and digits whose file loads as the
    sequence of the window, confirming the logout and typing the username
    at the login window gives the main window for that user with the same
    sequence, nothing selected, the form as new, and the disk as it
    was. *)
Theorem logout_login_same_tasks (tk : tk_text) (w : Main) (disk : files) :
  Str.isalnum (username (todo w)) = true ->
  load_tasks (username (todo w)) disk = Ret (tasks (todo w)) ->
  play tk [PressLogout true; PressLogin (username (todo w))] (MainScreen w) disk
  = Ret (MainScreen (refreshed (mkApp (username (todo w)) (tasks (todo w)) None) cleared),
         disk).
Proof.
  intros Hu Hload. cbn [play possible step bind fst snd].
  unfold login. pose proof Hu as Hu'. unfold Str.isalnum in Hu'.
  apply andb_true_iff in Hu' as [Ht Ha].
  rewrite (strip_alnum _ Ha), Ht, Hu. cbn [negb].
  unfold open_main, init. rewrite Hload. reflexivity.
Qed.

Lemma logout_login_same_tasks_witness :
  play texts_only [PressLogout true; PressLogin "alice"]
       (MainScreen (refreshed (mkApp "alice" two_tasks (Some 1)) milk_form))
       (save_tasks "alice" two_tasks ∅)
  = Ret (MainScreen (refreshed (mkApp "alice" two_tasks None) cleared),
         save_tasks "alice" two_tasks ∅).
Proof.
  apply (logout_login_same_tasks texts_only
           (refreshed (mkApp "alice" two_tasks (Some 1)) milk_form)
           (save_tasks "alice" two_tasks ∅));
    reflexivity.
Defined.

(** * The program *)

Lemma refresh_same_tasks (s1 s2 : ToDoApp) :
  tasks s1 = tasks s2 -> refresh_task_list s1 = refresh_task_list s2.
Proof. unfold refresh_task_list. intros ->. reflexivity. Qed.

(** An event of the main window does to the application and the disk what
    its handler does; the tree and the label are made anew or belong to
    the same sequence. *)
Lemma step_handles (tk : tk_text) (e : event) (a : action) (w : Main) (disk : files) :
  action_of e (form w) = Some a ->
  match step tk e (MainScreen w) disk with
  | Ret (s', disk', shown) =>
      exists w' : Main,
        s' = MainScreen w'
        /\ handle a (todo w) disk = Ret (todo w', disk', shown)
        /\ ((task_tree w' = fst (refresh_task_list (todo w'))
             /\ task_count_label w' = snd (refresh_task_list (todo w')))
            \/ (task_tree w' = task_tree w
                /\ task_count_label w' = task_count_label w
                /\ tasks (todo w') = tasks (todo w)))
        /\ match e with
           | SelectRow _ => True
           | _ => form w' = form w \/ form w' = cleared
           end
  | Raise ex => handle a (todo w) disk = Raise ex
  | Beyond => True
  end.
Proof.
  destruct e as [entry|text|text|choice|choice|[i|]| | |confirm| | |confirm];
    cbn [action_of]; try discriminate; intros H; inversion H; subst a; clear H;
    cbn [step handle].
  - (* a row *)
    unfold select_row, on_task_select.
    destruct (tasks (todo w) !! i) as [t|] eqn:Ht; cbn [bind tasks]; [|reflexivity].
    rewrite Ht.
    destruct (text_of tk EntryInsert (name t)) as [n|ex|] eqn:En; cbn [bind];
      [|now apply text_of_returns in En|exact I].
    destruct (text_of tk VarSet (priority t)) as [p|ex|] eqn:Ep; cbn [bind];
      [|now apply text_of_returns in Ep|exact I].
    destruct (text_of tk EntryInsert (due_date t)) as [d|ex|] eqn:Ed; cbn [bind];
      [|now apply text_of_returns in Ed|exact I].
    destruct (text_of tk VarSet (category t)) as [c|ex|] eqn:Ec; cbn [bind];
      [|now apply text_of_returns in Ec|exact I].
    eexists. split; [reflexivity|]. cbn [todo unrefreshed].
    split; [reflexivity|]. split; [|exact I]. right. cbn. auto.
  - (* no row *)
    cbn [select_row bind on_task_select]. exists w.
    split; [reflexivity|]. split; [reflexivity|]. split; [|exact I]. right. auto.
  - (* Add *)
    unfold press_add, add_task, input_rejected.
    destruct (get_form_data (form w)) as [[[n p] d] c].
    destruct (negb (Str.truthy n)); cbn [orb bind fst snd];
      [eexists; split; [reflexivity|]; cbn; auto 10|].
    destruct (negb (validate_date d)); cbn [orb bind fst snd];
      eexists; (split; [reflexivity|]); cbn; auto 10.
  - (* Update *)
    unfold press_update, update_task, input_rejected.
    destruct (selected_index (todo w)) as [i|] eqn:Hsel; cbn [bind fst snd];
      [|rewrite ?Hsel; eexists; split; [reflexivity|]; cbn; auto 10].
    destruct (get_form_data (form w)) as [[[n p] d] c].
    destruct (negb (Str.truthy n)); cbn [orb bind fst snd]; rewrite ?Hsel;
      [eexists; split; [reflexivity|]; cbn; auto 10|].
    destruct (negb (validate_date d)); cbn [orb bind fst snd]; rewrite ?Hsel;
      [eexists; split; [reflexivity|]; cbn; auto 10|].
    destruct (tasks (todo w) !! i); cbn [bind fst snd]; rewrite ?Hsel; [|reflexivity].
    eexists; (split; [reflexivity|]); cbn; auto 10.
  - (* Delete *)
    unfold press_delete, delete_task.
    destruct (selected_index (todo w)) as [i|] eqn:Hsel; cbn [bind fst snd];
      [|rewrite ?Hsel; eexists; split; [reflexivity|]; cbn; auto 10].
    destruct (tasks (todo w) !! i); cbn [bind fst snd]; [|reflexivity].
    destruct confirm; cbn [bind fst snd]; rewrite ?Hsel;
      eexists; (split; [reflexivity|]); cbn; auto 10.
  - (* Mark Complete *)
    unfold press_mark, mark_completed.
    destruct (selected_index (todo w)) as [i|] eqn:Hsel; cbn [bind fst snd];
      [|rewrite ?Hsel; eexists; split; [reflexivity|]; cbn; auto 10].
    destruct (tasks (todo w) !! i) as [t|] eqn:Ht; cbn [bind fst snd]; [|reflexivity].
    destruct (is_completed t); cbn [bind fst snd]; rewrite ?Hsel, ?Ht;
      eexists; (split; [reflexivity|]); cbn; auto 10.
  - (* Clear Form *)
    eexists. split; [reflexivity|]. cbn. auto 10.
Qed.

Lemma step_synced (tk : tk_text) (e : event) (s s' : screen) (disk disk' : files)
      (shown : option message) :
  synced s disk ->
  possible e s = true ->
  step tk e s disk = Ret (s', disk', shown) ->
  synced s' disk'.
Proof.
  intros Hs Hp Hstep. destruct s as [|w].
  - (* the login window *)
    destruct e; try discriminate Hp. cbn [step] in Hstep. unfold login in Hstep.
    destruct (Str.truthy (Str.strip entry)); cbn [negb] in Hstep;
      [|inversion Hstep; exact I].
    destruct (Str.isalnum (Str.strip entry)) eqn:Ha; cbn [negb] in Hstep;
      [|inversion Hstep; exact I].
    unfold open_main, init in Hstep.
    destruct (load_tasks (Str.strip entry) disk) as [ts| |] eqn:Hload;
      cbn [bind] in Hstep; try discriminate.
    inversion Hstep; subst. cbn. auto.
  - (* the main window *)
    destruct Hs as (Hu & Hsel & Hload & Htree & Hlabel).
    destruct (action_of e (form w)) as [a|] eqn:Ha.
    + pose proof (step_handles tk e a w disk Ha) as H. rewrite Hstep in H.
      destruct H as (w' & -> & Hh & Hshow & _).
      destruct (handle_returns a (todo w) disk Hsel) as (self1 & disk1 & shown1 & Hh1 & Hsel').
      { intros i ->. destruct e; try discriminate Ha. cbn in Ha. inversion Ha; subst.
        cbn [possible] in Hp. rewrite Htree in Hp. now apply row_offered. }
      rewrite Hh in Hh1. inversion Hh1; subst self1 disk1 shown1.
      pose proof (handle_keeps_username _ _ _ _ _ _ Hh) as Hname.
      pose proof (handle_keeps_loaded _ _ _ _ _ _ (load_tasks_wf _ _ _ Hload) Hload Hh)
        as Hload'.
      cbn [synced]. rewrite Hname. split; [exact Hu|]. split; [exact Hsel'|].
      split; [now rewrite <- Hname|].
      destruct Hshow as [[-> ->]|(-> & -> & Hsame)]; [auto|].
      rewrite (refresh_same_tasks _ _ Hsame). auto.
    + destruct e; try discriminate Ha; try discriminate Hp;
        cbn [step] in Hstep; inversion Hstep; subst; cbn; auto.
      destruct confirm; cbn; auto.
Qed.

Lemma play_synced (tk : tk_text) (events : list event) (s s' : screen)
      (disk disk' : files) :
  synced s disk ->
  play tk events s disk = Ret (s', disk') ->
  synced s' disk'.
Proof.
  revert s disk. induction events as [|e rest IH]; intros s disk Hs H.
  - cbn in H. inversion H; subst. exact Hs.
  - cbn [play] in H. destruct (possible e s) eqn:Hp; [|eauto].
    destruct (step tk e s disk) as [[[s1 d1] m1]| |] eqn:Hstep; cbn [bind fst snd] in H;
      try discriminate.
    eapply IH; [|exact H]. eapply step_synced; eassumption.
Qed.

(** X15.  Whatever the files on the disk, whatever the user does and
    whatever Tk makes of the values that are no texts, from the start of
    the program and as long as every handler returns: where the main
    window is open, the username is made of letters and digits, the
    selection (if any) is the position of a task, the file of the user
    loads as the sequence of tasks, and the tree and the count label show
    that sequence. *)
Theorem window_shows_store (tk : tk_text) (events : list event) (disk disk' : files)
        (s : screen) :
  main tk events disk = Ret (s, disk') ->
  synced s disk'.
Proof. apply play_synced. exact I. Qed.

Lemma window_shows_store_witness :
  exists (w : Main) (disk' : files),
    main plain_values
         [PressLogin " alice "; SelectRow (Some 0); PressMarkComplete;
          TypeName "Pay rent"; PressUpdate; TypeDueDate EmptyString; PressAdd;
          SelectRow (Some 1)]
         {[ "alice_tasks.json" := edited_file ]} = Ret (MainScreen w, disk')
    /\ form w = mkForm "Pay rent" "None" EmptyString "Work"
    /\ length (tasks (todo w)) = 2
    /\ synced (MainScreen w) disk'.
Proof.
  eexists _, _. split; [vm_compute; reflexivity|].
  split; [reflexivity|]. split; [reflexivity|].
  apply (window_shows_store plain_values
           [PressLogin " alice "; SelectRow (Some 0); PressMarkComplete;
            TypeName "Pay rent"; PressUpdate; TypeDueDate EmptyString; PressAdd;
            SelectRow (Some 1)]
           {[ "alice_tasks.json" := edited_file ]}).
  vm_compute. reflexivity.
Defined.

Lemma kept_built (n p d c s : string) :
  Str.truthy n = true -> Str.strip n = n ->
  member p PRIORITIES = true ->
  validate_date d = true -> Str.strip d = d ->
  member c CATEGORIES = true ->
  member s ["Pending"; "Completed"] = true ->
  kept (mkTask (VStr n) (VStr p) (VStr d) (VStr c) (VStr s)) = true.
Proof.
  intros H1 H2 H3 H4 H5 H6 H7. unfold kept. cbn [name priority due_date category status].
  rewrite H1, H2, H3, H4, H5, H6, H7, !String.eqb_refl. reflexivity.
Qed.

Lemma handle_keeps_kept (a : action) (self self' : ToDoApp) (disk disk' : files)
      (shown : option message) :
  forallb kept (tasks self) = true ->
  (forall f, a = Add f \/ a = Update f ->
             member (priority_var f) PRIORITIES = true
             /\ member (category_var f) CATEGORIES = true) ->
  handle a self disk = Ret (self', disk', shown) ->
  forallb kept (tasks self') = true.
Proof.
  intros Hk Hform.
  destruct a as [[i|]|f|f|[|]| |]; cbn [handle];
    unfold on_task_select, add_task, update_task, delete_task, mark_completed, clear_form,
      get_form_data.
  - destruct (tasks self !! i); cbn [bind]; intros H; inversion H; subst; assumption.
  - cbn [bind]. intros H; inversion H; subst; assumption.
  - destruct (Hform f (or_introl eq_refl)) as [Hp Hc].
    destruct (Str.truthy (Str.strip (task_name_entry f))) eqn:Hn; cbn [negb];
      [|intros H; inversion H; subst; assumption].
    destruct (validate_date (Str.strip (due_date_entry f))) eqn:Hd; cbn [negb];
      intros H; inversion H; subst; [|assumption].
    cbn [tasks]. rewrite forallb_app, Hk. cbn [forallb andb].
    rewrite kept_built; auto using strip_strip.
  - destruct (Hform f (or_intror eq_refl)) as [Hp Hc].
    destruct (selected_index self) as [i|]; [|intros H; inversion H; subst; assumption].
    destruct (Str.truthy (Str.strip (task_name_entry f))) eqn:Hn; cbn [negb];
      [|intros H; inversion H; subst; assumption].
    destruct (validate_date (Str.strip (due_date_entry f))) eqn:Hd; cbn [negb];
      [|intros H; inversion H; subst; assumption].
    destruct (tasks self !! i) as [t|] eqn:Ht; [|discriminate].
    intros H; inversion H; subst. cbn [tasks].
    apply forallb_insert; [assumption|].
    destruct (kept_inv t (forallb_lookup _ _ _ _ Hk Ht))
      as (tn & tp & td & tc & ts & -> & _ & _ & _ & _ & _ & _ & Hs).
    cbn [status]. apply kept_built; auto using strip_strip.
  - destruct (selected_index self) as [i|]; [|intros H; inversion H; subst; assumption].
    destruct (tasks self !! i); intros H; inversion H; subst.
    cbn [tasks]. now apply forallb_delete.
  - destruct (selected_index self) as [i|]; [|intros H; inversion H; subst; assumption].
    destruct (tasks self !! i); intros H; inversion H; subst. assumption.
  - destruct (selected_index self) as [i|]; [|intros H; inversion H; subst; assumption].
    destruct (tasks self !! i) as [t|] eqn:Ht; [|discriminate].
    destruct (is_completed t); intros H; inversion H; subst; [assumption|].
    cbn [tasks]. apply forallb_insert; [assumption|].
    destruct (kept_inv t (forallb_lookup _ _ _ _ Hk Ht))
      as (tn & tp & td & tc & ts & -> & ? & ? & ? & ? & ? & ? & ?).
    cbn [name priority due_date category]. now apply kept_built.
  - intros H; inversion H; subst; assumption.
Qed.

Lemma disk_kept_empty : disk_kept ∅.
Proof. intros user. exists []. unfold load_tasks. rewrite lookup_empty. auto. Qed.

Lemma handle_keeps_disk (a : action) (self self' : ToDoApp) (disk disk' : files)
      (shown : option message) :
  disk_kept disk ->
  handle a self disk = Ret (self', disk', shown) ->
  load_tasks (username self) disk' = Ret (tasks self') ->
  forallb kept (tasks self') = true ->
  disk_kept disk'.
Proof.
  intros Hd Hh Hload Hk user.
  destruct (decide (user = username self)) as [->|Hne]; [eauto|].
  destruct (handle_saves _ _ _ _ _ _ Hh) as [_ [[_ ->]| ->]]; [apply Hd|].
  rewrite load_tasks_other by assumption. apply Hd.
Qed.

Lemma step_keeps_steady (tk : tk_text) (e : event) (s s' : screen)
      (disk disk' : files) (shown : option message) :
  steady s disk ->
  possible e s = true ->
  step tk e s disk = Ret (s', disk', shown) ->
  steady s' disk'.
Proof.
  intros (Hd & Hs & Hw) Hp Hstep.
  pose proof (step_synced _ _ _ _ _ _ _ Hs Hp Hstep) as Hs'.
  enough (disk_kept disk'
          /\ match s' with
             | LoginScreen => True
             | MainScreen w =>
                 forallb kept (tasks (todo w)) = true
                 /\ member (priority_var (form w)) PRIORITIES = true
                 /\ member (category_var (form w)) CATEGORIES = true
             end) as [Hd' Hw'] by (split; [exact Hd'|split; [exact Hs'|exact Hw']]).
  clear Hs'. destruct s as [|w].
  - (* the login window *)
    destruct e; try discriminate Hp. cbn [step] in Hstep. unfold login in Hstep.
    destruct (Str.truthy (Str.strip entry)); cbn [negb] in Hstep;
      [|inversion Hstep; subst; auto].
    destruct (Str.isalnum (Str.strip entry)); cbn [negb] in Hstep;
      [|inversion Hstep; subst; auto].
    unfold open_main, init in Hstep.
    destruct (Hd (Str.strip entry)) as (ts & Hload & Hk).
    rewrite Hload in Hstep. cbn [bind] in Hstep. inversion Hstep; subst.
    cbn. auto.
  - (* the main window *)
    destruct Hw as (Hk & Hpri & Hcat).
    destruct Hs as (Hu & Hsel & Hload & Htree & Hlabel).
    destruct (action_of e (form w)) as [a|] eqn:Ha.
    + assert (Hcase : (exists i, e = SelectRow (Some i))
                      \/ (forall i, e <> SelectRow (Some i))).
      { destruct e as [| | | | |[i|]| | | | | |];
          try (right; intros ? ?; discriminate); left; eauto. }
      destruct Hcase as [[i ->]|Hno].
      * (* a row *)
        cbn [possible] in Hp. rewrite Htree in Hp. apply row_offered in Hp.
        apply lookup_lt_is_Some in Hp as [t Ht].
        destruct (kept_inv t (forallb_lookup _ _ _ _ Hk Ht))
          as (tn & tp & td & tc & ts & -> & ? & ? & ? & ? & ? & ? & ?).
        cbn [step] in Hstep. unfold select_row, on_task_select in Hstep.
        rewrite Ht in Hstep. cbn [bind tasks] in Hstep. rewrite Ht in Hstep.
        cbn [bind text_of name priority due_date category] in Hstep.
        inversion Hstep; subst. cbn. auto.
      * pose proof (step_handles tk e a w disk Ha) as H. rewrite Hstep in H.
        destruct H as (w' & -> & Hh & _ & Hform).
        assert (Hk' : forallb kept (tasks (todo w')) = true).
        { eapply handle_keeps_kept; [exact Hk| |exact Hh].
          intros f [E|E]; subst a; destruct e; try discriminate Ha;
            cbn in Ha; inversion Ha; subst; auto. }
        split.
        -- eapply handle_keeps_disk; [exact Hd|exact Hh| |exact Hk'].
           rewrite <- (handle_keeps_username _ _ _ _ _ _ Hh).
           eapply handle_keeps_loaded; [|exact Hload|exact Hh].
           eapply load_tasks_wf; exact Hload.
        -- split; [exact Hk'|].
           destruct e; try discriminate Ha;
             try (destruct Hform as [->| ->]; now auto).
           destruct selection as [i|]; [exfalso; now apply (Hno i)|].
           cbn [step select_row bind] in Hstep. inversion Hstep; subst. auto.
    + destruct e; try discriminate Ha; try discriminate Hp;
        cbn [step possible] in *; inversion Hstep; subst; cbn; auto.
      destruct confirm; cbn; auto.
Qed.

Lemma play_keeps_steady (tk : tk_text) (events : list event) (s s' : screen)
      (disk disk' : files) :
  steady s disk ->
  play tk events s disk = Ret (s', disk') ->
  steady s' disk'.
Proof.
  revert s disk. induction events as [|e rest IH]; intros s disk Hs H.
  - cbn in H. inversion H; subst. exact Hs.
  - cbn [play] in H. destruct (possible e s) eqn:Hp; [|eauto].
    destruct (step tk e s disk) as [[[s1 d1] m1]| |] eqn:Hstep; cbn [bind fst snd] in H;
      try discriminate.
    eapply IH; [|exact H]. eapply step_keeps_steady; eassumption.
Qed.

(** X16.  From a disk that holds nothing but stores of tasks as the
    program makes them (an empty disk, for one), whatever the user does at
    the two windows, as long as every handler returns (a write that fails
    ends this), all along: every file still holds such a store; where the
    main window is open it agrees with the file of the user, and the boxes
    hold a priority and a category of their lists; and every task has a
    name that is a trimmed text and not empty, a due date that is a
    trimmed text and empty or valid, a priority and a category of the
    lists of the boxes, and the status Pending or Completed. *)
Theorem kept_store_stays_kept (tk : tk_text) (events : list event) (disk disk' : files)
        (s : screen) :
  disk_kept disk ->
  main tk events disk = Ret (s, disk') ->
  steady s disk'.
Proof.
  intros Hd. apply play_keeps_steady. split; [exact Hd|]. split; exact I.
Qed.

Lemma kept_store_stays_kept_witness :
  exists (w : Main) (disk' : files),
    main texts_only
         [PressLogin "alice"; TypeName " Pay rent "; ChoosePriority "High";
          TypeDueDate "2024-02-30"; PressAdd; TypeDueDate " 2024-2-9 "; PressAdd;
          TypeName "Call Bob"; TypeDueDate EmptyString; PressAdd;
          SelectRow (Some 0); PressMarkComplete; TypeName "Pay the rent"; PressUpdate;
          SelectRow (Some 1); PressDelete true;
          PressLogout true; PressLogin "bob"; PressLogout true; PressLogin "alice"] ∅
    = Ret (MainScreen w, disk')
    /\ tasks (todo w)
       = [mkTask (VStr "Pay the rent") (VStr "High") (VStr "2024-2-9") (VStr "Personal")
                 (VStr "Completed")]
    /\ steady (MainScreen w) disk'.
Proof.
  eexists _, _. split; [vm_compute; reflexivity|]. split; [reflexivity|].
  apply (kept_store_stays_kept texts_only
           [PressLogin "alice"; TypeName " Pay rent "; ChoosePriority "High";
            TypeDueDate "2024-02-30"; PressAdd; TypeDueDate " 2024-2-9 "; PressAdd;
            TypeName "Call Bob"; TypeDueDate EmptyString; PressAdd;
            SelectRow (Some 0); PressMarkComplete; TypeName "Pay the rent"; PressUpdate;
            SelectRow (Some 1); PressDelete true;
            PressLogout true; PressLogin "bob"; PressLogout true; PressLogin "alice"] ∅).
  - exact disk_kept_empty.
  - vm_compute. reflexivity.
Defined.

(** * What the program never does *)

(** X17.  No handler leaves a selection behind that points at another
    task: whenever a handler changes the length of the sequence (a task
    added at the end, or one deleted and the later ones moved down),
    nothing is selected afterwards, so that Update, Delete and Mark
    Complete are refused until a row is selected anew; and whenever
    something is selected afterwards, the sequence is as long as it was
    before. *)
Theorem length_change_clears_selection (a : action) (self self' : ToDoApp)
        (disk disk' : files) (shown : option message) :
  handle a self disk = Ret (self', disk', shown) ->
  length (tasks self') <> length (tasks self) ->
  selected_index self' = None
  /\ (forall (f : Form) (confirm : bool),
        refused (Update f) self' = true
        /\ refused (Delete confirm) self' = true
        /\ refused MarkCompleted self' = true).
Proof.
  intros H Hlen.
  enough (selected_index self' = None) as Hnone
      by (split; [exact Hnone|]; intros f confirm; cbn [refused]; now rewrite Hnone).
  revert H Hlen.
  destruct a as [[i|]|f|f|[|]| |]; cbn [handle];
    unfold on_task_select, add_task, update_task, delete_task, mark_completed, clear_form.
  - destruct (tasks self !! i); cbn [bind]; intros H; inversion H; subst; cbn; congruence.
  - cbn [bind]. intros H; inversion H; subst; congruence.
  - destruct (get_form_data f) as [[[n p] d] c].
    destruct (negb (Str.truthy n)); [intros H; inversion H; subst; congruence|].
    destruct (negb (validate_date d)); intros H; inversion H; subst; [congruence|].
    reflexivity.
  - destruct (selected_index self) as [i|]; [|intros H; inversion H; subst; congruence].
    destruct (get_form_data f) as [[[n p] d] c].
    destruct (negb (Str.truthy n)); [intros H; inversion H; subst; congruence|].
    destruct (negb (validate_date d)); [intros H; inversion H; subst; congruence|].
    destruct (tasks self !! i); intros H; inversion H; subst.
    cbn [tasks]. rewrite length_insert. congruence.
  - destruct (selected_index self) as [i|]; [|intros H; inversion H; subst; congruence].
    destruct (tasks self !! i); intros H; inversion H; subst. reflexivity.
  - destruct (selected_index self) as [i|]; [|intros H; inversion H; subst; congruence].
    destruct (tasks self !! i); intros H; inversion H; subst. congruence.
  - destruct (selected_index self) as [i|]; [|intros H; inversion H; subst; congruence].
    destruct (tasks self !! i) as [t|]; [|discriminate].
    destruct (is_completed t); intros H; inversion H; subst; [congruence|].
    cbn [tasks]. rewrite length_insert. congruence.
  - intros H; inversion H; subst. reflexivity.
Qed.

Lemma length_change_clears_selection_witness :
  selected_index (mkApp "alice" [] None) = None
  /\ (forall (f : Form) (confirm : bool),
        refused (Update f) (mkApp "alice" [] None) = true
        /\ refused (Delete confirm) (mkApp "alice" [] None) = true
        /\ refused MarkCompleted (mkApp "alice" [] None) = true).
Proof.
  apply (length_change_clears_selection (Delete true) one_task _ ∅
           (save_tasks "alice" [] ∅) None).
  - reflexivity.
  - cbn. lia.
Defined.

Lemma load_raise_is_type_error (user : string) (disk : files) (e : exn) :
  load_tasks user disk = Raise e -> e = TypeError.
Proof.
  unfold load_tasks. destruct (disk !! filename user) as [text|]; [|discriminate].
  destruct (Json.loads text) as [data| e'|] eqn:Hload; cbn [bind]; [| |discriminate].
  - destruct (iterate data) as [items| e'|] eqn:Hit; cbn [bind].
    + destruct (comprehension from_dict items) as [ts| e'|] eqn:Hc; try discriminate.
      apply comprehension_raises in Hc.
      destruct e'; try contradiction; try discriminate. intros H. now inversion H.
    + destruct data; try discriminate Hit; cbn in Hit; inversion Hit; subst.
      all: intros H; now inversion H.
    + destruct data; discriminate Hit.
  - apply loads_raises in Hload. subst e'. discriminate.
Qed.

Lemma step_raises (tk : tk_text) (e : event) (s : screen) (disk : files) (ex : exn) :
  synced s disk ->
  possible e s = true ->
  step tk e s disk = Raise ex ->
  s = LoginScreen /\ ex = TypeError.
Proof.
  intros Hs Hp Hstep. destruct s as [|w].
  - split; [reflexivity|].
    destruct e; try discriminate Hp. cbn [step] in Hstep. unfold login in Hstep.
    destruct (Str.truthy (Str.strip entry)); cbn [negb] in Hstep; [|discriminate].
    destruct (Str.isalnum (Str.strip entry)); cbn [negb] in Hstep; [|discriminate].
    unfold open_main, init in Hstep.
    destruct (load_tasks (Str.strip entry) disk) as [ts| e'|] eqn:Hload;
      cbn [bind] in Hstep; try discriminate.
    inversion Hstep; subst. eapply load_raise_is_type_error; eassumption.
  - exfalso. destruct Hs as (Hu & Hsel & Hload & Htree & Hlabel).
    destruct (action_of e (form w)) as [a|] eqn:Ha.
    + pose proof (step_handles tk e a w disk Ha) as H. rewrite Hstep in H.
      destruct (handle_returns a (todo w) disk Hsel) as (? & ? & ? & Hh & _).
      { intros i ->. destruct e; try discriminate Ha. cbn in Ha. inversion Ha; subst.
        cbn [possible] in Hp. rewrite Htree in Hp. now apply row_offered. }
      rewrite Hh in H. discriminate.
    + destruct e; try discriminate Ha; try discriminate Hp;
        cbn [step] in Hstep; discriminate.
Qed.

Lemma play_raises (tk : tk_text) (events : list event) (s : screen) (disk : files)
      (ex : exn) :
  synced s disk ->
  play tk events s disk = Raise ex ->
  ex = TypeError.
Proof.
  revert s disk. induction events as [|e rest IH]; intros s disk Hs H; [discriminate|].
  cbn [play] in H. destruct (possible e s) eqn:Hp; [|eauto].
  destruct (step tk e s disk) as [[[s1 d1] m1]| ex'|] eqn:Hstep;
    cbn [bind fst snd] in H; try discriminate.
  - eapply IH; [|exact H]. eapply step_synced; eassumption.
  - inversion H; subst ex'. now destruct (step_raises _ _ _ _ _ Hs Hp Hstep).
Qed.

(** X18.  Whatever the files on the disk, whatever the user does and
    whatever Tk makes of the values that are no texts: the first handler
    of a session that does not return does not end in an [IndexError], a
    [KeyError] or a [JSONDecodeError].  Wherever a handler indexes the
    sequence with the selection, the selection is the position of a task,
    and [load_tasks] catches the two other exceptions.  (Nothing is said
    here of other exceptions.) *)
Theorem first_exception_not_of_the_store (tk : tk_text) (events : list event)
        (disk : files) :
  main tk events disk <> Raise IndexError
  /\ (forall k : string, main tk events disk <> Raise (KeyError k))
  /\ main tk events disk <> Raise JSONDecodeError.
Proof.
  unfold main.
  split; [|split; [intros k|]]; intros H; apply play_raises in H;
    try exact I; discriminate.
Qed.

(** * The login window on the screen *)

Section Geometry.

Local Open Scope Z_scope.

(** X19.  On a screen that is at least as wide and as high as the login
    window, [center_window] puts the window inside the screen and in its
    middle: the margins left and right differ by one pixel at most, and so
    do the margins above and below. *)
Theorem center_window_centres (screenwidth screenheight : Z) :
  400 <= screenwidth ->
  250 <= screenheight ->
  let '(x, y) := center_window screenwidth screenheight in
  0 <= x /\ x + 400 <= screenwidth
  /\ 0 <= (screenwidth - (x + 400)) - x <= 1
  /\ 0 <= y /\ y + 250 <= screenheight
  /\ 0 <= (screenheight - (y + 250)) - y <= 1.
Proof.
  intros Hw Hh. unfold center_window.
  change (400 / 2) with 200. change (250 / 2) with 125.
  pose proof (Z.div_mod screenwidth 2 ltac:(lia)).
  pose proof (Z.mod_pos_bound screenwidth 2 ltac:(lia)).
  pose proof (Z.div_mod screenheight 2 ltac:(lia)).
  pose proof (Z.mod_pos_bound screenheight 2 ltac:(lia)).
  lia.
Qed.

Lemma center_window_centres_witness :
  let '(x, y) := center_window 1921 1080 in
  0 <= x /\ x + 400 <= 1921
  /\ 0 <= (1921 - (x + 400)) - x <= 1
  /\ 0 <= y /\ y + 250 <= 1080
  /\ 0 <= (1080 - (y + 250)) - y <= 1.
Proof. apply (center_window_centres 1921 1080); lia. Defined.

End Geometry.

(** * The texts that [validate_date] takes *)

Section Dates.

Local Open Scope Z_scope.

(** The tests on a character, as arithmetic on its code. *)
Ltac codes :=
  unfold Chr.isdigit, Chr.between, Chr.digit_val in *;
  repeat match goal with
         | |- context [Chr.code ?c] =>
             let n := fresh "n" in
             let E := fresh "E" in
             remember (Chr.code c) as n eqn:E; clear E
         | H : context [Chr.code ?c] |- _ =>
             let n := fresh "n" in
             let E := fresh "E" in
             remember (Chr.code c) as n eqn:E; clear E
         end;
  repeat match goal with
         | H : context [(?a <=? ?b)%N] |- _ => destruct (N.leb_spec a b)
         | |- context [(?a <=? ?b)%N] => destruct (N.leb_spec a b)
         | H : context [(?a =? ?b)%N] |- _ => destruct (N.eqb_spec a b)
         | |- context [(?a =? ?b)%N] => destruct (N.eqb_spec a b)
         end;
  cbn [andb orb negb] in *;
  repeat match goal with
         | H : context [(?a <=? ?b)%Z] |- _ => destruct (Z.leb_spec a b)
         | |- context [(?a <=? ?b)%Z] => destruct (Z.leb_spec a b)
         end;
  cbn [andb orb negb] in *;
  try discriminate; try reflexivity; try (f_equal; lia); try lia.

Lemma alternatives_some {A} (alts : list Strptime.alt) (k : Z -> string -> option A)
      (s : string) (x : A) :
  Strptime.alternatives alts k s = Some x ->
  exists (a : Strptime.alt) (v : Z) (r : string),
    In a alts /\ a s = Some (v, r) /\ k v r = Some x.
Proof.
  induction alts as [|a more IH]; [discriminate|].
  cbn [Strptime.alternatives].
  destruct (a s) as [[v r]|] eqn:Ea.
  - destruct (k v r) as [y|] eqn:Ek.
    + intros H. inversion H; subst. exists a, v, r. cbn. auto.
    + intros H. destruct (IH H) as (a' & v' & r' & Hin & H1 & H2).
      exists a', v', r'. cbn. auto.
  - intros H. destruct (IH H) as (a' & v' & r' & Hin & H1 & H2).
    exists a', v', r'. cbn. auto.
Qed.

Lemma literal_some {A} (n : N) (k : string -> option A) (s : string) (x : A) :
  Strptime.literal n k s = Some x ->
  exists (c : ascii) (r : string), s = String c r /\ Chr.code c = n /\ k r = Some x.
Proof.
  destruct s as [|c r]; [discriminate|]. cbn [Strptime.literal].
  destruct (N.eqb_spec (Chr.code c) n); [|discriminate]. eauto.
Qed.

Lemma two_some (p1 p2 : ascii -> bool) (s : string) (v : Z) (r : string) :
  Strptime.two p1 p2 s = Some (v, r) ->
  exists a b : ascii,
    s = String a (String b r) /\ p1 a = true /\ p2 b = true
    /\ v = 10 * Chr.digit_val a + Chr.digit_val b.
Proof.
  destruct s as [|a [|b r']]; try discriminate. cbn [Strptime.two].
  destruct (p1 a) eqn:E1, (p2 b) eqn:E2; cbn [andb]; try discriminate.
  intros H. inversion H; subst. eauto 10.
Qed.

Lemma one_some (p : ascii -> bool) (s : string) (v : Z) (r : string) :
  Strptime.one p s = Some (v, r) ->
  exists a : ascii, s = String a r /\ p a = true /\ v = Chr.digit_val a.
Proof.
  destruct s as [|a r']; try discriminate. cbn [Strptime.one].
  destruct (p a) eqn:E1; try discriminate. intros H. inversion H; subst. eauto.
Qed.

Lemma space_then_some (p : ascii -> bool) (s : string) (v : Z) (r : string) :
  Strptime.space_then p s = Some (v, r) ->
  exists a b : ascii,
    s = String a (String b r) /\ Chr.code a = 32%N /\ p b = true /\ v = Chr.digit_val b.
Proof.
  destruct s as [|a [|b r']]; try discriminate. cbn [Strptime.space_then].
  destruct (N.eqb_spec (Chr.code a) 32); [|discriminate].
  destruct (p b) eqn:E1; cbn [andb]; try discriminate.
  intros H. inversion H; subst. eauto 10.
Qed.

Lemma code_inj (a b : ascii) : Chr.code a = Chr.code b -> a = b.
Proof.
  unfold Chr.code. intros H. rewrite <- (ascii_N_embedding a), <- (ascii_N_embedding b).
  now rewrite H.
Qed.

(** What [%m] reads before a hyphen. *)
Lemma month_read (s : string) (m : Z) (r : string) (a : Strptime.alt) :
  In a Strptime.pat_m -> a s = Some (m, r) ->
  exists ms : string, s = ms +:+ r /\ month_text ms = Some m.
Proof.
  intros Hin Ha. cbn in Hin. destruct Hin as [<-|[<-|[<-|[]]]].
  - apply two_some in Ha as (x & y & -> & H1 & H2 & ->).
    exists (String x (String y EmptyString)). split; [reflexivity|].
    unfold month_text, short_number. codes.
  - apply two_some in Ha as (x & y & -> & H1 & H2 & ->).
    exists (String x (String y EmptyString)). split; [reflexivity|].
    unfold month_text, short_number. codes.
  - apply one_some in Ha as (x & -> & H1 & ->).
    exists (String x EmptyString). split; [reflexivity|].
    unfold month_text, short_number. now rewrite H1.
Qed.

(** What [%d] reads at the end of the text. *)
Lemma day_read (s : string) (d : Z) (a : Strptime.alt) :
  In a Strptime.pat_d -> a s = Some (d, EmptyString) -> day_text s = Some d.
Proof.
  intros Hin Ha. cbn in Hin. destruct Hin as [<-|[<-|[<-|[<-|[<-|[]]]]]].
  - apply two_some in Ha as (x & y & -> & H1 & H2 & ->).
    unfold day_text, short_number. codes.
  - apply two_some in Ha as (x & y & -> & H1 & H2 & ->).
    unfold day_text, short_number. codes.
  - apply two_some in Ha as (x & y & -> & H1 & H2 & ->).
    unfold day_text, short_number. codes.
  - apply one_some in Ha as (x & -> & H1 & ->).
    unfold day_text, short_number. now rewrite H1.
  - apply space_then_some in Ha as (x & y & -> & H1 & H2 & ->).
    unfold day_text. rewrite H1, H2. reflexivity.
Qed.

Lemma year_read (s : string) (y : Z) (r : string) :
  Strptime.pat_Y s = Some (y, r) ->
  exists ys : string, s = ys +:+ r /\ year_text ys = Some y.
Proof.
  destruct s as [|a [|b [|c [|d r']]]]; try discriminate.
  cbn [Strptime.pat_Y].
  destruct (Chr.isdigit a && Chr.isdigit b && Chr.isdigit c && Chr.isdigit d) eqn:E;
    [|discriminate].
  intros H. inversion H; subst.
  exists (String a (String b (String c (String d EmptyString)))).
  split; [reflexivity|]. cbn [year_text]. now rewrite E.
Qed.

Lemma year_written (ys : string) (y : Z) (r : string) :
  year_text ys = Some y -> Strptime.pat_Y (ys +:+ r) = Some (y, r).
Proof.
  destruct ys as [|a [|b [|c [|d [|]]]]]; try discriminate.
  cbn [year_text].
  destruct (Chr.isdigit a && Chr.isdigit b && Chr.isdigit c && Chr.isdigit d) eqn:E;
    [|discriminate].
  intros H. inversion H; subst.
  change (String a (String b (String c (String d EmptyString))) +:+ r)
    with (String a (String b (String c (String d r)))).
  cbn [Strptime.pat_Y]. now rewrite E.
Qed.

(** [%m] reads a month before a hyphen, where the rest of the pattern
    matches from the hyphen on. *)
Lemma month_written {A} (ms : string) (m : Z) (r : string) (k : Z -> string -> option A)
      (x : A) :
  month_text ms = Some m ->
  k m (String "-" r) = Some x ->
  Strptime.alternatives Strptime.pat_m k (ms +:+ String "-" r) = Some x.
Proof.
  intros Hm Hk. unfold month_text, short_number in Hm.
  destruct ms as [|a [|b [|]]]; try discriminate.
  - (* one digit *)
    destruct (Chr.between 49 57 a) eqn:Ea; [|discriminate]. inversion Hm; subst.
    change (String a EmptyString +:+ String "-" r) with (String a (String "-" r)).
    unfold Strptime.pat_m.
    cbn [Strptime.alternatives Strptime.two Strptime.one].
    change (Chr.between 48 50 "-") with false. change (Chr.between 49 57 "-") with false.
    rewrite !andb_false_r, Ea, Hk. reflexivity.
  - (* two digits *)
    change (String a (String b EmptyString) +:+ String "-" r)
      with (String a (String b (String "-" r))).
    unfold Strptime.pat_m.
    cbn [Strptime.alternatives Strptime.two Strptime.one].
    destruct (Chr.between 49 49 a && Chr.between 48 50 b) eqn:E1.
    + destruct (Chr.isdigit a && Chr.isdigit b && _ && _); [|discriminate].
      inversion Hm; subst. now rewrite Hk.
    + destruct (Chr.between 48 48 a && Chr.between 49 57 b) eqn:E2.
      * destruct (Chr.isdigit a && Chr.isdigit b && _ && _); [|discriminate].
        inversion Hm; subst. now rewrite Hk.
      * exfalso. clear Hk. codes.
Qed.

(** [%d] reads a day at the end of the text. *)
Lemma day_written {A} (ds : string) (d : Z) (f : Z -> string -> A) :
  day_text ds = Some d ->
  Strptime.alternatives Strptime.pat_d (fun v r => Some (f v r)) ds
  = Some (f d EmptyString).
Proof.
  intros Hd. destruct ds as [|a [|b [|]]]; try discriminate.
  - (* one digit *)
    cbn [day_text short_number] in Hd.
    destruct (Chr.between 49 57 a) eqn:Ea; [|discriminate]. inversion Hd; subst.
    unfold Strptime.pat_d.
    cbn [Strptime.alternatives Strptime.two Strptime.one]. now rewrite Ea.
  - (* two characters *)
    cbn [day_text] in Hd. unfold Strptime.pat_d.
    cbn [Strptime.alternatives Strptime.two Strptime.one Strptime.space_then].
    destruct ((Chr.code a =? 32)%N && Chr.between 49 57 b) eqn:Es.
    + inversion Hd; subst.
      assert (Chr.between 51 51 a = false) as -> by (clear Hd; codes).
      assert (Chr.between 49 50 a = false) as -> by (clear Hd; codes).
      assert (Chr.between 48 48 a = false) as -> by (clear Hd; codes).
      assert (Chr.between 49 57 a = false) as -> by (clear Hd; codes).
      reflexivity.
    + cbn [short_number] in Hd.
      destruct (Chr.isdigit a && Chr.isdigit b && _ && _) eqn:Ev; [|discriminate].
      inversion Hd; subst. clear Hd.
      destruct (Chr.between 51 51 a && Chr.between 48 49 b) eqn:E1; [reflexivity|].
      destruct (Chr.between 49 50 a && Chr.isdigit b) eqn:E2; [reflexivity|].
      destruct (Chr.between 48 48 a && Chr.between 49 57 b) eqn:E3; [reflexivity|].
      exfalso. clear Es. codes.
Qed.

(** X20.  Among the texts of the model, whose characters are the code
    points U+0000 to U+00FF, [validate_date] takes as a due date the empty
    text and the texts made of a year of four digits 0 to 9, a hyphen, a
    month from 1 to 12, a hyphen and a day from 1 to 31 that name a day of
    the calendar, where a month or a day below ten is written with one
    digit or with a zero before it, and the day also with a space before
    it; it takes no other of these texts.  (Of a text with a character
    above U+00FF, a digit of another script for one, nothing is said.) *)
Theorem validate_date_takes (s : string) :
  validate_date s = true <-> s = EmptyString \/ date_text s.
Proof.
  unfold validate_date. destruct s as [|c0 s0]; [cbn; tauto|].
  cbn [Str.truthy negb]. set (s := String c0 s0). split.
  - intros H. right. unfold Strptime.strptime, Strptime.regex_match in H.
    destruct (Strptime.pat_Y s) as [[y r]|] eqn:Ey; [|discriminate].
    destruct (Strptime.literal 45 _ r) as [[[[y' m] d] rest]|] eqn:El; [|discriminate].
    destruct rest; [|discriminate].
    destruct (Strptime.valid_date y' m d) eqn:Hv; [|discriminate].
    apply year_read in Ey as (ys & Hs & Hy).
    apply literal_some in El as (h1 & r1 & -> & Hh1 & Hm).
    apply alternatives_some in Hm as (am & vm & r2 & Hin & Ham & Hk).
    destruct (month_read _ _ _ _ Hin Ham) as (ms & -> & Hms).
    apply literal_some in Hk as (h2 & r3 & -> & Hh2 & Hd).
    apply alternatives_some in Hd as (ad & vd & r4 & Hind & Had & Hk).
    inversion Hk; subst y' m d r4.
    pose proof (day_read _ _ _ Hind Had) as Hds.
    apply (code_inj h1 "-") in Hh1. apply (code_inj h2 "-") in Hh2. subst h1 h2.
    exists ys, ms, r3, y, vm, vd. rewrite Hs. auto.
  - intros [H|(ys & ms & ds & y & m & d & Hs & Hy & Hm & Hd & Hv)]; [discriminate|].
    rewrite Hs. unfold Strptime.strptime, Strptime.regex_match.
    rewrite (year_written _ _ _ Hy).
    change ("-" +:+ ms +:+ "-" +:+ ds) with (String "-" (ms +:+ String "-" ds)).
    cbn [Strptime.literal]. change (Chr.code "-" =? 45)%N with true. cbn iota.
    rewrite (month_written ms m ds _ (y, m, d, EmptyString) Hm); [now rewrite Hv|].
    cbn [Strptime.literal]. change (Chr.code "-" =? 45)%N with true. cbn iota.
    apply (day_written ds d (fun v r => (y, m, v, r)) Hd).
Qed.

End Dates.
